(** * PumpFunChatApp: intake, sequential processing and speech

    A shallow embedding of the two versions of the [PumpFunChatApp] class of
    the repository: the current server script (stable comment ids, a
    self-disabling speech announcer) in [Module Server], and the earlier
    [app.js] in [Module App], with its event loop in [Module AppLoop].  The
    JavaScript platform pieces both rely on
    (strings, regular expressions, values produced by [JSON.parse], [Set],
    promises and timers) are modelled first. *)

From Stdlib Require Import List String Ascii Bool Arith NArith Lia.
From Stdlib Require Import DecimalString.
Import ListNotations.

#[local] Set Warnings "-register-all,-notation-for-abbreviation".

Local Open Scope string_scope.
Local Open Scope list_scope.
Local Open Scope nat_scope.

(** Concatenation of text, as [+] on strings and as template literals. *)
Notation "s ^^ t" := (String.append s t) (at level 60, right associativity).

(* ================================================================== *)
(** * JavaScript text *)
(* ================================================================== *)

(** Text is carried as [string]: the bytes of its UTF-8 encoding.  The
    functions below are exact on ASCII text.  Outside ASCII they are not:
    JavaScript counts [length] and [substring] in UTF-16 code units, its
    blanks ([\s], [trim]) include U+00A0, U+FEFF and the space separators,
    its line terminators U+2028 and U+2029, and [toLowerCase] also lowers
    letters outside ASCII; here every byte above 127 is an ordinary
    character.  The properties that depend on lengths, blanks or line
    terminators are therefore stated for ASCII text. *)
Module Text.

Definition code (c : ascii) : nat := nat_of_ascii c.

Definition between (lo hi : nat) (c : ascii) : bool :=
  (lo <=? code c) && (code c <=? hi).

(** [\s] and the characters removed by [trim]: TAB, LF, VT, FF, CR, space. *)
Definition is_space (c : ascii) : bool :=
  between 9 13 c || (code c =? 32).

(** Line terminators, which [.] does not match. *)
Definition is_line_terminator (c : ascii) : bool :=
  (code c =? 10) || (code c =? 13).

(** [\w] is [[A-Za-z0-9_]]. *)
Definition is_word (c : ascii) : bool :=
  between 65 90 c || between 97 122 c || between 48 57 c || (code c =? 95).

Definition is_colon (c : ascii) : bool := code c =? 58.

(** The characters of ASCII, one byte and one UTF-16 code unit each. *)
Definition is_ascii (c : ascii) : bool := code c <? 128.

Definition lower_char (c : ascii) : ascii :=
  if between 65 90 c then ascii_of_nat (code c + 32) else c.

(** [s.toLowerCase()] *)
Fixpoint toLowerCase (s : string) : string :=
  match s with
  | EmptyString => EmptyString
  | String c r => String (lower_char c) (toLowerCase r)
  end.

(** [t] is a prefix of [s]. *)
Fixpoint startsWith (t s : string) : bool :=
  match t, s with
  | EmptyString, _ => true
  | String a t', String b s' => Ascii.eqb a b && startsWith t' s'
  | String _ _, EmptyString => false
  end.

(** [s.includes(t)] *)
Fixpoint includes (s t : string) : bool :=
  startsWith t s ||
  match s with
  | EmptyString => false
  | String _ r => includes r t
  end.

Fixpoint trimStart (s : string) : string :=
  match s with
  | String c r => if is_space c then trimStart r else s
  | EmptyString => EmptyString
  end.

(** What is left of [s] once trailing blanks are dropped. *)
Fixpoint trimEnd (s : string) : string :=
  match s with
  | EmptyString => EmptyString
  | String c r =>
      match trimEnd r with
      | EmptyString => if is_space c then EmptyString else String c EmptyString
      | r' => String c r'
      end
  end.

(** [s.trim()] *)
Definition trim (s : string) : string := trimEnd (trimStart s).

(** [s.split(sep)] for a one-character separator: never the empty list. *)
Fixpoint split (sep : ascii) (s : string) : list string :=
  match s with
  | EmptyString => [EmptyString]
  | String c r =>
      if Ascii.eqb c sep then EmptyString :: split sep r
      else match split sep r with
           | [] => [String c EmptyString]
           | w :: ws => String c w :: ws
           end
  end.

Definition LF : ascii := ascii_of_nat 10.

Definition NUL : ascii := ascii_of_nat 0.

(** [s.replace(pat, '')] with a string pattern: the first occurrence of
    [pat] is removed, the rest is kept. *)
Fixpoint dropPrefix (t s : string) : string :=
  match t, s with
  | String _ t', String _ s' => dropPrefix t' s'
  | _, _ => s
  end.

Fixpoint removeFirst (pat s : string) : string :=
  if startsWith pat s then dropPrefix pat s
  else match s with
       | EmptyString => EmptyString
       | String c r => String c (removeFirst pat r)
       end.

(** [s.substring(0, n)] *)
Fixpoint take (n : nat) (s : string) : string :=
  match n, s with
  | S n', String c r => String c (take n' r)
  | _, _ => EmptyString
  end.

(** Decimal rendering of a non-negative integer, as a template literal
    renders an integral Number below 2^53. *)
Definition decimal (n : N) : string := NilEmpty.string_of_uint (N.to_uint n).

End Text.

(* ================================================================== *)
(** * Regular expressions *)
(* ================================================================== *)

(** A backtracking matcher for the fragment of the regular-expression
    syntax the scripts use: single characters and classes, concatenation,
    greedy [*] and [+] over a class, and capture groups.  Alternatives are
    tried in the order ECMAScript tries them (longest repetition first),
    and [String.prototype.match] with a non-global expression returns the
    leftmost match. *)
Module Regex.

Inductive re : Type :=
| Eps
| Cls (p : ascii -> bool)          (* one character of a class *)
| Star (p : ascii -> bool)         (* greedy [p*] *)
| Cat (r1 r2 : re)
| Group (r : re).                  (* capturing parentheses *)

Definition Chr (c : ascii) : re := Cls (Ascii.eqb c).
Definition Plus (p : ascii -> bool) : re := Cat (Cls p) (Star p).

Fixpoint Lit (s : string) : re :=
  match s with
  | EmptyString => Eps
  | String c r => Cat (Chr c) (Lit r)
  end.

Section Matcher.
Variable A : Type.

(** A continuation receives the unread input and the captures so far. *)
Definition cont := string -> list string -> option A.

Fixpoint star (p : ascii -> bool) (s : string) (caps : list string)
         (k : cont) : option A :=
  match s with
  | String c r =>
      if p c then
        match star p r caps k with
        | Some a => Some a
        | None => k s caps
        end
      else k s caps
  | EmptyString => k s caps
  end.

Fixpoint run (r : re) (s : string) (caps : list string) (k : cont)
  : option A :=
  match r with
  | Eps => k s caps
  | Cls p =>
      match s with
      | String c rest => if p c then k rest caps else None
      | EmptyString => None
      end
  | Star p => star p s caps k
  | Cat r1 r2 => run r1 s caps (fun s' caps' => run r2 s' caps' k)
  | Group r1 =>
      run r1 s caps
          (fun s' caps' =>
             k s' (caps' ++ [Text.take (String.length s - String.length s') s]))
  end.
End Matcher.

(** The captures of a match anchored at the head of [s]. *)
Definition matchHere (r : re) (s : string) : option (list string) :=
  run (list string) r s [] (fun _ caps => Some caps).

(** [s.match(r)]: the captures of the leftmost match, or [None] for null. *)
Fixpoint exec (r : re) (s : string) : option (list string) :=
  match matchHere r s with
  | Some caps => Some caps
  | None =>
      match s with
      | EmptyString => None
      | String _ rest => exec r rest
      end
  end.

Definition any_char (c : ascii) : bool := negb (Text.is_line_terminator c).
Definition not_colon (c : ascii) : bool := negb (Text.is_colon c).

(** [/New message from ([^:]+):\s*(.+)/] *)
Definition newMessageRe : re :=
  Cat (Lit "New message from ")
      (Cat (Group (Plus not_colon))
           (Cat (Chr ":") (Cat (Star Text.is_space) (Group (Plus any_char))))).

(** [/(\w+):\s*(.+)/] *)
Definition messageRe : re :=
  Cat (Group (Plus Text.is_word))
      (Cat (Chr ":") (Cat (Star Text.is_space) (Group (Plus any_char)))).

End Regex.

(* ================================================================== *)
(** * JavaScript values *)
(* ================================================================== *)

Module Js.

Inductive error : Type := TypeError | SyntaxError.

(** How the evaluation of an expression or a call ends. *)
Inductive completion (A : Type) : Type :=
| Return (a : A)
| Throw (e : error).
Arguments Return {A} a.
Arguments Throw {A} e.

Definition bind {A B} (m : completion A) (f : A -> completion B)
  : completion B :=
  match m with
  | Return a => f a
  | Throw e => Throw e
  end.

(** The values [JSON.parse] builds, and [undefined].  A Number is carried
    as the text [Number::toString] renders it with, which determines it up
    to the sign of zero; the fields of an object are in source order. *)
Inductive value : Type :=
| VUndefined
| VNull
| VBool (b : bool)
| VNumber (rendering : string)
| VString (s : string)
| VArray (items : list value)
| VObject (fields : list (string * value)).

(** [ToBoolean]: what [if], [&&], [||] and [!] look at. *)
Definition ToBoolean (v : value) : bool :=
  match v with
  | VUndefined | VNull => false
  | VBool b => b
  | VNumber r => negb (String.eqb r "0" || String.eqb r "NaN")
  | VString s => negb (String.eqb s EmptyString)
  | VArray _ | VObject _ => true
  end.

Fixpoint hasKey (k : string) (fields : list (string * value)) : bool :=
  match fields with
  | [] => false
  | (k', _) :: rest => String.eqb k k' || hasKey k rest
  end.

(** The last binding of [k]: a repeated key overwrites the earlier one. *)
Fixpoint lookup (k : string) (fields : list (string * value)) : option value :=
  match fields with
  | [] => None
  | (k', v) :: rest =>
      match lookup k rest with
      | Some v' => Some v'
      | None => if String.eqb k k' then Some v else None
      end
  end.

(** [data.k] for one of the keys the scripts read ([type], [user], [text],
    [id], [username], [tokenAddress]), none of which is a property of a
    prototype: reading from [null] or [undefined] is a TypeError, a
    primitive or an array has no such property. *)
Definition get (data : value) (k : string) : completion value :=
  match data with
  | VUndefined | VNull => Throw TypeError
  | VObject fields =>
      match lookup k fields with
      | Some v => Return v
      | None => Return VUndefined
      end
  | _ => Return VUndefined
  end.

(** [ToString], as a template literal applies it.  An object built by
    [JSON.parse] has no callable property of its own, so one with an own
    [toString] key cannot be converted (neither that key nor the inherited
    [valueOf] gives a primitive); any other renders as [[object Object]].
    An array joins its items with commas, [null] items being empty. *)
Fixpoint ToString (v : value) : completion string :=
  match v with
  | VUndefined => Return "undefined"
  | VNull => Return "null"
  | VBool true => Return "true"
  | VBool false => Return "false"
  | VNumber r => Return r
  | VString s => Return s
  | VArray items =>
      let item (x : value) : completion string :=
          match x with
          | VUndefined | VNull => Return EmptyString
          | _ => ToString x
          end in
      (fix join (l : list value) : completion string :=
         match l with
         | [] => Return EmptyString
         | [x] => item x
         | x :: rest =>
             bind (item x) (fun s =>
             bind (join rest) (fun r => Return (s ^^ "," ^^ r)))
         end) items
  | VObject fields =>
      if hasKey "toString" fields then Throw TypeError
      else Return "[object Object]"
  end.

(** [v === 'lit'] *)
Definition strictEqualsString (v : value) (lit : string) : bool :=
  match v with
  | VString s => String.eqb s lit
  | _ => false
  end.

(** [SameValueZero], the equality of [Set]: primitives by value, objects
    by reference.  Every array or object this program looks up was built
    by the [JSON.parse] call of the line at hand, so it is a new reference
    and equal to nothing stored before. *)
Definition sameValueZero (a b : value) : bool :=
  match a, b with
  | VUndefined, VUndefined => true
  | VNull, VNull => true
  | VBool x, VBool y => Bool.eqb x y
  | VNumber x, VNumber y => String.eqb x y
  | VString x, VString y => String.eqb x y
  | _, _ => false
  end.

(** A [Set] keeps its members in insertion order. *)
Definition set : Type := list value.

Definition has (s : set) (v : value) : bool := existsb (sameValueZero v) s.
Definition add (s : set) (v : value) : set := if has s v then s else s ++ [v].
Definition size (s : set) : nat := List.length s.

(** [JSON.parse].  The decoder is the platform's and stays a parameter;
    the model fixes what the grammar's first token decides: a text whose
    first character after JSON blanks (space, TAB, LF, CR) cannot begin a
    JSON value is a SyntaxError. *)
Definition is_json_blank (c : ascii) : bool :=
  let n := Text.code c in (n =? 32) || (n =? 9) || (n =? 10) || (n =? 13).

Definition begins_json_value (c : ascii) : bool :=
  let n := Text.code c in
  (n =? 123) (* { *) || (n =? 91) (* [ *) || (n =? 34) (* quote *) ||
  (n =? 45) (* - *) || Text.between 48 57 c ||
  (n =? 116) (* t *) || (n =? 102) (* f *) || (n =? 110) (* n *).

Fixpoint canBeginJSON (s : string) : bool :=
  match s with
  | EmptyString => false
  | String c r => if is_json_blank c then canBeginJSON r else begins_json_value c
  end.

Definition JSON_parse (decode : string -> option value) (s : string)
  : completion value :=
  if canBeginJSON s then
    match decode s with
    | Some v => Return v
    | None => Throw SyntaxError
    end
  else Throw SyntaxError.

Definition dquote : string := String (ascii_of_nat 34) EmptyString.

(** [child_process.spawn] checks its arguments before it starts anything:
    a string with a NUL character among the arguments or the values of
    [env] is an [ERR_INVALID_ARG_VALUE], a TypeError thrown by the call
    itself.  A value of another type is rendered as text and passed on.
    (A program that cannot be started is reported later, by an event.) *)
Definition spawnRefuses (v : value) : bool :=
  match v with
  | VString s => Text.includes s (String Text.NUL EmptyString)
  | _ => false
  end.

(** A reading of [Math.random()]: the double [mantissa / 2^53], in [0, 1). *)
Record draw : Type := mkDraw {
  mantissa : N;
  mantissa_lt : (mantissa <? 9007199254740992)%N = true
}.

(** [Math.floor(Math.random() * len)], the product taken exactly (its
    rounding to a double can move the floor to the next integer, and for
    the two pool lengths stays below [len]). *)
Definition randomIndex (u : draw) (len : nat) : nat :=
  N.to_nat (mantissa u * N.of_nat len / 9007199254740992).

(** [pool[i]] *)
Definition element (pool : list string) (i : nat) : value :=
  match nth_error pool i with
  | Some s => VString s
  | None => VUndefined
  end.

(** What the awaited [this.textGenerator(prompt, options)] comes to. *)
Inductive backend : Type :=
| Rejects                      (* the call throws or its promise rejects *)
| Generated (text : string)    (* [result[0].generated_text] is this string *)
| Malformed.                   (* no such text: reading it is a TypeError *)

(** Synchronous methods over an object of type [St]: a state transformer
    that returns or throws. *)
Definition M (St A : Type) : Type := St -> completion A * St.

Definition ret {St A} (a : A) : M St A := fun st => (Return a, st).

Definition raise {St A} (e : error) : M St A := fun st => (Throw e, st).

Definition bindM {St A B} (m : M St A) (f : A -> M St B) : M St B :=
  fun st =>
    match m st with
    | (Return a, st') => f a st'
    | (Throw e, st') => (Throw e, st')
    end.

Definition lift {St A} (c : completion A) : M St A := fun st => (c, st).

(** [try { body } catch (e) { handler }] *)
Definition tryCatch {St A} (body : M St A) (handler : error -> M St A) : M St A :=
  fun st =>
    match body st with
    | (Return a, st') => (Return a, st')
    | (Throw e, st') => handler e st'
    end.

End Js.

Notation "x <- m ;; k" := (Js.bindM m (fun x => k))
  (at level 61, m at next level, right associativity).

(* ================================================================== *)
(** * The current server script *)
(* ================================================================== *)

Module Server.

Import Js.

(** An entry of [commentQueue]. *)
Record comment : Type := mkComment {
  id : value;
  user : value;
  message : value;
  timestamp : N
}.

(** The fields of [PumpFunChatApp] the pipeline reads and writes.
    [mcpProcess] is the handle of the last spawned child, [textGenerator]
    tells whether the model pipeline was loaded (it is null otherwise). *)
Record app : Type := mkApp {
  commentQueue : list comment;
  processedComments : set;
  isProcessing : bool;
  username : value;
  tokenAddress : value;
  mcpProcess : option nat;
  textGenerator : bool;
  currentlySpeaking : bool;
  ttsDisabled : bool
}.

(** The object the constructor builds. *)
Definition constructed : app :=
  mkApp [] [] false VNull VNull None false false false.

Definition with_commentQueue (q : list comment) (a : app) : app :=
  mkApp q (processedComments a) (isProcessing a) (username a) (tokenAddress a)
        (mcpProcess a) (textGenerator a) (currentlySpeaking a) (ttsDisabled a).

Definition with_processedComments (p : set) (a : app) : app :=
  mkApp (commentQueue a) p (isProcessing a) (username a) (tokenAddress a)
        (mcpProcess a) (textGenerator a) (currentlySpeaking a) (ttsDisabled a).

Definition with_isProcessing (b : bool) (a : app) : app :=
  mkApp (commentQueue a) (processedComments a) b (username a) (tokenAddress a)
        (mcpProcess a) (textGenerator a) (currentlySpeaking a) (ttsDisabled a).

Definition with_target (u t : value) (a : app) : app :=
  mkApp (commentQueue a) (processedComments a) (isProcessing a) u t
        (mcpProcess a) (textGenerator a) (currentlySpeaking a) (ttsDisabled a).

Definition with_mcpProcess (p : option nat) (a : app) : app :=
  mkApp (commentQueue a) (processedComments a) (isProcessing a) (username a)
        (tokenAddress a) p (textGenerator a) (currentlySpeaking a) (ttsDisabled a).

Definition with_textGenerator (g : bool) (a : app) : app :=
  mkApp (commentQueue a) (processedComments a) (isProcessing a) (username a)
        (tokenAddress a) (mcpProcess a) g (currentlySpeaking a) (ttsDisabled a).

Definition with_currentlySpeaking (b : bool) (a : app) : app :=
  mkApp (commentQueue a) (processedComments a) (isProcessing a) (username a)
        (tokenAddress a) (mcpProcess a) (textGenerator a) b (ttsDisabled a).

Definition with_ttsDisabled (b : bool) (a : app) : app :=
  mkApp (commentQueue a) (processedComments a) (isProcessing a) (username a)
        (tokenAddress a) (mcpProcess a) (textGenerator a) (currentlySpeaking a) b.

Definition M (A : Type) : Type := Js.M app A.

Section Intake.

(** [crypto.createHash('md5').update(s).digest('hex')] *)
Variable md5_hex : string -> string.

(** The decoder behind [JSON.parse]; [None] is a SyntaxError. *)
Variable json_decode : string -> option value.

Definition contentHash (user message : string) : string :=
  Text.take 8 (md5_hex (user ^^ ":" ^^ message)).

(** [providedId || `${user}_${contentHash}`], after the hash of
    [`${user}:${message}`] was taken. *)
Definition commentId (user message providedId : value) : completion value :=
  bind (ToString user) (fun u =>
  bind (ToString message) (fun m =>
    let hash := contentHash u m in
    if ToBoolean providedId then Return providedId
    else Return (VString (u ^^ "_" ^^ hash)))).

(** [queueComment(user, message, providedId = null)]; [now] is what
    [Date.now()] reads. *)
Definition queueComment (user message providedId : value) (now : N) : M unit :=
  cid <- lift (commentId user message providedId) ;;
  fun st =>
    if has (processedComments st) cid then (Return tt, st)
    else (Return tt,
          with_commentQueue
            (commentQueue st ++ [mkComment cid user message now]) st).

(** The body of the inner [try]: the line as a JSON record. *)
Definition structured (line : string) (now : N) : M unit :=
  data <- lift (JSON_parse json_decode line) ;;
  type <- lift (get data "type") ;;
  if strictEqualsString type "message" then
    u <- lift (get data "user") ;;
    if ToBoolean u then
      t <- lift (get data "text") ;;
      if ToBoolean t then
        i <- lift (get data "id") ;;
        queueComment u t (if ToBoolean i then i else VNull) now
      else ret tt
    else ret tt
  else ret tt.

(** [line.match(r)] destructured as [[, user, message]]. *)
Definition match2 (r : Regex.re) (line : string) : option (string * string) :=
  match Regex.exec r line with
  | Some [a; b] => Some (a, b)
  | _ => None
  end.

(** The body of the inner [catch]: the plain-text shapes. *)
Definition plainText (line : string) (now : N) : M unit :=
  match match2 Regex.newMessageRe line with
  | Some (u, m) =>
      queueComment (VString (Text.trim u)) (VString (Text.trim m)) VNull now
  | None =>
      if Text.includes line "message:" || Text.includes line "chat:"
         || Text.includes line ":"
      then
        match match2 Regex.messageRe line with
        | Some (u, m) => queueComment (VString u) (VString (Text.trim m)) VNull now
        | None => ret tt
        end
      else ret tt
  end.

(** The callback of [lines.forEach]. *)
Definition parseLine (line : string) (now : N) : M unit :=
  if String.eqb (Text.trim line) EmptyString then ret tt
  else tryCatch (structured line now) (fun _ => plainText line now).

(** [lines.forEach(...)]: an exception leaving a callback ends the loop.
    [clock k] is the reading of [Date.now()] while line [k] is handled. *)
Fixpoint forEachLine (lines : list string) (clock : nat -> N) (k : nat)
  : M unit :=
  match lines with
  | [] => ret tt
  | line :: rest =>
      _ <- parseLine line (clock k) ;; forEachLine rest clock (S k)
  end.

(** [parseAndQueueComments(mcpOutput)]: the outer [try] logs and drops
    whatever the loop throws. *)
Definition parseAndQueueComments (mcpOutput : string) (clock : nat -> N) : M unit :=
  tryCatch (forEachLine (Text.split Text.LF mcpOutput) clock 0)
           (fun _ => ret tt).

End Intake.

(** ** Response generation *)

Definition funnyResponses (name : string) : list string :=
  [ name ^^ ", you're absolutely right! I'm just here vibing in the digital realm 💫";
    "Hey " ^^ name ^^ "! Welcome to the future where AI avatars actually respond - wild times! 🚀";
    name ^^ ", I see you there! This chat bot has evolved beyond your wildest dreams 🤖✨";
    "Yo " ^^ name ^^ "! Thanks for testing me out - I promise I'm more fun than your average bot 😎";
    name ^^ ", you've discovered the secret - I'm actually listening! Mind = blown 🧠💥";
    "What's up " ^^ name ^^ "! You found the AI that actually talks back - plot twist! 🎭";
    name ^^ ", confirmed: I can read, I can speak, and I probably think crypto memes are funny 📈😂";
    "Hey " ^^ name ^^ "! Breaking news: Your AI avatar is now online and slightly sarcastic 🗞️";
    name ^^ ", you've unlocked the achievement: " ^^ dquote ^^ "Made an AI Respond" ^^ dquote
         ^^ " - legendary! 🏆";
    "Greetings " ^^ name ^^ "! Your local cyberpunk AI reporting for duty in this digital chaos 🌆⚡" ].

Definition cryptoResponses (name : string) : list string :=
  [ name ^^ ", to the moon? More like to the metaverse! 🌙🚀";
    name ^^ ", diamond hands meet digital soul - what could go wrong? 💎🤖";
    name ^^ ", when DeFi meets AI - this is what peak innovation looks like! 🔥";
    name ^^ ", hodling conversations now, not just coins! 💰💬";
    name ^^ ", probably nothing... except an AI that actually gets crypto culture! 📊⚡" ].

Definition cryptoTerms : list string :=
  ["moon"; "diamond"; "hodl"; "pump"; "gem"; "ape"; "wagmi"; "gm"; "probably nothing"].

(** [cryptoTerms.some(term => lower.includes(term.toLowerCase()))], where
    [lower] is [comment.message.toLowerCase()]. *)
Definition someCryptoTerm (lower : string) : bool :=
  existsb (fun term => Text.includes lower (Text.toLowerCase term)) cryptoTerms.

(** [containsCrypto] for a message that is a string. *)
Definition containsCrypto (message : string) : bool :=
  someCryptoTerm (Text.toLowerCase message).

(** [comment.message.toLowerCase()]: only a string has the method. *)
Definition callToLowerCase (v : value) : completion string :=
  match v with
  | VString s => Return (Text.toLowerCase s)
  | _ => Throw TypeError
  end.

(** [generateResponse] up to its only [await]. *)
Inductive generating : Type :=
| Finished (r : completion value)
| AwaitingBackend (selected : value) (prompt : string).

(** The outer [catch]. *)
Definition wentWrong (c : comment) : completion value :=
  bind (ToString (user c)) (fun name =>
    Return (VString (name ^^ ", something went wrong but I'm still vibing! 🤖✨"))).

Definition generateBegin (c : comment) (u : draw) (hasGenerator : bool)
  : generating :=
  let body : completion generating :=
    bind (ToString (user c)) (fun name =>
    let funny := funnyResponses name in
    let crypto := cryptoResponses name in
    bind (callToLowerCase (message c)) (fun lower =>
    let responsePool := if someCryptoTerm lower then crypto else funny in
    let selectedResponse :=
      element responsePool (randomIndex u (List.length responsePool)) in
    if hasGenerator then
      match ToString selectedResponse with
      | Return sel =>
          Return (AwaitingBackend selectedResponse
                    ("Make this funnier and more engaging: " ^^ dquote ^^ sel ^^ dquote))
      | Throw _ => Return (Finished (Return selectedResponse))
      end
    else Return (Finished (Return selectedResponse)))) in
  match body with
  | Return g => g
  | Throw _ => Finished (wentWrong c)
  end.

(** [generateResponse] from the settlement of the backend call on. *)
Definition generateResume (selected : value) (prompt : string) (o : backend)
  : completion value :=
  match o with
  | Generated text =>
      let enhanced := Text.trim (Text.removeFirst prompt text) in
      if negb (String.eqb enhanced EmptyString)
         && (10 <? String.length enhanced) && (String.length enhanced <? 150)
      then Return (VString enhanced)
      else Return selected
  | Rejects | Malformed => Return selected
  end.

(** [generateResponse] as a whole, the backend's answer given. *)
Definition generateResponse (c : comment) (u : draw) (hasGenerator : bool)
           (o : backend) : completion value :=
  match generateBegin c u hasGenerator with
  | Finished r => r
  | AwaitingBackend selected prompt => generateResume selected prompt o
  end.

(** ** The event loop

    Between two callbacks of the event loop the program is in a [world]:
    the object, the invocations of [processNextComment] suspended at an
    [await], the timers and callbacks still to come, the child processes,
    and the trace of the effects so far. *)

Inductive suspended : Type :=
| AwaitGenerate (c : comment) (selected : value) (prompt : string)
| AwaitSpeak (c : comment) (call : nat).

Inductive action : Type :=
| Dequeued (c : comment)
| MarkedProcessed (i : value)
| GenerateCalled (c : comment)
| GenerateSettled (c : comment) (r : completion value)
| SpeakCalled (call : nat) (response : value)
| TimerSet (call : nat) (ms : N)
| SayInvoked (call : nat) (response : value)
| Resolved (call : nat)
| AvatarAnimation (text : value)
| ErrorLogged
| Killed (pid : nat)
| Spawned (pid : nat) (token : value)
| QueueProcessorStarted
| Responded (status : nat).

Record world : Type := mkWorld {
  this : app;
  tasks : list suspended;      (* suspended [processNextComment] invocations *)
  timers : list (nat * N);     (* armed speech timeouts: call and delay *)
  speech : list nat;           (* calls whose [say.speak] callback is to come *)
  settled : list nat;          (* [speakResponse] promises already resolved *)
  calls : nat;                 (* [speakResponse] calls so far *)
  children : list nat;         (* children spawned, not killed, not closed *)
  spawned : nat;               (* child processes spawned so far *)
  intervals : nat;             (* [setInterval] timers running *)
  restarts : nat;              (* restart timers armed by a [close] event *)
  trace : list action
}.

(** The world once [initialize] is done; [loaded] tells whether the model
    pipeline could be loaded. *)
Definition booted (loaded : bool) : world :=
  mkWorld (with_textGenerator loaded constructed) [] [] [] [] 0 [] 0 0 0 [].

Definition on_this (f : app -> app) (w : world) : world :=
  mkWorld (f (this w)) (tasks w) (timers w) (speech w) (settled w) (calls w)
          (children w) (spawned w) (intervals w) (restarts w) (trace w).

Definition with_tasks (t : list suspended) (w : world) : world :=
  mkWorld (this w) t (timers w) (speech w) (settled w) (calls w)
          (children w) (spawned w) (intervals w) (restarts w) (trace w).

Definition with_timers (t : list (nat * N)) (w : world) : world :=
  mkWorld (this w) (tasks w) t (speech w) (settled w) (calls w)
          (children w) (spawned w) (intervals w) (restarts w) (trace w).

Definition with_speech (l : list nat) (w : world) : world :=
  mkWorld (this w) (tasks w) (timers w) l (settled w) (calls w)
          (children w) (spawned w) (intervals w) (restarts w) (trace w).

Definition with_settled (l : list nat) (w : world) : world :=
  mkWorld (this w) (tasks w) (timers w) (speech w) l (calls w)
          (children w) (spawned w) (intervals w) (restarts w) (trace w).

Definition with_calls (n : nat) (w : world) : world :=
  mkWorld (this w) (tasks w) (timers w) (speech w) (settled w) n
          (children w) (spawned w) (intervals w) (restarts w) (trace w).

Definition with_children (l : list nat) (n : nat) (w : world) : world :=
  mkWorld (this w) (tasks w) (timers w) (speech w) (settled w) (calls w)
          l n (intervals w) (restarts w) (trace w).

Definition with_intervals (n : nat) (w : world) : world :=
  mkWorld (this w) (tasks w) (timers w) (speech w) (settled w) (calls w)
          (children w) (spawned w) n (restarts w) (trace w).

Definition with_restarts (n : nat) (w : world) : world :=
  mkWorld (this w) (tasks w) (timers w) (speech w) (settled w) (calls w)
          (children w) (spawned w) (intervals w) n (trace w).

Definition emit (a : action) (w : world) : world :=
  mkWorld (this w) (tasks w) (timers w) (speech w) (settled w) (calls w)
          (children w) (spawned w) (intervals w) (restarts w) (trace w ++ [a]).

Definition suspend (t : suspended) (w : world) : world :=
  with_tasks (tasks w ++ [t]) w.

Definition mem (k : nat) (l : list nat) : bool := existsb (Nat.eqb k) l.
Definition remove (k : nat) (l : list nat) : list nat :=
  filter (fun j => negb (Nat.eqb k j)) l.

Definition armed (k : nat) (l : list (nat * N)) : bool :=
  existsb (fun t => Nat.eqb k (fst t)) l.
Definition clearTimeout (k : nat) (l : list (nat * N)) : list (nat * N) :=
  filter (fun t => negb (Nat.eqb k (fst t))) l.

(** ** The speech announcer *)

(** The [resolve] of call [k]: resolving a second time does nothing. *)
Definition resolve (k : nat) (w : world) : world :=
  if mem k (settled w) then w
  else emit (Resolved k) (with_settled (k :: settled w) w).

(** What [say.speak] does before it returns. *)
Inductive say : Type :=
| SayThrows      (* it throws: speech synthesis cannot be started *)
| SayStarts.     (* it returns; its callback may be called later *)

(** The executor of the promise [speakResponse] returns. *)
Definition speakResponse (response : value) (tts : say) (w : world) : world :=
  let k := calls w in
  let w := with_calls (S k) w in
  let w := emit (SpeakCalled k response) w in
  let w := on_this (with_currentlySpeaking true) w in
  if ttsDisabled (this w) then
    let w := on_this (with_currentlySpeaking false) w in
    let w := resolve k w in
    emit (AvatarAnimation response) w
  else
    let w := emit (TimerSet k 5000) (with_timers (timers w ++ [(k, 5000%N)]) w) in
    let w := emit (SayInvoked k response) w in
    let w :=
      match tts with
      | SayStarts => with_speech (speech w ++ [k]) w
      | SayThrows =>
          let w := on_this (with_ttsDisabled true) w in
          let w := on_this (with_currentlySpeaking false) w in
          resolve k w
      end in
    emit (AvatarAnimation response) w.

(** The callback given to [say.speak], for call [k]. *)
Definition sayCallback (k : nat) (err : bool) (w : world) : world :=
  let w := with_timers (clearTimeout k (timers w)) w in
  let w := if err then on_this (with_ttsDisabled true) w else w in
  let w := on_this (with_currentlySpeaking false) w in
  resolve k w.

(** The callback given to [setTimeout], for call [k]. *)
Definition ttsTimeout (k : nat) (w : world) : world :=
  let w := on_this (with_ttsDisabled true) w in
  let w := on_this (with_currentlySpeaking false) w in
  resolve k w.

(** ** The sequential processor *)

(** The [finally] of [processNextComment]. *)
Definition finish (w : world) : world := on_this (with_isProcessing false) w.

(** [processNextComment] from the settlement of [generateResponse] on:
    a rejection goes to the [catch], a response is spoken and awaited. *)
Definition afterGenerate (c : comment) (r : completion value) (tts : say)
           (w : world) : world :=
  let w := emit (GenerateSettled c r) w in
  match r with
  | Return response =>
      let k := calls w in
      suspend (AwaitSpeak c k) (speakResponse response tts w)
  | Throw _ => finish (emit ErrorLogged w)
  end.

(** [processNextComment] up to its first [await] that has to wait. *)
Definition processNextComment (u : draw) (tts : say) (w : world) : world :=
  if isProcessing (this w) then w
  else
    match commentQueue (this w) with
    | [] => w
    | c :: rest =>
        let w := on_this (with_isProcessing true) w in
        let w := emit (Dequeued c) (on_this (with_commentQueue rest) w) in
        (* the log line [`Processing comment from ${comment.user}: ...`] *)
        match bind (ToString (user c)) (fun _ => ToString (message c)) with
        | Throw _ => finish (emit ErrorLogged w)
        | Return _ =>
            let w := emit (MarkedProcessed (id c))
                       (on_this (fun a => with_processedComments
                                            (add (processedComments a) (id c)) a) w) in
            let w := emit (GenerateCalled c) w in
            match generateBegin c u (textGenerator (this w)) with
            | Finished r => afterGenerate c r tts w
            | AwaitingBackend selected prompt =>
                suspend (AwaitGenerate c selected prompt) w
            end
        end
    end.

(** The callback of [setInterval] in [startQueueProcessor]. *)
Definition tick (u : draw) (tts : say) (w : world) : world :=
  if negb (isProcessing (this w)) && (0 <? List.length (commentQueue (this w)))
  then processNextComment u tts w
  else w.

(** The first invocation suspended in [generateResponse], and the others. *)
Fixpoint takeGenerating (l : list suspended)
  : option (comment * value * string * list suspended) :=
  match l with
  | [] => None
  | AwaitGenerate c sel p :: rest => Some (c, sel, p, rest)
  | t :: rest =>
      match takeGenerating rest with
      | Some (c, sel, p, rest') => Some (c, sel, p, t :: rest')
      | None => None
      end
  end.

Definition awaitsSettled (done : list nat) (t : suspended) : bool :=
  match t with
  | AwaitSpeak _ k => mem k done
  | AwaitGenerate _ _ _ => false
  end.

(** The microtasks run when a callback returns: every invocation whose
    awaited [speakResponse] promise is resolved goes through its
    [finally]. *)
Definition drain (w : world) : world :=
  let ready := filter (awaitsSettled (settled w)) (tasks w) in
  let waiting := filter (fun t => negb (awaitsSettled (settled w) t)) (tasks w) in
  match ready with
  | [] => w
  | _ :: _ => finish (with_tasks waiting w)
  end.

(** ** The child process and the HTTP handlers *)

(** [startPumpFunChat()], then [startQueueProcessor()].  [kill()] sends
    the signal and returns: the child it was sent to is no longer among
    [children], whether or not it has exited yet.  The log line after the
    kill renders [this.tokenAddress], and [spawn] refuses a token address
    with a NUL character in the value of [PUMP_FUN_TOKEN]: either
    exception leaves [mcpProcess] at the killed child, with no new child
    and no interval. *)
Definition startPumpFunChat (w : world) : completion unit * world :=
  let w :=
    match mcpProcess (this w) with
    | Some p => emit (Killed p) (with_children (remove p (children w)) (spawned w) w)
    | None => w
    end in
  match ToString (tokenAddress (this w)) with
  | Throw e => (Throw e, w)
  | Return _ =>
      if spawnRefuses (tokenAddress (this w)) then (Throw TypeError, w)
      else
        let pid := spawned w in
        let w := emit (Spawned pid (tokenAddress (this w)))
                   (with_children (children w ++ [pid]) (S pid) w) in
        let w := on_this (with_mcpProcess (Some pid)) w in
        (Return tt, emit QueueProcessorStarted (with_intervals (S (intervals w)) w))
  end.

(** [const { username = 'AI Avatar', tokenAddress } = req.body] *)
Definition startArguments (body : value) : completion (value * value) :=
  bind (get body "username") (fun u =>
  bind (get body "tokenAddress") (fun t =>
    Return (match u with VUndefined => VString "AI Avatar" | _ => u end, t))).

(** The handler of [POST /start]; an exception leaving it is answered by
    the framework with status 500. *)
Definition postStart (body : value) (w : world) : world :=
  match startArguments body with
  | Throw _ => emit (Responded 500) w
  | Return (u, t) =>
      if negb (ToBoolean t) then emit (Responded 400) w
      else
        let w := on_this (with_target u t) w in
        match bind (ToString u) (fun _ => ToString t) with
        | Throw _ => emit (Responded 500) w
        | Return _ =>
            match startPumpFunChat w with
            | (Return _, w) => emit (Responded 200) w
            | (Throw _, w) => emit (Responded 500) w
            end
        end
  end.

(** The body of the answer to [GET /status]. *)
Record status : Type := mkStatus {
  queueLength : nat;
  statusIsProcessing : bool;
  statusCurrentlySpeaking : bool;
  processedCount : nat
}.

Definition getStatus (w : world) : status :=
  mkStatus (List.length (commentQueue (this w))) (isProcessing (this w))
           (currentlySpeaking (this w)) (size (processedComments (this w))).

(** The [close] handler of a child: a restart timer is armed. *)
Definition childClosed (pid : nat) (w : world) : world :=
  with_restarts (S (restarts w)) (with_children (remove pid (children w)) (spawned w) w).

(** The callback of the restart timer; an exception that leaves it is
    logged by the handler of [uncaughtException]. *)
Definition restartTimer (w : world) : world :=
  if ToBoolean (tokenAddress (this w)) then snd (startPumpFunChat w) else w.

(** ** Callbacks of the event loop *)

Inductive event : Type :=
| Tick (u : draw) (tts : say)             (* an interval of the queue processor *)
| BackendSettled (o : backend) (tts : say) (* the awaited backend call settles *)
| SayCallback (k : nat) (err : bool)      (* [say.speak] calls back for call [k] *)
| TtsTimeout (k : nat)                    (* the timeout of call [k] elapses *)
| Output (chunk : string) (clock : nat -> N) (* data on stdout or stderr *)
| StartRequest (body : value)
| StatusRequest
| ChildClosed (pid : nat)
| RestartTimer.

Section Loop.

Variable md5_hex : string -> string.
Variable json_decode : string -> option value.

(** The callback of one event; an event that cannot occur in [w] (a
    timer that is not armed, a callback that is not pending) leaves it
    as it is. *)
Definition handle (w : world) (e : event) : world :=
  match e with
  | Tick u tts => if 0 <? intervals w then tick u tts w else w
  | BackendSettled o tts =>
      match takeGenerating (tasks w) with
      | Some (c, selected, prompt, rest) =>
          afterGenerate c (generateResume selected prompt o) tts (with_tasks rest w)
      | None => w
      end
  | SayCallback k err =>
      if mem k (speech w)
      then sayCallback k err (with_speech (remove k (speech w)) w)
      else w
  | TtsTimeout k =>
      if armed k (timers w)
      then ttsTimeout k (with_timers (clearTimeout k (timers w)) w)
      else w
  | Output chunk clock =>
      on_this (fun a => snd (parseAndQueueComments md5_hex json_decode chunk clock a)) w
  | StartRequest body => postStart body w
  | StatusRequest => w
  | ChildClosed pid => if pid <? spawned w then childClosed pid w else w
  | RestartTimer =>
      match restarts w with
      | 0 => w
      | S n => restartTimer (with_restarts n w)
      end
  end.

(** One turn of the loop: the callback, then the microtasks. *)
Definition step (w : world) (e : event) : world := drain (handle w e).

Definition run (w : world) (es : list event) : world := fold_left step es w.

(** The worlds the program can be in. *)
Definition reachable (w : world) : Prop :=
  exists loaded es, w = run (booted loaded) es.

End Loop.

End Server.

(* ================================================================== *)
(** * The earlier script, [app.js] *)
(* ================================================================== *)

Module App.

Import Js.

(** An entry of [commentQueue]: here every field comes out of a regular
    expression, so all are text. *)
Record comment : Type := mkComment {
  id : string;
  user : string;
  message : string;
  timestamp : N
}.

Record app : Type := mkApp {
  commentQueue : list comment;
  processedComments : set;
  isProcessing : bool;
  username : value;
  tokenAddress : value;
  mcpProcess : option nat;
  textGenerator : bool;
  currentlySpeaking : bool
}.

Definition constructed : app := mkApp [] [] false VNull VNull None false false.

Definition with_commentQueue (q : list comment) (a : app) : app :=
  mkApp q (processedComments a) (isProcessing a) (username a) (tokenAddress a)
        (mcpProcess a) (textGenerator a) (currentlySpeaking a).

Definition with_target (u t : value) (a : app) : app :=
  mkApp (commentQueue a) (processedComments a) (isProcessing a) u t
        (mcpProcess a) (textGenerator a) (currentlySpeaking a).

Definition with_mcpProcess (p : option nat) (a : app) : app :=
  mkApp (commentQueue a) (processedComments a) (isProcessing a) (username a)
        (tokenAddress a) p (textGenerator a) (currentlySpeaking a).

Definition M (A : Type) : Type := Js.M app A.

(** [`${user}_${message}_${Date.now()}`] *)
Definition commentId (user message : string) (now : N) : string :=
  user ^^ "_" ^^ message ^^ "_" ^^ Text.decimal now.

(** The callback of [lines.forEach]; [now] is what [Date.now()] reads
    while the line is handled. *)
Definition parseLine (line : string) (now : N) : M unit :=
  if Text.includes line "message:" || Text.includes line "chat:" then
    match Server.match2 Regex.messageRe line with
    | Some (u, m) =>
        let cid := commentId u m now in
        fun st =>
          if negb (has (processedComments st) (VString cid)) then
            (Return tt,
             with_commentQueue
               (commentQueue st ++ [mkComment cid u (Text.trim m) now]) st)
          else (Return tt, st)
    | None => ret tt
    end
  else ret tt.

Fixpoint forEachLine (lines : list string) (clock : nat -> N) (k : nat)
  : M unit :=
  match lines with
  | [] => ret tt
  | line :: rest =>
      _ <- parseLine line (clock k) ;; forEachLine rest clock (S k)
  end.

(** [parseAndQueueComments(mcpOutput)] *)
Definition parseAndQueueComments (mcpOutput : string) (clock : nat -> N) : M unit :=
  tryCatch (forEachLine (Text.split Text.LF mcpOutput) clock 0)
           (fun _ => ret tt).

(** ** Response generation *)

Definition fallbackResponses (name : string) : list string :=
  [ "Thanks for sharing, " ^^ name ^^ "!";
    "Interesting point, " ^^ name ^^ "!";
    "I hear you, " ^^ name ^^ "!";
    "Cool message, " ^^ name ^^ "!";
    "Nice one, " ^^ name ^^ "!" ].

Definition prompt (c : comment) : string :=
  "User " ^^ user c ^^ " says: " ^^ dquote ^^ message c ^^ dquote
  ^^ ". Reply briefly and friendly:".

(** The clean-up of the generated text. *)
Definition tidy (c : comment) (generated : string) : value :=
  let response := Text.trim (Text.removeFirst (prompt c) generated) in
  let response := hd EmptyString (Text.split "." response) ^^ "." in
  let response :=
    if 100 <? String.length response then Text.take 97 response ^^ "..."
    else response in
  if ToBoolean (VString response) then VString response
  else VString ("Thanks for the message, " ^^ user c ^^ "!").

(** [generateResponse(comment)], the backend's answer given. *)
Definition generateResponse (c : comment) (u : draw) (hasGenerator : bool)
           (o : backend) : completion value :=
  if hasGenerator then
    match o with
    | Generated text => Return (tidy c text)
    | Rejects | Malformed =>
        Return (VString ("Thanks for the comment, " ^^ user c ^^ "!"))
    end
  else
    let pool := fallbackResponses (user c) in
    Return (element pool (randomIndex u (List.length pool))).

(** ** The child process and the start handler *)

Record world : Type := mkWorld {
  this : app;
  children : list nat;         (* children spawned, not killed, not closed *)
  spawned : nat;
  intervals : nat;
  trace : list Server.action
}.

Definition on_this (f : app -> app) (w : world) : world :=
  mkWorld (f (this w)) (children w) (spawned w) (intervals w) (trace w).

Definition emit (a : Server.action) (w : world) : world :=
  mkWorld (this w) (children w) (spawned w) (intervals w) (trace w ++ [a]).

(** [startPumpFunChat()], then [startQueueProcessor()].  The log line
    after the kill renders [this.tokenAddress]; here the token address is
    an argument of [spawn], which refuses it when it holds a NUL
    character. *)
Definition startPumpFunChat (w : world) : completion unit * world :=
  let w :=
    match mcpProcess (this w) with
    | Some p =>
        emit (Server.Killed p)
             (mkWorld (this w) (Server.remove p (children w)) (spawned w)
                      (intervals w) (trace w))
    | None => w
    end in
  match ToString (tokenAddress (this w)) with
  | Throw e => (Throw e, w)
  | Return _ =>
      if spawnRefuses (tokenAddress (this w)) then (Throw TypeError, w)
      else
        let pid := spawned w in
        let w := emit (Server.Spawned pid (tokenAddress (this w)))
                   (mkWorld (this w) (children w ++ [pid]) (S pid) (intervals w)
                            (trace w)) in
        let w := on_this (with_mcpProcess (Some pid)) w in
        (Return tt,
         emit Server.QueueProcessorStarted
              (mkWorld (this w) (children w) (spawned w) (S (intervals w)) (trace w)))
  end.

(** [const { username, tokenAddress } = req.body] *)
Definition startArguments (body : value) : completion (value * value) :=
  bind (get body "username") (fun u =>
  bind (get body "tokenAddress") (fun t => Return (u, t))).

(** The handler of [POST /start]. *)
Definition postStart (body : value) (w : world) : world :=
  match startArguments body with
  | Throw _ => emit (Server.Responded 500) w
  | Return (u, t) =>
      if negb (ToBoolean u) || negb (ToBoolean t) then emit (Server.Responded 400) w
      else
        let w := on_this (with_target u t) w in
        match bind (ToString u) (fun _ => ToString t) with
        | Throw _ => emit (Server.Responded 500) w
        | Return _ =>
            match startPumpFunChat w with
            | (Return _, w) => emit (Server.Responded 200) w
            | (Throw _, w) => emit (Server.Responded 500) w
            end
        end
  end.

End App.

(* ================================================================== *)
(** * The event loop of [app.js] *)
(* ================================================================== *)

Module AppLoop.

Import Js.

Definition with_processedComments (p : set) (a : App.app) : App.app :=
  App.mkApp (App.commentQueue a) p (App.isProcessing a) (App.username a)
            (App.tokenAddress a) (App.mcpProcess a) (App.textGenerator a)
            (App.currentlySpeaking a).

Definition with_isProcessing (b : bool) (a : App.app) : App.app :=
  App.mkApp (App.commentQueue a) (App.processedComments a) b (App.username a)
            (App.tokenAddress a) (App.mcpProcess a) (App.textGenerator a)
            (App.currentlySpeaking a).

Definition with_currentlySpeaking (b : bool) (a : App.app) : App.app :=
  App.mkApp (App.commentQueue a) (App.processedComments a) (App.isProcessing a)
            (App.username a) (App.tokenAddress a) (App.mcpProcess a)
            (App.textGenerator a) b.

(** A queue entry as the trace records it. *)
Definition entry (c : App.comment) : Server.comment :=
  Server.mkComment (VString (App.id c)) (VString (App.user c))
                   (VString (App.message c)) (App.timestamp c).

(** [generateResponse] without a model: one of the fallback responses. *)
Definition fallback (c : App.comment) (u : draw) : completion value :=
  let pool := App.fallbackResponses (App.user c) in
  Return (element pool (randomIndex u (List.length pool))).

(** [generateResponse] from the settlement of the model call on. *)
Definition settle (c : App.comment) (o : backend) : completion value :=
  match o with
  | Generated text => Return (App.tidy c text)
  | Rejects | Malformed =>
      Return (VString ("Thanks for the comment, " ^^ App.user c ^^ "!"))
  end.

Inductive suspended : Type :=
| AwaitGenerate (c : App.comment)
| AwaitSpeak (c : App.comment) (call : nat).

(** The state between two callbacks: the object with the child processes,
    the intervals and the trace, the suspended invocations of
    [processNextComment], the calls of [say.speak] whose callback is to
    come, the promises of [speakResponse] already resolved, and the
    restart timers armed. *)
Record world : Type := mkWorld {
  node : App.world;
  tasks : list suspended;
  speech : list nat;
  settled : list nat;
  calls : nat;
  restarts : nat
}.

(** The world once [initialize] is done. *)
Definition booted (loaded : bool) : world :=
  mkWorld (App.mkWorld (App.mkApp [] [] false VNull VNull None loaded false) [] 0 0 [])
          [] [] [] 0 0.

Definition this (w : world) : App.app := App.this (node w).

Definition on_node (f : App.world -> App.world) (w : world) : world :=
  mkWorld (f (node w)) (tasks w) (speech w) (settled w) (calls w) (restarts w).

Definition on_this (f : App.app -> App.app) (w : world) : world :=
  on_node (App.on_this f) w.

Definition emit (a : Server.action) (w : world) : world := on_node (App.emit a) w.

Definition with_tasks (t : list suspended) (w : world) : world :=
  mkWorld (node w) t (speech w) (settled w) (calls w) (restarts w).

Definition with_speech (l : list nat) (w : world) : world :=
  mkWorld (node w) (tasks w) l (settled w) (calls w) (restarts w).

Definition with_settled (l : list nat) (w : world) : world :=
  mkWorld (node w) (tasks w) (speech w) l (calls w) (restarts w).

Definition with_calls (n : nat) (w : world) : world :=
  mkWorld (node w) (tasks w) (speech w) (settled w) n (restarts w).

Definition with_restarts (n : nat) (w : world) : world :=
  mkWorld (node w) (tasks w) (speech w) (settled w) (calls w) n.

Definition suspend (t : suspended) (w : world) : world :=
  with_tasks (tasks w ++ [t]) w.

(** The [resolve] of call [k]. *)
Definition resolve (k : nat) (w : world) : world :=
  if Server.mem k (settled w) then w
  else emit (Server.Resolved k) (with_settled (k :: settled w) w).

(** The promise [speakResponse] returns, when the executor has run. *)
Inductive promise : Type :=
| Pending       (* [say.speak] has returned: its callback will resolve *)
| Rejected.     (* the executor threw: the promise is rejected *)

(** The executor of the promise: there is neither a [try] nor a timeout
    around [say.speak]. *)
Definition speakResponse (response : value) (tts : Server.say) (w : world)
  : promise * world :=
  let k := calls w in
  let w := with_calls (S k) w in
  let w := emit (Server.SpeakCalled k response) w in
  let w := on_this (with_currentlySpeaking true) w in
  match ToString response with
  | Throw _ => (Rejected, w)
  | Return _ =>
      let w := emit (Server.SayInvoked k response) w in
      match tts with
      | Server.SayThrows => (Rejected, w)
      | Server.SayStarts =>
          (Pending,
           emit (Server.AvatarAnimation response) (with_speech (speech w ++ [k]) w))
      end
  end.

(** The callback given to [say.speak], for call [k]. *)
Definition sayCallback (k : nat) (err : bool) (w : world) : world :=
  resolve k (on_this (with_currentlySpeaking false) w).

(** The [finally] of [processNextComment]. *)
Definition finish (w : world) : world := on_this (with_isProcessing false) w.

(** [processNextComment] from the settlement of [generateResponse] on. *)
Definition afterGenerate (c : App.comment) (r : completion value)
           (tts : Server.say) (w : world) : world :=
  let w := emit (Server.GenerateSettled (entry c) r) w in
  match r with
  | Return response =>
      let k := calls w in
      match speakResponse response tts w with
      | (Pending, w) => suspend (AwaitSpeak c k) w
      | (Rejected, w) => finish (emit Server.ErrorLogged w)
      end
  | Throw _ => finish (emit Server.ErrorLogged w)
  end.

(** [processNextComment] up to its first [await] that has to wait. *)
Definition processNextComment (u : draw) (tts : Server.say) (w : world) : world :=
  if App.isProcessing (this w) then w
  else
    match App.commentQueue (this w) with
    | [] => w
    | c :: rest =>
        let w := on_this (with_isProcessing true) w in
        let w := emit (Server.Dequeued (entry c))
                      (on_this (App.with_commentQueue rest) w) in
        let w := emit (Server.MarkedProcessed (VString (App.id c)))
                   (on_this (fun a => with_processedComments
                                        (add (App.processedComments a)
                                             (VString (App.id c))) a) w) in
        let w := emit (Server.GenerateCalled (entry c)) w in
        if App.textGenerator (this w) then suspend (AwaitGenerate c) w
        else afterGenerate c (fallback c u) tts w
    end.

(** The callback of [setInterval] in [startQueueProcessor]. *)
Definition tick (u : draw) (tts : Server.say) (w : world) : world :=
  if negb (App.isProcessing (this w))
     && (0 <? List.length (App.commentQueue (this w)))
  then processNextComment u tts w
  else w.

Fixpoint takeGenerating (l : list suspended)
  : option (App.comment * list suspended) :=
  match l with
  | [] => None
  | AwaitGenerate c :: rest => Some (c, rest)
  | t :: rest =>
      match takeGenerating rest with
      | Some (c, rest') => Some (c, t :: rest')
      | None => None
      end
  end.

Definition awaitsSettled (done : list nat) (t : suspended) : bool :=
  match t with
  | AwaitSpeak _ k => Server.mem k done
  | AwaitGenerate _ => false
  end.

(** The microtasks run when a callback returns. *)
Definition drain (w : world) : world :=
  let ready := filter (awaitsSettled (settled w)) (tasks w) in
  let waiting := filter (fun t => negb (awaitsSettled (settled w) t)) (tasks w) in
  match ready with
  | [] => w
  | _ :: _ => finish (with_tasks waiting w)
  end.

(** The [close] handler of a child. *)
Definition childClosed (pid : nat) (w : world) : world :=
  with_restarts (S (restarts w))
    (on_node (fun n => App.mkWorld (App.this n) (Server.remove pid (App.children n))
                                   (App.spawned n) (App.intervals n) (App.trace n)) w).

(** The callback of the restart timer. *)
Definition restartTimer (w : world) : world :=
  if ToBoolean (App.tokenAddress (this w))
  then on_node (fun n => snd (App.startPumpFunChat n)) w
  else w.

Inductive event : Type :=
| Tick (u : draw) (tts : Server.say)
| BackendSettled (o : backend) (tts : Server.say)
| SayCallback (k : nat) (err : bool)
| Output (chunk : string) (clock : nat -> N)   (* data on stdout *)
| Diagnostics (chunk : string)                 (* data on stderr: logged only *)
| StartRequest (body : value)
| StatusRequest
| ChildClosed (pid : nat)
| RestartTimer.

Definition handle (w : world) (e : event) : world :=
  match e with
  | Tick u tts => if 0 <? App.intervals (node w) then tick u tts w else w
  | BackendSettled o tts =>
      match takeGenerating (tasks w) with
      | Some (c, rest) => afterGenerate c (settle c o) tts (with_tasks rest w)
      | None => w
      end
  | SayCallback k err =>
      if Server.mem k (speech w)
      then sayCallback k err (with_speech (Server.remove k (speech w)) w)
      else w
  | Output chunk clock =>
      on_this (fun a => snd (App.parseAndQueueComments chunk clock a)) w
  | Diagnostics _ => w
  | StartRequest body => on_node (App.postStart body) w
  | StatusRequest => w
  | ChildClosed pid => if pid <? App.spawned (node w) then childClosed pid w else w
  | RestartTimer =>
      match restarts w with
      | 0 => w
      | S n => restartTimer (with_restarts n w)
      end
  end.

(** One turn of the loop: the callback, then the microtasks. *)
Definition step (w : world) (e : event) : world := drain (handle w e).

Definition run (w : world) (es : list event) : world := fold_left step es w.

Definition reachable (w : world) : Prop := exists loaded es, w = run (booted loaded) es.

End AppLoop.

(* ================================================================== *)
(** * Vocabulary of the properties *)
(* ================================================================== *)

Import Js.

(** The strings the current script can answer with on its own. *)
Definition canned (name : string) : list string :=
  Server.funnyResponses name ++ Server.cryptoResponses name
  ++ [name ^^ ", something went wrong but I'm still vibing! 🤖✨"].

(** Those of [app.js]. *)
Definition cannedApp (name : string) : list string :=
  App.fallbackResponses name ++ ["Thanks for the comment, " ^^ name ^^ "!"].

(** A comment whose sender and text can be rendered in a template
    literal. *)
Definition printable (c : Server.comment) : Prop :=
  exists name text,
    ToString (Server.user c) = Return name /\
    ToString (Server.message c) = Return text.

(** A comment added at the tail of the queue. *)
Definition pushed (c : Server.comment) (st : Server.app) : Server.app :=
  Server.with_commentQueue (Server.commentQueue st ++ [c]) st.

(** What one call of [queueComment] can do. *)
Inductive queued (st : Server.app) : completion unit * Server.app -> Prop :=
| QThrows e : queued st (Throw e, st)
| QSkips : queued st (Return tt, st)
| QPushes c : printable c -> queued st (Return tt, pushed c st).

(** A line none of the three decoders of the current script reads. *)
Definition unreadable (json_decode : string -> option value) (line : string) : Prop :=
  (exists e, JSON_parse json_decode line = Throw e) /\
  Server.match2 Regex.newMessageRe line = None /\
  Server.match2 Regex.messageRe line = None.

(** A line [app.js] does not read. *)
Definition unreadableApp (line : string) : Prop :=
  Text.includes line "message:" || Text.includes line "chat:" = false \/
  Server.match2 Regex.messageRe line = None.

(** What the trace says is going on: no call of [generateResponse] or
    [speakResponse] in progress, a [generateResponse] not yet settled, or
    the promise of [speakResponse] call [k] not yet resolved. *)
Inductive phase : Type := Free | InGenerate | InSpeak (k : nat).

(** Reading one more action; [None] once a call begins while another is
    in progress, or ends without having begun. *)
Definition advance (p : option phase) (a : Server.action) : option phase :=
  match p with
  | None => None
  | Some ph =>
      match a, ph with
      | Server.GenerateCalled _, Free => Some InGenerate
      | Server.GenerateCalled _, _ => None
      | Server.GenerateSettled _ _, InGenerate => Some Free
      | Server.GenerateSettled _ _, _ => None
      | Server.SpeakCalled k _, Free => Some (InSpeak k)
      | Server.SpeakCalled _ _, _ => None
      | Server.Resolved k, InSpeak j => if Nat.eqb k j then Some Free else None
      | Server.Resolved _, _ => None
      | _, _ => Some ph
      end
  end.

Definition progress (tr : list Server.action) : option phase :=
  fold_left advance tr (Some Free).

(** The calls of a trace never overlap. *)
Definition sequential (tr : list Server.action) : Prop := progress tr <> None.

Definition settledTimer (done : list nat) (t : nat * N) : Prop :=
  Server.mem (fst t) done = true.

Definition settledCall (done : list nat) (k : nat) : Prop :=
  Server.mem k done = true.

(** What holds of the world between any two callbacks. *)
Record invariant (w : Server.world) : Prop := mkInvariant {
  inv_tasks :
    match Server.tasks w with
    | [] =>
        Server.isProcessing (Server.this w) = false /\
        Server.currentlySpeaking (Server.this w) = false /\
        progress (Server.trace w) = Some Free /\
        (Server.ttsDisabled (Server.this w) = false ->
         Server.timers w = [] /\ Server.speech w = []) /\
        Forall (settledTimer (Server.settled w)) (Server.timers w) /\
        Forall (settledCall (Server.settled w)) (Server.speech w)
    | [Server.AwaitGenerate c sel _] =>
        Server.isProcessing (Server.this w) = true /\
        Server.currentlySpeaking (Server.this w) = false /\
        progress (Server.trace w) = Some InGenerate /\
        (exists s, sel = VString s /\ s <> EmptyString) /\
        In (Server.id c) (Server.processedComments (Server.this w)) /\
        (Server.ttsDisabled (Server.this w) = false ->
         Server.timers w = [] /\ Server.speech w = []) /\
        Forall (settledTimer (Server.settled w)) (Server.timers w) /\
        Forall (settledCall (Server.settled w)) (Server.speech w)
    | [Server.AwaitSpeak c k] =>
        Server.isProcessing (Server.this w) = true /\
        Server.currentlySpeaking (Server.this w) = true /\
        Server.ttsDisabled (Server.this w) = false /\
        progress (Server.trace w) = Some (InSpeak k) /\
        Server.mem k (Server.settled w) = false /\
        k < Server.calls w /\
        In (Server.id c) (Server.processedComments (Server.this w)) /\
        Server.timers w = [(k, 5000%N)] /\
        Server.speech w = [k]
    | _ => False
    end;
  inv_fresh :
    forall k, Server.mem k (Server.settled w) = true -> k < Server.calls w;
  inv_queue : Forall printable (Server.commentQueue (Server.this w))
}.

(** The state in the middle of [processNextComment], between the
    settlement of [generateResponse] for [c] and the call of
    [speakResponse]. *)
Record midway (c : Server.comment) (w : Server.world) : Prop := mkMidway {
  mid_tasks : Server.tasks w = [];
  mid_busy : Server.isProcessing (Server.this w) = true;
  mid_quiet : Server.currentlySpeaking (Server.this w) = false;
  mid_progress : progress (Server.trace w) = Some InGenerate;
  mid_processed : In (Server.id c) (Server.processedComments (Server.this w));
  mid_enabled :
    Server.ttsDisabled (Server.this w) = false ->
    Server.timers w = [] /\ Server.speech w = [];
  mid_timers : Forall (settledTimer (Server.settled w)) (Server.timers w);
  mid_speech : Forall (settledCall (Server.settled w)) (Server.speech w);
  mid_fresh :
    forall k, Server.mem k (Server.settled w) = true -> k < Server.calls w;
  mid_queue : Forall printable (Server.commentQueue (Server.this w))
}.

(** The parts of the world the invariant reads, the queue apart. *)
Definition core (w : Server.world) :=
  (Server.tasks w, Server.timers w, Server.speech w, Server.settled w, Server.calls w,
   (Server.isProcessing (Server.this w), Server.currentlySpeaking (Server.this w),
    Server.ttsDisabled (Server.this w), Server.processedComments (Server.this w)),
   progress (Server.trace w)).

(** The world [processNextComment] has made when it calls
    [generateResponse] for the head [c] of the queue. *)
Definition begun (c : Server.comment) (rest : list Server.comment)
           (w : Server.world) : Server.world :=
  Server.emit (Server.GenerateCalled c)
    (Server.emit (Server.MarkedProcessed (Server.id c))
       (Server.on_this
          (fun a => Server.with_processedComments
                      (add (Server.processedComments a) (Server.id c)) a)
          (Server.emit (Server.Dequeued c)
             (Server.on_this (Server.with_commentQueue rest)
                (Server.on_this (Server.with_isProcessing true) w))))).

(** The common shape of the two ways a call of [speakResponse] ends
    after [say.speak] has returned. *)
Definition conclude (k : nat) (disable : bool) (timers' : list (nat * N))
           (speech' : list nat) (w : Server.world) : Server.world :=
  Server.resolve k
    (Server.on_this (Server.with_currentlySpeaking false)
       (Server.on_this (fun a => Server.with_ttsDisabled
                                   (disable || Server.ttsDisabled a) a)
          (Server.with_speech speech' (Server.with_timers timers' w)))).

(** An action that is no attempt at audio. *)
Definition unvoiced (a : Server.action) : Prop :=
  match a with
  | Server.SayInvoked _ _ | Server.TimerSet _ _ => False
  | _ => True
  end.

(** [w'] comes from [w] by announcer and bookkeeping work only: the queue
    and the processed set are as they were, speech is disabled in [w']
    if it was in [w], is newly disabled only for [cause], and the trace
    has grown, without any attempt at audio if speech was disabled. *)
Record evolves (cause : Prop) (w w' : Server.world) : Prop := mkEvolves {
  ev_queue :
    Server.commentQueue (Server.this w') = Server.commentQueue (Server.this w);
  ev_processed :
    Server.processedComments (Server.this w') = Server.processedComments (Server.this w);
  ev_disabled :
    Server.ttsDisabled (Server.this w) = true ->
    Server.ttsDisabled (Server.this w') = true;
  ev_cause :
    Server.ttsDisabled (Server.this w') = true ->
    Server.ttsDisabled (Server.this w) = true \/ cause;
  ev_trace :
    exists more, Server.trace w' = Server.trace w ++ more /\
                 (Server.ttsDisabled (Server.this w) = true -> Forall unvoiced more)
}.

(** The events that tell of a synthesis failure or a timeout. *)
Definition failure (e : Server.event) : Prop :=
  match e with
  | Server.TtsTimeout _ => True
  | Server.SayCallback _ err => err = true
  | Server.Tick _ tts | Server.BackendSettled _ tts => tts = Server.SayThrows
  | _ => False
  end.

Definition isOutput (e : Server.event) : Prop :=
  match e with
  | Server.Output _ _ => True
  | _ => False
  end.

(** What one turn of the loop does to the announcer state, the trace and
    the queue. *)
Record turn (e : Server.event) (w w' : Server.world) : Prop := mkTurn {
  turn_disabled :
    Server.ttsDisabled (Server.this w) = true ->
    Server.ttsDisabled (Server.this w') = true;
  turn_cause :
    Server.ttsDisabled (Server.this w') = true ->
    Server.ttsDisabled (Server.this w) = true \/ failure e;
  turn_trace :
    exists more, Server.trace w' = Server.trace w ++ more /\
                 (Server.ttsDisabled (Server.this w) = true -> Forall unvoiced more);
  turn_queue :
    ~ isOutput e ->
    Server.commentQueue (Server.this w') = Server.commentQueue (Server.this w) \/
    exists c, Server.commentQueue (Server.this w)
              = c :: Server.commentQueue (Server.this w')
}.

(** The body of a start request, with or without a display name and a
    token address. *)
Definition request (name token : option string) : value :=
  VObject
    (match name with Some n => [("username", VString n)] | None => [] end
     ++ match token with Some t => [("tokenAddress", VString t)] | None => [] end).

(** The trace of [startPumpFunChat] when [prior] is the handle in
    [mcpProcess]. *)
Definition restartTrace (prior : option nat) (pid : nat) (token : value)
  : list Server.action :=
  match prior with Some p => [Server.Killed p] | None => [] end
  ++ [Server.Spawned pid token; Server.QueueProcessorStarted].

Definition childrenAfter (prior : option nat) (pid : nat) (held : list nat)
  : list nat :=
  match prior with Some p => Server.remove p held | None => held end ++ [pid].







Definition sampleHash (s : string) : string := s.
Definition sampleDecode (_ : string) : option value := None.
Definition sampleDraw : draw := mkDraw 0 eq_refl.

Definition sampleEvents : list Server.event :=
  [Server.StartRequest (request None (Some "T"));
   Server.Output "New message from alice: gm wagmi" (fun _ => 7%N)].

(** A start request, then one chat line on the output of the child. *)
Definition sampleQueued : Server.world :=
  Server.run sampleHash sampleDecode (Server.booted false) sampleEvents.

(** The tick that takes the comment and starts speaking. *)
Definition sampleSpeaking : Server.world :=
  Server.step sampleHash sampleDecode sampleQueued
              (Server.Tick sampleDraw Server.SayStarts).

(** The same, speech timed out. *)
Definition sampleDisabled : Server.world :=
  Server.step sampleHash sampleDecode sampleSpeaking (Server.TtsTimeout 0).

Definition sampleComment : Server.comment :=
  Server.mkComment (VString "alice_alice:gm") (VString "alice") (VString "gm wagmi") 7.

(** ** Vocabulary of the further properties *)

(** Every character of [s] is in the class [p]. *)
Fixpoint allChars (p : ascii -> bool) (s : string) : bool :=
  match s with
  | EmptyString => true
  | String c r => p c && allChars p r
  end.

(** A greedy repetition of [p] cannot go on into [s]. *)
Definition blocked (p : ascii -> bool) (s : string) : bool :=
  match s with
  | EmptyString => true
  | String c _ => negb (p c)
  end.

(** The three parts of an ASCII line shaped like a chat message: a name,
    the blanks after the colon, and a text that fills the rest of the
    line. *)
Definition shaped (name : ascii -> bool) (u ws m : string) : Prop :=
  u <> EmptyString /\ allChars name u = true /\
  allChars Text.is_space ws = true /\
  m <> EmptyString /\ allChars Regex.any_char m = true /\
  blocked Text.is_space m = true /\
  allChars Text.is_ascii u = true /\ allChars Text.is_ascii m = true.

(** [enhancementPrompt] for the selected response [sel]. *)
Definition enhancementPrompt (sel : string) : string :=
  "Make this funnier and more engaging: " ^^ dquote ^^ sel ^^ dquote.

(** The first response of the crypto pool for [alice]. *)
Definition sampleSelected : string := hd EmptyString (Server.cryptoResponses "alice").

Definition sampleAppComment : App.comment := App.mkComment "chat_gm_7" "chat" "gm" 7.



(** The last character of a text. *)
Fixpoint lastChar (s : string) : option ascii :=
  match s with
  | EmptyString => None
  | String c EmptyString => Some c
  | String _ r => lastChar r
  end.

(** The part of the world that holds the child processes and the timers
    around them. *)
Definition household (w : Server.world) :=
  (Server.mcpProcess (Server.this w), Server.children w, Server.spawned w,
   Server.intervals w, Server.restarts w,
   (Server.tokenAddress (Server.this w), Server.username (Server.this w),
    Server.textGenerator (Server.this w))).

(** What holds of the child processes between any two callbacks: every
    [startPumpFunChat] that spawned has added an interval, the handle in
    [mcpProcess] is the child spawned last, every other child was killed
    by the program or has closed, and a token address is stored once a
    child was spawned. *)
Definition tended (w : Server.world) : Prop :=
  Server.intervals w = Server.spawned w /\
  match Server.mcpProcess (Server.this w) with
  | None =>
      Server.spawned w = 0 /\ Server.children w = [] /\ Server.restarts w = 0
  | Some p =>
      Server.spawned w = S p /\
      (Server.children w = [] \/ Server.children w = [p]) /\
      ToBoolean (Server.tokenAddress (Server.this w)) = true
  end.

(** Every child but the one spawned last was sent [kill()] by the
    program. *)
Definition replaced (w : Server.world) : Prop :=
  forall p, S p < Server.spawned w -> In (Server.Killed p) (Server.trace w).

(** [startPumpFunChat] gets as far as a new child with this token
    address: the log line can render it and [spawn] accepts it. *)
Definition startable (token : value) : bool :=
  match ToString token with
  | Return _ => negb (spawnRefuses token)
  | Throw _ => false
  end.

(** The events of [n] rounds of the restart timer: the child [p] closes
    and the timer armed by its [close] handler fires; the child [q] that
    this restart kills closes in the next round, and so on. *)
Fixpoint cascade (n p q : nat) : list Server.event :=
  match n with
  | 0 => []
  | S n' => Server.ChildClosed p :: Server.RestartTimer :: cascade n' q (S q)
  end.

Fixpoint cascadeTrace (n q : nat) (token : value) : list Server.action :=
  match n with
  | 0 => []
  | S n' => restartTrace (Some q) (S q) token ++ cascadeTrace n' (S q) token
  end.

(** Two start requests: the second replaces the child of the first. *)
Definition sampleRestarted : Server.world :=
  Server.run sampleHash sampleDecode (Server.booted false)
             [Server.StartRequest (request None (Some "T"));
              Server.StartRequest (request None (Some "T"))].

(** The first child has closed after the second start request. *)
Definition sampleClosed : Server.world :=
  Server.step sampleHash sampleDecode sampleRestarted (Server.ChildClosed 0).

(** A token address that cannot be rendered in a template literal. *)
Definition sampleOpaque : value := VObject [("toString", VNumber "1")].

(** The responses handed to [speakResponse], and the texts handed to
    [triggerAvatarAnimation], in the order of the trace. *)
Fixpoint responsesSpoken (tr : list Server.action) : list value :=
  match tr with
  | [] => []
  | Server.SpeakCalled _ r :: rest => r :: responsesSpoken rest
  | _ :: rest => responsesSpoken rest
  end.

Fixpoint textsAnimated (tr : list Server.action) : list value :=
  match tr with
  | [] => []
  | Server.AvatarAnimation r :: rest => r :: textsAnimated rest
  | _ :: rest => textsAnimated rest
  end.

(** The suspended invocations and the count of the announcements. *)
Definition book (w : Server.world) :=
  (Server.tasks w, Server.calls w, responsesSpoken (Server.trace w),
   textsAnimated (Server.trace w)).

(** The count after [speakResponse] was called with [r]. *)
Definition said (t : list Server.suspended) (r : value) (w : Server.world) :=
  (t, S (Server.calls w), responsesSpoken (Server.trace w) ++ [r],
   textsAnimated (Server.trace w) ++ [r]).

(** Every response spoken so far was animated, once and in order. *)
Definition paced (w : Server.world) : Prop :=
  textsAnimated (Server.trace w) = responsesSpoken (Server.trace w) /\
  List.length (responsesSpoken (Server.trace w)) = Server.calls w.

(** An invocation that waits for [speakResponse], not for the model. *)
Definition awaitsSpeech (t : Server.suspended) : Prop :=
  match t with
  | Server.AwaitSpeak _ _ => True
  | Server.AwaitGenerate _ _ _ => False
  end.

(** What holds of the world of [app.js] between any two callbacks. *)
Record orderly (w : AppLoop.world) : Prop := mkOrderly {
  ord_tasks :
    match AppLoop.tasks w with
    | [] =>
        App.isProcessing (AppLoop.this w) = false /\ AppLoop.speech w = []
    | [AppLoop.AwaitGenerate _] =>
        App.isProcessing (AppLoop.this w) = true /\ AppLoop.speech w = []
    | [AppLoop.AwaitSpeak _ k] =>
        App.isProcessing (AppLoop.this w) = true /\
        App.currentlySpeaking (AppLoop.this w) = true /\
        AppLoop.speech w = [k] /\
        Server.mem k (AppLoop.settled w) = false /\
        k < AppLoop.calls w
    | _ => False
    end;
  ord_fresh :
    forall k, Server.mem k (AppLoop.settled w) = true -> k < AppLoop.calls w
}.

(** The parts of that world an announcement in progress depends on. *)
Definition pulse (w : AppLoop.world) :=
  (AppLoop.tasks w, AppLoop.speech w, AppLoop.settled w, AppLoop.calls w,
   App.isProcessing (AppLoop.this w), App.currentlySpeaking (AppLoop.this w)).

(** An event other than the callback of [say.speak] for call [k]. *)
Definition notCallback (k : nat) (e : AppLoop.event) : Prop :=
  match e with
  | AppLoop.SayCallback j _ => j <> k
  | _ => True
  end.

(** [app.js] after a start request and a chat line, no model loaded. *)
Definition sampleAppQueued : AppLoop.world :=
  AppLoop.run (AppLoop.booted false)
              [AppLoop.StartRequest (request (Some "bot") (Some "T"));
               AppLoop.Output "chat: gm" (fun _ => 7%N)].

(** The tick that takes the comment and starts speaking. *)
Definition sampleAppSpeaking : AppLoop.world :=
  AppLoop.step sampleAppQueued (AppLoop.Tick sampleDraw Server.SayStarts).

(** The world [processNextComment] of [app.js] has made when it calls
    [generateResponse] for the head [c] of the queue. *)
Definition begunApp (c : App.comment) (rest : list App.comment)
           (w : AppLoop.world) : AppLoop.world :=
  AppLoop.emit (Server.GenerateCalled (AppLoop.entry c))
    (AppLoop.emit (Server.MarkedProcessed (VString (App.id c)))
       (AppLoop.on_this
          (fun a => AppLoop.with_processedComments
                      (add (App.processedComments a) (VString (App.id c))) a)
          (AppLoop.emit (Server.Dequeued (AppLoop.entry c))
             (AppLoop.on_this (App.with_commentQueue rest)
                (AppLoop.on_this (AppLoop.with_isProcessing true) w))))).

(** The tick in which [say.speak] throws. *)
Definition sampleThrown : Server.world :=
  Server.step sampleHash sampleDecode sampleQueued
              (Server.Tick sampleDraw Server.SayThrows).

(** The comments taken off the queue, in the order of the trace. *)
Fixpoint commentsTaken (tr : list Server.action) : list Server.comment :=
  match tr with
  | [] => []
  | Server.Dequeued c :: rest => c :: commentsTaken rest
  | _ :: rest => commentsTaken rest
  end.

(** The comments taken so far and the comments waiting. *)
Definition line (w : Server.world) :=
  (commentsTaken (Server.trace w), Server.commentQueue (Server.this w)).

(** Every comment queued so far, in the order of arrival. *)
Definition arrivals (w : Server.world) : list Server.comment :=
  commentsTaken (Server.trace w) ++ Server.commentQueue (Server.this w).

(** The same chat line twice in one chunk, then a tick that answers the
    first copy without speech. *)
Definition sampleTwice : Server.world :=
  Server.run sampleHash sampleDecode (Server.booted false)
    [Server.StartRequest (request None (Some "T"));
     Server.Output ("New message from alice: gm wagmi"
                    ^^ String Text.LF "New message from alice: gm wagmi")
                   (fun _ => 7%N);
     Server.Tick sampleDraw Server.SayThrows].

(* ================================================================== *)
(** * Properties *)
(* ================================================================== *)

Example regex_new_message :
  Regex.exec Regex.newMessageRe "New message from alice: gm wagmi"
  = Some ["alice"; "gm wagmi"].
Proof. reflexivity. Qed.

Example regex_word_colon :
  Regex.exec Regex.messageRe "alice message:  gm " = Some ["message"; "gm "].
Proof. reflexivity. Qed.

Example regex_backtracks_into_blanks :
  Regex.exec Regex.messageRe "a: " = Some ["a"; " "].
Proof. reflexivity. Qed.

Example split_lines :
  Text.split Text.LF ("a" ^^ String Text.LF EmptyString ^^ "b" ^^ String Text.LF EmptyString)
  = ["a"; "b"; EmptyString].
Proof. reflexivity. Qed.

Example toString_array :
  Js.ToString (Js.VArray [Js.VNumber "1"; Js.VNull; Js.VArray [Js.VString "a"; Js.VBool true]])
  = Js.Return "1,,a,true".
Proof. reflexivity. Qed.

Example toString_object_with_own_toString :
  Js.ToString (Js.VObject [("toString", Js.VNumber "1")]) = Js.Throw Js.TypeError.
Proof. reflexivity. Qed.

(** ** Platform lemmas *)

Lemma has_In (s : set) (v : value) : has s v = true -> In v s.
Proof.
  unfold has. rewrite existsb_exists. intros [x [Hin Heq]].
  destruct v, x; simpl in Heq; try discriminate; try assumption.
  - apply Bool.eqb_prop in Heq. now subst.
  - apply String.eqb_eq in Heq. now subst.
  - apply String.eqb_eq in Heq. now subst.
Qed.

Lemma add_In (s : set) (v : value) : In v (add s v).
Proof.
  unfold add. destruct (has s v) eqn:H.
  - now apply has_In.
  - apply in_or_app. right. now left.
Qed.

Lemma add_keeps (s : set) (v x : value) : In x s -> In x (add s v).
Proof.
  unfold add. destruct (has s v); [easy|]. intro. apply in_or_app. now left.
Qed.

Lemma has_add_string (s : set) (x : string) : has (add s (VString x)) (VString x) = true.
Proof.
  unfold add. destruct (has s (VString x)) eqn:H; [exact H|].
  unfold has. rewrite existsb_app. simpl. rewrite String.eqb_refl.
  now rewrite orb_true_r.
Qed.

Lemma append_nonempty_r (a b : string) : b <> EmptyString -> a ^^ b <> EmptyString.
Proof. destruct a; simpl; [easy | discriminate]. Qed.

Lemma append_nonempty_l (a b : string) : a <> EmptyString -> a ^^ b <> EmptyString.
Proof. destruct a; simpl; [easy | discriminate]. Qed.

Lemma randomIndex_lt (u : draw) (len : nat) : 0 < len -> randomIndex u len < len.
Proof.
  intro Hlen. unfold randomIndex. destruct u as [m Hm]. simpl.
  apply N.ltb_lt in Hm.
  assert (H : (m * N.of_nat len / 9007199254740992 < N.of_nat len)%N).
  { apply N.Div0.div_lt_upper_bound. nia. }
  lia.
Qed.

Lemma element_in_range (pool : list string) (i : nat) :
  i < List.length pool -> exists s, element pool i = VString s /\ In s pool.
Proof.
  intro Hi. unfold element.
  destruct (nth_error pool i) as [s|] eqn:E.
  - exists s. split; [reflexivity | now apply nth_error_In with i].
  - apply nth_error_None in E. lia.
Qed.

(** ** Response generation *)

Lemma canned_nonempty (name s : string) : In s (canned name) -> s <> EmptyString.
Proof.
  unfold canned, Server.funnyResponses, Server.cryptoResponses. simpl.
  intros H.
  repeat (destruct H as [H|H];
          [subst s;
           first [ discriminate
                 | apply append_nonempty_r; discriminate
                 | apply append_nonempty_l; discriminate ] |]).
  destruct H.
Qed.

Lemma cannedApp_nonempty (name s : string) : In s (cannedApp name) -> s <> EmptyString.
Proof.
  unfold cannedApp, App.fallbackResponses. simpl. intros H.
  repeat (destruct H as [H|H];
          [subst s; first [discriminate | apply append_nonempty_r; discriminate] |]).
  destruct H.
Qed.

Lemma selected_is_canned (name lower : string) (u : draw) :
  let pool := if Server.someCryptoTerm lower
              then Server.cryptoResponses name else Server.funnyResponses name in
  exists s, element pool (randomIndex u (List.length pool)) = VString s
            /\ In s (canned name).
Proof.
  intros pool.
  destruct (element_in_range pool (randomIndex u (List.length pool))) as [s [E Hin]].
  { apply randomIndex_lt. unfold pool.
    destruct (Server.someCryptoTerm lower); simpl; lia. }
  exists s. split; [exact E|].
  unfold canned, pool in *. destruct (Server.someCryptoTerm lower).
  - apply in_or_app. right. apply in_or_app. now left.
  - apply in_or_app. now left.
Qed.

Lemma generateBegin_cases (c : Server.comment) (u : draw) (g : bool) (name : string) :
  ToString (Server.user c) = Return name ->
  exists s, In s (canned name) /\
    (Server.generateBegin c u g = Server.Finished (Return (VString s)) \/
     exists prompt, Server.generateBegin c u g = Server.AwaitingBackend (VString s) prompt).
Proof.
  intro Hname. unfold Server.generateBegin. rewrite Hname. cbn [bind].
  destruct (Server.message c) as [| |b|r|m|l|f] eqn:Em; cbn [Server.callToLowerCase bind];
    try (unfold Server.wentWrong; rewrite Hname; cbn [bind];
         eexists; split; [| left; reflexivity];
         unfold canned; apply in_or_app; right; apply in_or_app; right; now left).
  destruct (selected_is_canned name (Text.toLowerCase m) u) as [s [E Hin]].
  cbv zeta in E. rewrite E. exists s. split; [exact Hin|].
  destruct g; cbn [ToString]; [right; eexists; reflexivity | left; reflexivity].
Qed.

Lemma generateResume_cases (sel : string) (prompt : string) (o : backend) :
  sel <> EmptyString ->
  exists s, Server.generateResume (VString sel) prompt o = Return (VString s) /\ s <> EmptyString
            /\ (o = Rejects \/ o = Malformed -> s = sel).
Proof.
  intro Hsel. destruct o as [|text|]; cbn [Server.generateResume].
  - exists sel. repeat split; auto.
  - set (e := Text.trim (Text.removeFirst prompt text)).
    destruct (negb (String.eqb e EmptyString) && (10 <? String.length e)
              && (String.length e <? 150)) eqn:E.
    + exists e. split; [reflexivity|]. split.
      * intro H. rewrite H in E. discriminate.
      * intros [H|H]; discriminate.
    + exists sel. repeat split; auto.
  - exists sel. repeat split; auto.
Qed.

(** [generateResponse] of the current script, for a comment whose sender
    can be rendered: a non-empty text, canned when the backend fails. *)
Lemma server_generate_total (c : Server.comment) (u : draw) (g : bool)
      (o : backend) (name : string) :
  ToString (Server.user c) = Return name ->
  exists s, Server.generateResponse c u g o = Return (VString s) /\ s <> EmptyString /\
            (g = false \/ o = Rejects \/ o = Malformed -> In s (canned name)).
Proof.
  intro Hname. unfold Server.generateResponse.
  destruct (generateBegin_cases c u g name Hname) as [s [Hin [E|[p E]]]]; rewrite E.
  - exists s. split; [reflexivity|]. split; [now apply canned_nonempty with name | auto].
  - destruct (generateResume_cases s p o (canned_nonempty _ _ Hin)) as [s' [E' [Hne Hfail]]].
    exists s'. split; [exact E'|]. split; [exact Hne|].
    intros [Hg|Ho].
    + subst g. unfold Server.generateBegin in E. rewrite Hname in E. cbn [bind] in E.
      destruct (Server.callToLowerCase (Server.message c)); cbn [bind] in E; discriminate.
    + rewrite (Hfail Ho). exact Hin.
Qed.

(** The text of a comment read from a JSON record need not be a string:
    [toLowerCase] is then missing and the outer [catch] answers. *)
Example generate_worst_case (u : draw) (g : bool) (o : backend) :
  Server.generateResponse
    (Server.mkComment (VString "alice_1") (VString "alice") (VNumber "42") 0) u g o
  = Return (VString "alice, something went wrong but I'm still vibing! 🤖✨").
Proof. reflexivity. Qed.

(** A sender that cannot be rendered would make [generateResponse]
    reject; [queueComment] never queues one. *)
Example generate_rejects_unprintable (u : draw) (g : bool) (o : backend) :
  Server.generateResponse
    (Server.mkComment (VString "x") (VObject [("toString", VNumber "1")])
                      (VString "hi") 0) u g o
  = Throw TypeError.
Proof. reflexivity. Qed.

Lemma split_hd_dot (s : string) : hd EmptyString (Text.split "." s) ^^ "." <> EmptyString.
Proof. apply append_nonempty_r. discriminate. Qed.

(** [generateResponse] of [app.js]. *)
Lemma app_generate_total (c : App.comment) (u : draw) (g : bool) (o : backend) :
  exists s, App.generateResponse c u g o = Return (VString s) /\ s <> EmptyString /\
            (g = false \/ o = Rejects \/ o = Malformed -> In s (cannedApp (App.user c))).
Proof.
  unfold App.generateResponse. destruct g.
  - destruct o as [|text|].
    + eexists. split; [reflexivity|]. split; [discriminate|].
      intros _. unfold cannedApp. apply in_or_app. right. now left.
    + unfold App.tidy. cbv zeta.
      set (r := hd EmptyString (Text.split "." _) ^^ ".").
      assert (Hr : r <> EmptyString) by apply split_hd_dot.
      destruct (100 <? String.length r).
      * cbn [ToBoolean].
        assert (H : Text.take 97 r ^^ "..." <> EmptyString) by (apply append_nonempty_r; discriminate).
        apply String.eqb_neq in H. rewrite H. cbn [negb].
        eexists. split; [reflexivity|]. split.
        -- now apply String.eqb_neq.
        -- intros [?|[?|?]]; discriminate.
      * cbn [ToBoolean]. apply String.eqb_neq in Hr. rewrite Hr. cbn [negb].
        eexists. split; [reflexivity|]. split.
        -- now apply String.eqb_neq.
        -- intros [?|[?|?]]; discriminate.
    + eexists. split; [reflexivity|]. split; [discriminate|].
      intros _. unfold cannedApp. apply in_or_app. right. now left.
  - destruct (element_in_range (App.fallbackResponses (App.user c))
                (randomIndex u (List.length (App.fallbackResponses (App.user c)))))
      as [s [E Hin]].
    { apply randomIndex_lt. simpl. lia. }
    rewrite E. exists s. split; [reflexivity|].
    assert (Hc : In s (cannedApp (App.user c))) by (unfold cannedApp; apply in_or_app; now left).
    split; [now apply cannedApp_nonempty with (App.user c) | auto].
Qed.

(** ** Intake *)

Section IntakeFacts.

Variable md5_hex : string -> string.
Variable json_decode : string -> option value.

Notation commentId := (Server.commentId md5_hex).
Notation queueComment := (Server.queueComment md5_hex).
Notation parseLine := (Server.parseLine md5_hex json_decode).
Notation forEachLine := (Server.forEachLine md5_hex json_decode).

Lemma queueComment_eq (user message pid : value) (now : N) (st : Server.app) :
  queueComment user message pid now st =
  match commentId user message pid with
  | Throw e => (Throw e, st)
  | Return cid =>
      if has (Server.processedComments st) cid then (Return tt, st)
      else (Return tt, pushed (Server.mkComment cid user message now) st)
  end.
Proof.
  unfold Server.queueComment, bindM, lift.
  destruct (commentId user message pid); reflexivity.
Qed.

Lemma commentId_printable (user message pid cid : value) :
  commentId user message pid = Return cid ->
  exists name text, ToString user = Return name /\ ToString message = Return text.
Proof.
  unfold Server.commentId. destruct (ToString user) as [name|e]; cbn [bind].
  - destruct (ToString message) as [text|e]; cbn [bind].
    + intros _. now exists name, text.
    + discriminate.
  - discriminate.
Qed.

Lemma commentId_text (u m : string) :
  commentId (VString u) (VString m) VNull
  = Return (VString (u ^^ "_" ^^ Server.contentHash md5_hex u m)).
Proof. reflexivity. Qed.

Lemma queueComment_queued (user message pid : value) (now : N) (st : Server.app) :
  queued st (queueComment user message pid now st).
Proof.
  rewrite queueComment_eq.
  destruct (commentId user message pid) as [cid|e] eqn:E; [|constructor].
  destruct (has (Server.processedComments st) cid); [constructor|].
  apply QPushes. exact (commentId_printable _ _ _ _ E).
Qed.

Lemma queueComment_text_returns (u m : string) (now : N) (st : Server.app) :
  fst (queueComment (VString u) (VString m) VNull now st) = Return tt.
Proof.
  rewrite queueComment_eq, commentId_text.
  now destruct (has _ _).
Qed.

Lemma structured_queued (line : string) (now : N) (st : Server.app) :
  queued st (Server.structured md5_hex json_decode line now st).
Proof.
  unfold Server.structured, bindM, lift, ret.
  destruct (JSON_parse json_decode line) as [data|e]; [|constructor].
  destruct (get data "type") as [ty|e]; [|constructor].
  destruct (strictEqualsString ty "message"); [|constructor].
  destruct (get data "user") as [u|e]; [|constructor].
  destruct (ToBoolean u); [|constructor].
  destruct (get data "text") as [t|e]; [|constructor].
  destruct (ToBoolean t); [|constructor].
  destruct (get data "id") as [i|e]; [|constructor].
  apply queueComment_queued.
Qed.

Lemma plainText_queued (line : string) (now : N) (st : Server.app) :
  queued st (Server.plainText md5_hex line now st).
Proof.
  unfold Server.plainText, ret.
  destruct (Server.match2 Regex.newMessageRe line) as [[u m]|].
  - apply queueComment_queued.
  - destruct (_ || _); [|constructor].
    destruct (Server.match2 Regex.messageRe line) as [[u m]|]; [|constructor].
    apply queueComment_queued.
Qed.

Lemma plainText_returns (line : string) (now : N) (st : Server.app) :
  fst (Server.plainText md5_hex line now st) = Return tt.
Proof.
  unfold Server.plainText, ret.
  destruct (Server.match2 Regex.newMessageRe line) as [[u m]|].
  - apply queueComment_text_returns.
  - destruct (_ || _); [|reflexivity].
    destruct (Server.match2 Regex.messageRe line) as [[u m]|]; [|reflexivity].
    apply queueComment_text_returns.
Qed.

(** No exception leaves the callback of [forEach]; it queues at most one
    comment, whose sender can be rendered. *)
Lemma parseLine_returns (line : string) (now : N) (st : Server.app) :
  fst (parseLine line now st) = Return tt.
Proof.
  unfold Server.parseLine, tryCatch, ret.
  destruct (String.eqb (Text.trim line) EmptyString); [reflexivity|].
  destruct (structured_queued line now st); try reflexivity.
  apply plainText_returns.
Qed.

Lemma parseLine_effect (line : string) (now : N) (st : Server.app) :
  snd (parseLine line now st) = st \/
  exists c, printable c /\ snd (parseLine line now st) = pushed c st.
Proof.
  unfold Server.parseLine, tryCatch, ret.
  destruct (String.eqb (Text.trim line) EmptyString); [now left|].
  destruct (structured_queued line now st) as [e| |c Hc].
  - destruct (plainText_queued line now st) as [e'| |c Hc]; simpl; eauto.
  - now left.
  - right. eauto.
Qed.

Lemma forEachLine_cons (line : string) (rest : list string) (clock : nat -> N)
      (k : nat) (st : Server.app) :
  forEachLine (line :: rest) clock k st
  = forEachLine rest clock (S k) (snd (parseLine line (clock k) st)).
Proof.
  cbn [Server.forEachLine]. unfold bindM.
  pose proof (parseLine_returns line (clock k) st) as H.
  destruct (parseLine line (clock k) st) as [r st']. simpl in *. now subst r.
Qed.

Lemma forEachLine_returns (lines : list string) (clock : nat -> N) (k : nat)
      (st : Server.app) :
  fst (forEachLine lines clock k st) = Return tt.
Proof.
  revert k st. induction lines as [|line rest IH]; intros k st.
  - reflexivity.
  - rewrite forEachLine_cons. apply IH.
Qed.

Lemma forEachLine_app (pre post : list string) (clock : nat -> N) (k : nat)
      (st : Server.app) :
  forEachLine (pre ++ post) clock k st
  = forEachLine post clock (k + List.length pre) (snd (forEachLine pre clock k st)).
Proof.
  revert k st. induction pre as [|line rest IH]; intros k st.
  - simpl. now rewrite Nat.add_0_r.
  - cbn [app List.length]. rewrite !forEachLine_cons, IH.
    now replace (S k + List.length rest) with (k + S (List.length rest)) by lia.
Qed.

Lemma parseAndQueueComments_eq (chunk : string) (clock : nat -> N) (st : Server.app) :
  Server.parseAndQueueComments md5_hex json_decode chunk clock st
  = forEachLine (Text.split Text.LF chunk) clock 0 st.
Proof.
  unfold Server.parseAndQueueComments, tryCatch.
  pose proof (forEachLine_returns (Text.split Text.LF chunk) clock 0 st) as H.
  destruct (forEachLine _ clock 0 st) as [r st']. simpl in H. now subst r.
Qed.

End IntakeFacts.

Lemma parseLine_unreadable md5_hex json_decode (line : string) (now : N)
      (st : Server.app) :
  unreadable json_decode line ->
  Server.parseLine md5_hex json_decode line now st = (Return tt, st).
Proof.
  intros [[e He] [H1 H2]].
  unfold Server.parseLine, tryCatch, ret.
  destruct (String.eqb (Text.trim line) EmptyString); [reflexivity|].
  unfold Server.structured, bindM, lift. rewrite He.
  unfold Server.plainText. rewrite H1, H2.
  now destruct (_ || _).
Qed.

Lemma app_parseLine_returns (line : string) (now : N) (st : App.app) :
  fst (App.parseLine line now st) = Return tt.
Proof.
  unfold App.parseLine, ret.
  destruct (_ || _); [|reflexivity].
  destruct (Server.match2 Regex.messageRe line) as [[u m]|]; [|reflexivity].
  now destruct (negb _).
Qed.

Lemma app_parseLine_unreadable (line : string) (now : N) (st : App.app) :
  unreadableApp line -> App.parseLine line now st = (Return tt, st).
Proof.
  unfold App.parseLine, ret. intros [H|H].
  - now rewrite H.
  - rewrite H. now destruct (_ || _).
Qed.

Lemma app_forEachLine_cons (line : string) (rest : list string) (clock : nat -> N)
      (k : nat) (st : App.app) :
  App.forEachLine (line :: rest) clock k st
  = App.forEachLine rest clock (S k) (snd (App.parseLine line (clock k) st)).
Proof.
  cbn [App.forEachLine]. unfold bindM.
  pose proof (app_parseLine_returns line (clock k) st) as H.
  destruct (App.parseLine line (clock k) st) as [r st']. simpl in *. now subst r.
Qed.

Lemma app_forEachLine_returns (lines : list string) (clock : nat -> N) (k : nat)
      (st : App.app) :
  fst (App.forEachLine lines clock k st) = Return tt.
Proof.
  revert k st. induction lines as [|line rest IH]; intros k st.
  - reflexivity.
  - rewrite app_forEachLine_cons. apply IH.
Qed.

Lemma app_forEachLine_app (pre post : list string) (clock : nat -> N) (k : nat)
      (st : App.app) :
  App.forEachLine (pre ++ post) clock k st
  = App.forEachLine post clock (k + List.length pre)
                    (snd (App.forEachLine pre clock k st)).
Proof.
  revert k st. induction pre as [|line rest IH]; intros k st.
  - simpl. now rewrite Nat.add_0_r.
  - cbn [app List.length]. rewrite !app_forEachLine_cons, IH.
    now replace (S k + List.length rest) with (k + S (List.length rest)) by lia.
Qed.

Lemma app_parseAndQueueComments_eq (chunk : string) (clock : nat -> N) (st : App.app) :
  App.parseAndQueueComments chunk clock st
  = App.forEachLine (Text.split Text.LF chunk) clock 0 st.
Proof.
  unfold App.parseAndQueueComments, tryCatch.
  pose proof (app_forEachLine_returns (Text.split Text.LF chunk) clock 0 st) as H.
  destruct (App.forEachLine _ clock 0 st) as [r st']. simpl in H. now subst r.
Qed.

(** C7.  A line that cannot be parsed never aborts the chunk.  In both
    scripts the loop over the lines of a chunk ends normally whatever the
    lines are, so the outer [catch] is never entered; a line none of the
    decoders reads leaves the object as it is, and the lines after it are
    handled from the state the lines before it left. *)
Theorem C7_malformed_line_is_skipped
        (md5_hex : string -> string) (json_decode : string -> option value)
        (pre post : list string) (bad badApp chunk : string) (clock : nat -> N)
        (st : Server.app) (st' : App.app) :
  unreadable json_decode bad ->
  unreadableApp badApp ->
  Server.forEachLine md5_hex json_decode (pre ++ bad :: post) clock 0 st
  = (Return tt,
     snd (Server.forEachLine md5_hex json_decode post clock (S (List.length pre))
            (snd (Server.forEachLine md5_hex json_decode pre clock 0 st))))
  /\ Server.parseAndQueueComments md5_hex json_decode chunk clock st
     = (Return tt,
        snd (Server.forEachLine md5_hex json_decode (Text.split Text.LF chunk) clock 0 st))
  /\ App.forEachLine (pre ++ badApp :: post) clock 0 st'
     = (Return tt,
        snd (App.forEachLine post clock (S (List.length pre))
               (snd (App.forEachLine pre clock 0 st'))))
  /\ App.parseAndQueueComments chunk clock st'
     = (Return tt, snd (App.forEachLine (Text.split Text.LF chunk) clock 0 st')).
Proof.
  intros Hbad HbadApp. repeat split.
  - rewrite forEachLine_app, forEachLine_cons, parseLine_unreadable by assumption.
    cbn [snd plus].
    pose proof (forEachLine_returns md5_hex json_decode post clock (S (List.length pre))
                  (snd (Server.forEachLine md5_hex json_decode pre clock 0 st))) as H.
    destruct (Server.forEachLine md5_hex json_decode post _ _ _) as [r s].
    simpl in *. now subst r.
  - rewrite parseAndQueueComments_eq.
    pose proof (forEachLine_returns md5_hex json_decode (Text.split Text.LF chunk) clock 0 st) as H.
    destruct (Server.forEachLine _ _ _ _ _ _) as [r s]. simpl in *. now subst r.
  - rewrite app_forEachLine_app, app_forEachLine_cons, app_parseLine_unreadable by assumption.
    cbn [snd plus].
    pose proof (app_forEachLine_returns post clock (S (List.length pre))
                  (snd (App.forEachLine pre clock 0 st'))) as H.
    destruct (App.forEachLine post _ _ _) as [r s]. simpl in *. now subst r.
  - rewrite app_parseAndQueueComments_eq.
    pose proof (app_forEachLine_returns (Text.split Text.LF chunk) clock 0 st') as H.
    destruct (App.forEachLine _ _ _ _) as [r s]. simpl in *. now subst r.
Qed.

Lemma C7_witness :
  let dec : string -> option value := fun _ => None in
  let clock : nat -> N := fun k => N.of_nat k in
  let pre := ["New message from alice: gm wagmi"] in
  let post := ["chat: hello"] in
  unreadable dec "not a chat line" /\
  unreadableApp "not a chat line" /\
  Server.forEachLine (fun s => s) dec (pre ++ "not a chat line" :: post) clock 0
                     Server.constructed
  = (Return tt,
     snd (Server.forEachLine (fun s => s) dec post clock 2
            (snd (Server.forEachLine (fun s => s) dec pre clock 0 Server.constructed)))).
Proof.
  intros dec clock pre post.
  assert (Hbad : unreadable dec "not a chat line").
  { split; [exists SyntaxError; reflexivity | split; reflexivity]. }
  assert (HbadApp : unreadableApp "not a chat line") by (left; reflexivity).
  split; [exact Hbad | split; [exact HbadApp |]].
  exact (proj1 (C7_malformed_line_is_skipped (fun s => s) dec pre post
                  "not a chat line" "not a chat line" EmptyString clock
                  Server.constructed App.constructed Hbad HbadApp)).
Defined.

(** The current script derives the id of a comment that comes without an
    upstream id from its sender and text alone: two calls of
    [queueComment] that queue the same [(user, message)], at any two times
    and in any two states, queue it under the same id. *)
Lemma server_id_is_content_based
      (md5_hex : string -> string) (user message p1 p2 : value) (now1 now2 : N)
      (st1 st2 : Server.app) (c1 c2 : Server.comment) :
  ToBoolean p1 = false -> ToBoolean p2 = false ->
  Server.commentQueue (snd (Server.queueComment md5_hex user message p1 now1 st1))
  = Server.commentQueue st1 ++ [c1] ->
  Server.commentQueue (snd (Server.queueComment md5_hex user message p2 now2 st2))
  = Server.commentQueue st2 ++ [c2] ->
  Server.id c1 = Server.id c2 /\
  exists u m, ToString user = Return u /\ ToString message = Return m /\
              Server.id c1 = VString (u ^^ "_" ^^ Text.take 8 (md5_hex (u ^^ ":" ^^ m))).
Proof.
  intros Hp1 Hp2. rewrite !queueComment_eq. unfold Server.commentId.
  rewrite Hp1, Hp2.
  destruct (ToString user) as [u|e]; cbn [bind].
  2:{ simpl. intros H. apply (f_equal (@List.length _)) in H.
      rewrite length_app in H. simpl in H. lia. }
  destruct (ToString message) as [m|e]; cbn [bind].
  2:{ simpl. intros H. apply (f_equal (@List.length _)) in H.
      rewrite length_app in H. simpl in H. lia. }
  intros H1 H2.
  assert (E : forall now st c,
             Server.commentQueue
               (snd (if has (Server.processedComments st)
                            (VString (u ^^ "_" ^^ Server.contentHash md5_hex u m))
                     then (Return tt, st)
                     else (Return tt,
                           pushed (Server.mkComment
                                     (VString (u ^^ "_" ^^ Server.contentHash md5_hex u m))
                                     user message now) st)))
             = Server.commentQueue st ++ [c] ->
             Server.id c = VString (u ^^ "_" ^^ Server.contentHash md5_hex u m)).
  { intros now st c. destruct (has (Server.processedComments st) _); simpl; intro H.
    - apply (f_equal (@List.length _)) in H. rewrite length_app in H. simpl in H. lia.
    - apply app_inv_head in H. injection H as <-. reflexivity. }
  rewrite (E _ _ _ H1), (E _ _ _ H2). split; [reflexivity|].
  exists u, m. repeat split.
Qed.

(** C1.  In [app.js] the id of a comment carries the reading of
    [Date.now()]: the line [chat: gm] parsed at time 1000 and again at
    time 2000 gives two comments with the same sender and text and
    different ids, and the second is queued although the id of the first
    is in [processedComments]. *)
Theorem C1_app_id_carries_capture_time :
  let line := "chat: gm" in
  let c1 := App.mkComment "chat_gm_1000" "chat" "gm" 1000 in
  let c2 := App.mkComment "chat_gm_2000" "chat" "gm" 2000 in
  let st1 := snd (App.parseLine line 1000 App.constructed) in
  let processed :=
    App.mkApp [] (add (App.processedComments st1) (VString (App.id c1)))
              false VNull VNull None false false in
  App.commentQueue st1 = [c1]
  /\ App.commentQueue (snd (App.parseLine line 2000 processed)) = [c2]
  /\ App.user c1 = App.user c2 /\ App.message c1 = App.message c2
  /\ App.id c1 <> App.id c2.
Proof.
  cbv zeta. repeat split; try reflexivity. discriminate.
Qed.

(** C2.  [queueComment], once the id is computed, returns normally; it
    leaves the object as it is exactly when the id is in
    [processedComments], and otherwise appends the comment at the tail of
    the queue.  The queue itself is not consulted: a comment queued and
    not yet processed is queued again by a second call. *)
Theorem C2_enqueue_skips_exactly_processed
        (md5_hex : string -> string) (user message providedId cid : value)
        (now now' : N) (st : Server.app) :
  Server.commentId md5_hex user message providedId = Return cid ->
  let r := Server.queueComment md5_hex user message providedId now st in
  let c := Server.mkComment cid user message now in
  fst r = Return tt
  /\ (has (Server.processedComments st) cid = true -> snd r = st)
  /\ (has (Server.processedComments st) cid = false ->
      snd r = Server.with_commentQueue (Server.commentQueue st ++ [c]) st)
  /\ (snd r = st <-> has (Server.processedComments st) cid = true)
  /\ (List.length (Server.commentQueue (snd r)) = List.length (Server.commentQueue st)
      <-> has (Server.processedComments st) cid = true)
  /\ (has (Server.processedComments st) cid = false ->
      Server.commentQueue
        (snd (Server.queueComment md5_hex user message providedId now' (snd r)))
      = Server.commentQueue st ++ [c; Server.mkComment cid user message now']).
Proof.
  intros Hid r c. subst r c. rewrite queueComment_eq, Hid.
  destruct (has (Server.processedComments st) cid) eqn:Hhas; cbn [fst snd].
  - repeat split; auto; discriminate.
  - set (c := Server.mkComment cid user message now).
    assert (Hlen : List.length (Server.commentQueue (pushed c st))
                   = S (List.length (Server.commentQueue st))).
    { simpl. rewrite length_app. simpl. lia. }
    repeat split; auto; try discriminate.
    + intro H. rewrite H in Hlen. lia.
    + intro H. rewrite Hlen in H. lia.
    + intros _. rewrite queueComment_eq, Hid. simpl. rewrite Hhas. simpl.
      now rewrite <- app_assoc.
Qed.

Lemma C2_witness :
  let md5 : string -> string := fun s => s in
  let cid := VString "alice_alice:gm" in
  Server.commentId md5 (VString "alice") (VString "gm") VNull = Return cid /\
  Server.commentQueue
    (snd (Server.queueComment md5 (VString "alice") (VString "gm") VNull 2
            (snd (Server.queueComment md5 (VString "alice") (VString "gm") VNull 1
                    Server.constructed))))
  = [Server.mkComment cid (VString "alice") (VString "gm") 1;
     Server.mkComment cid (VString "alice") (VString "gm") 2].
Proof.
  intros md5 cid.
  assert (Hid : Server.commentId md5 (VString "alice") (VString "gm") VNull = Return cid)
    by reflexivity.
  split; [exact Hid|].
  destruct (C2_enqueue_skips_exactly_processed md5 (VString "alice") (VString "gm")
              VNull cid 1 2 Server.constructed Hid) as [_ [_ [_ [_ [_ H]]]]].
  apply H. reflexivity.
Defined.

(** ** The event loop: calls in progress *)

Lemma progress_snoc (tr : list Server.action) (a : Server.action) :
  progress (tr ++ [a]) = advance (progress tr) a.
Proof. unfold progress. now rewrite fold_left_app. Qed.

Lemma mem_fresh (w : Server.world) :
  (forall k, Server.mem k (Server.settled w) = true -> k < Server.calls w) ->
  Server.mem (Server.calls w) (Server.settled w) = false.
Proof.
  intro H. destruct (Server.mem (Server.calls w) (Server.settled w)) eqn:E; [|reflexivity].
  apply H in E. lia.
Qed.

Lemma mem_cons (k j : nat) (l : list nat) :
  Server.mem k (j :: l) = Nat.eqb k j || Server.mem k l.
Proof. reflexivity. Qed.

Lemma invariant_booted (loaded : bool) : invariant (Server.booted loaded).
Proof.
  constructor; simpl.
  - repeat split; auto.
  - discriminate.
  - constructor.
Qed.

Lemma settledTimer_more (done : list nat) (k : nat) (l : list (nat * N)) :
  Forall (settledTimer done) l -> Forall (settledTimer (k :: done)) l.
Proof.
  apply Forall_impl. intros t H. unfold settledTimer in *.
  rewrite mem_cons, H. apply orb_true_r.
Qed.

Lemma settledCall_more (done : list nat) (k : nat) (l : list nat) :
  Forall (settledCall done) l -> Forall (settledCall (k :: done)) l.
Proof.
  apply Forall_impl. intros t H. unfold settledCall in *.
  rewrite mem_cons, H. apply orb_true_r.
Qed.

Lemma fresh_more (done : list nat) (n : nat) :
  (forall k, Server.mem k done = true -> k < n) ->
  forall k, Server.mem k (n :: done) = true -> k < S n.
Proof.
  intros H k. rewrite mem_cons. intro E. apply orb_prop in E. destruct E as [E|E].
  - apply Nat.eqb_eq in E. lia.
  - apply H in E. lia.
Qed.

Lemma fresh_later (done : list nat) (n : nat) :
  (forall k, Server.mem k done = true -> k < n) ->
  forall k, Server.mem k done = true -> k < S n.
Proof. intros H k E. apply H in E. lia. Qed.

(** From the settlement of [generateResponse] with a text to the end of
    the turn. *)
Ltac wstep :=
  lazy beta iota zeta delta
    [Server.afterGenerate Server.speakResponse Server.suspend Server.resolve
     Server.emit Server.on_this Server.with_calls Server.with_timers
     Server.with_speech Server.with_settled Server.with_tasks
     Server.with_children Server.with_intervals Server.with_restarts
     Server.with_currentlySpeaking Server.with_ttsDisabled Server.with_isProcessing
     Server.with_commentQueue Server.with_processedComments Server.with_target
     Server.with_mcpProcess Server.with_textGenerator
     Server.finish Server.drain Server.sayCallback Server.ttsTimeout
     Server.awaitsSettled
     Server.this Server.tasks Server.timers Server.speech Server.settled
     Server.calls Server.children Server.spawned Server.intervals Server.restarts
     Server.trace
     Server.commentQueue Server.processedComments Server.isProcessing
     Server.username Server.tokenAddress Server.mcpProcess Server.textGenerator
     Server.currentlySpeaking Server.ttsDisabled].

Ltac open_world w :=
  destruct w as [[q pr ip un ta mp tg cs td] tasks timers speech settled calls
                   children spawned intervals restarts trace].

Lemma mem_head (k : nat) (l : list nat) : Server.mem k (k :: l) = true.
Proof. rewrite mem_cons, Nat.eqb_refl. reflexivity. Qed.

Lemma afterGenerate_invariant (c : Server.comment) (s : string) (tts : Server.say)
      (w : Server.world) :
  midway c w ->
  invariant (Server.drain (Server.afterGenerate c (Return (VString s)) tts w)).
Proof.
  intros [Ht Hb Hq Hp Hpr Hen Htm Hsp Hfr Hqu].
  open_world w. simpl in *. subst tasks ip cs.
  assert (Hnew : Server.mem calls settled = false).
  { destruct (Server.mem calls settled) eqn:E; [apply Hfr in E; lia | reflexivity]. }
  destruct td.
  - (* speech is disabled *)
    wstep. rewrite Hnew. wstep. cbn [filter app]. rewrite mem_head. cbn [filter negb].
    constructor; wstep.
    + repeat split; try discriminate.
      * rewrite !progress_snoc, Hp. cbn. now rewrite Nat.eqb_refl.
      * now apply settledTimer_more.
      * now apply settledCall_more.
    + now apply fresh_more.
    + exact Hqu.
  - destruct (Hen eq_refl) as [-> ->].
    destruct tts.
    + (* say.speak throws *)
      wstep. rewrite Hnew. wstep. cbn [filter app]. rewrite mem_head. cbn [filter negb].
      constructor; wstep.
      * repeat split; try discriminate.
        -- rewrite !progress_snoc, Hp. cbn. now rewrite Nat.eqb_refl.
        -- constructor; [|constructor]. unfold settledTimer. cbn [fst].
           apply mem_head.
        -- constructor.
      * now apply fresh_more.
      * exact Hqu.
    + (* say.speak starts *)
      wstep. cbn [filter app]. rewrite Hnew. cbn [filter negb].
      constructor; wstep.
      * repeat split; auto.
        rewrite !progress_snoc, Hp. reflexivity.
      * now apply fresh_later.
      * exact Hqu.
Qed.

Lemma invariant_frame (w w' : Server.world) :
  core w' = core w ->
  Forall printable (Server.commentQueue (Server.this w')) ->
  invariant w -> invariant w'.
Proof.
  unfold core. intros E Hq [H1 H2 H3].
  injection E as Et Etm Esp Ese Ec Eip Ecs Etd Epr Eprog.
  constructor.
  - rewrite Et, Etm, Esp, Ese, Ec, Eip, Ecs, Etd, Epr, Eprog. exact H1.
  - rewrite Ese, Ec. exact H2.
  - exact Hq.
Qed.

Lemma drain_stable (w : Server.world) : invariant w -> Server.drain w = w.
Proof.
  intros [H _ _]. unfold Server.drain.
  destruct (Server.tasks w) as [|[c sel p|c k] [|t rest]]; try contradiction;
    try reflexivity.
  destruct H as [_ [_ [_ [_ [Hk _]]]]]. simpl. now rewrite Hk.
Qed.

Lemma advance_killed p pid : advance p (Server.Killed pid) = p.
Proof. now destruct p as [[]|]. Qed.
Lemma advance_spawned p pid t : advance p (Server.Spawned pid t) = p.
Proof. now destruct p as [[]|]. Qed.
Lemma advance_started p : advance p Server.QueueProcessorStarted = p.
Proof. now destruct p as [[]|]. Qed.
Lemma advance_responded p n : advance p (Server.Responded n) = p.
Proof. now destruct p as [[]|]. Qed.

Lemma core_startPumpFunChat (w : Server.world) :
  core (snd (Server.startPumpFunChat w)) = core w /\
  Server.commentQueue (Server.this (snd (Server.startPumpFunChat w)))
  = Server.commentQueue (Server.this w).
Proof.
  open_world w. unfold Server.startPumpFunChat, core.
  destruct mp; wstep; destruct (ToString ta); try destruct (spawnRefuses ta);
    cbn [snd]; wstep;
    rewrite ?progress_snoc, ?advance_killed, ?advance_spawned, ?advance_started;
    auto.
Qed.

Lemma core_responded (n : nat) (w : Server.world) :
  core (Server.emit (Server.Responded n) w) = core w /\
  Server.commentQueue (Server.this (Server.emit (Server.Responded n) w))
  = Server.commentQueue (Server.this w).
Proof.
  open_world w. unfold core. wstep. now rewrite progress_snoc, advance_responded.
Qed.

Lemma core_target (u t : value) (w : Server.world) :
  core (Server.on_this (Server.with_target u t) w) = core w /\
  Server.commentQueue (Server.this (Server.on_this (Server.with_target u t) w))
  = Server.commentQueue (Server.this w).
Proof. open_world w. split; reflexivity. Qed.

Lemma core_postStart (body : value) (w : Server.world) :
  core (Server.postStart body w) = core w /\
  Server.commentQueue (Server.this (Server.postStart body w))
  = Server.commentQueue (Server.this w).
Proof.
  unfold Server.postStart.
  destruct (Server.startArguments body) as [[u t]|e]; [|apply core_responded].
  destruct (negb (ToBoolean t)); [apply core_responded|].
  destruct (bind (ToString u) (fun _ => ToString t)).
  - destruct (core_startPumpFunChat (Server.on_this (Server.with_target u t) w))
      as [E2 Q2].
    destruct (core_target u t w) as [E3 Q3].
    destruct (Server.startPumpFunChat (Server.on_this (Server.with_target u t) w))
      as [[[]|e] w1]; cbn [snd] in E2, Q2.
    + destruct (core_responded 200 w1) as [E1 Q1]. split; congruence.
    + destruct (core_responded 500 w1) as [E1 Q1]. split; congruence.
  - destruct (core_responded 500 (Server.on_this (Server.with_target u t) w)) as [E1 Q1].
    destruct (core_target u t w) as [E3 Q3].
    split; congruence.
Qed.

Lemma forEachLine_printable md5_hex json_decode (lines : list string)
      (clock : nat -> N) (k : nat) (st : Server.app) :
  let st' := snd (Server.forEachLine md5_hex json_decode lines clock k st) in
  (Forall printable (Server.commentQueue st) ->
   Forall printable (Server.commentQueue st'))
  /\ Server.processedComments st' = Server.processedComments st
  /\ Server.isProcessing st' = Server.isProcessing st
  /\ Server.currentlySpeaking st' = Server.currentlySpeaking st
  /\ Server.ttsDisabled st' = Server.ttsDisabled st
  /\ Server.textGenerator st' = Server.textGenerator st
  /\ Server.username st' = Server.username st
  /\ Server.tokenAddress st' = Server.tokenAddress st
  /\ Server.mcpProcess st' = Server.mcpProcess st
  /\ exists added, Server.commentQueue st' = Server.commentQueue st ++ added.
Proof.
  revert k st. induction lines as [|line rest IH]; intros k st.
  - simpl. repeat split; auto. exists []. now rewrite app_nil_r.
  - rewrite forEachLine_cons. cbv zeta.
    destruct (parseLine_effect md5_hex json_decode line (clock k) st) as [E|[c [Hc E]]];
      rewrite E.
    + apply IH.
    + destruct (IH (S k) (pushed c st))
        as [H1 [H2 [H3 [H4 [H5 [H6 [H7 [H8 [H9 [added H10]]]]]]]]]].
      repeat split; auto.
      * intro Hq. apply H1. simpl. apply Forall_app. split; [exact Hq|].
        now constructor.
      * exists (c :: added). rewrite H10. simpl. now rewrite <- app_assoc.
Qed.

Lemma core_output md5_hex json_decode (chunk : string) (clock : nat -> N)
      (w : Server.world) :
  let w' := Server.on_this
              (fun a => snd (Server.parseAndQueueComments md5_hex json_decode chunk clock a)) w in
  core w' = core w /\
  (Forall printable (Server.commentQueue (Server.this w)) ->
   Forall printable (Server.commentQueue (Server.this w'))).
Proof.
  cbv zeta. unfold core. cbn -[progress].
  rewrite parseAndQueueComments_eq.
  destruct (forEachLine_printable md5_hex json_decode (Text.split Text.LF chunk)
              clock 0 (Server.this w)) as [H1 [H2 [H3 [H4 [H5 _]]]]].
  cbv zeta in *. now rewrite H2, H3, H4, H5.
Qed.

Lemma processNextComment_eq (u : draw) (tts : Server.say) (w : Server.world)
      (c : Server.comment) (rest : list Server.comment) :
  Server.isProcessing (Server.this w) = false ->
  Server.commentQueue (Server.this w) = c :: rest ->
  printable c ->
  Server.processNextComment u tts w =
  match Server.generateBegin c u (Server.textGenerator (Server.this w)) with
  | Server.Finished r => Server.afterGenerate c r tts (begun c rest w)
  | Server.AwaitingBackend selected prompt =>
      Server.suspend (Server.AwaitGenerate c selected prompt) (begun c rest w)
  end.
Proof.
  intros Hb Hq [name [text [Hn Ht]]]. unfold Server.processNextComment.
  rewrite Hb, Hq, Hn. cbn [bind]. rewrite Ht.
  open_world w. reflexivity.
Qed.

(** The same tick when the log line cannot be rendered: the [catch] and
    the [finally] of [processNextComment]. *)
Lemma processNextComment_unprintable (u : draw) (tts : Server.say) (w : Server.world)
      (c : Server.comment) (rest : list Server.comment) (e : error) :
  Server.isProcessing (Server.this w) = false ->
  Server.commentQueue (Server.this w) = c :: rest ->
  bind (ToString (Server.user c)) (fun _ => ToString (Server.message c)) = Throw e ->
  Server.processNextComment u tts w =
  Server.finish
    (Server.emit Server.ErrorLogged
       (Server.emit (Server.Dequeued c)
          (Server.on_this (Server.with_commentQueue rest)
             (Server.on_this (Server.with_isProcessing true) w)))).
Proof.
  intros Hb Hq He. unfold Server.processNextComment. now rewrite Hb, Hq, He.
Qed.

Lemma printable_or_not (c : Server.comment) :
  printable c \/
  exists e, bind (ToString (Server.user c)) (fun _ => ToString (Server.message c))
            = Throw e.
Proof.
  unfold printable. destruct (ToString (Server.user c)) as [name|e]; cbn [bind].
  - destruct (ToString (Server.message c)) as [text|e]; eauto.
  - eauto.
Qed.

Lemma begun_facts (c : Server.comment) (rest : list Server.comment) (w : Server.world) :
  Server.commentQueue (Server.this (begun c rest w)) = rest /\
  Server.processedComments (Server.this (begun c rest w))
  = add (Server.processedComments (Server.this w)) (Server.id c) /\
  Server.ttsDisabled (Server.this (begun c rest w)) = Server.ttsDisabled (Server.this w) /\
  Server.isProcessing (Server.this (begun c rest w)) = true /\
  Server.tasks (begun c rest w) = Server.tasks w /\
  Server.trace (begun c rest w)
  = Server.trace w ++ [Server.Dequeued c; Server.MarkedProcessed (Server.id c);
                       Server.GenerateCalled c].
Proof.
  open_world w. unfold begun. wstep. repeat split.
  now repeat rewrite <- app_assoc.
Qed.

Lemma invariant_tasks_cases (w : Server.world) :
  invariant w ->
  (Server.tasks w = [] /\ Server.isProcessing (Server.this w) = false) \/
  (exists t, Server.tasks w = [t] /\ Server.isProcessing (Server.this w) = true).
Proof.
  intros [Ht _ _].
  destruct (Server.tasks w) as [|[c sel p|c k] [|t2 more]]; try contradiction.
  - left. tauto.
  - right. eexists. split; [reflexivity | tauto].
  - right. eexists. split; [reflexivity | tauto].
Qed.

Lemma begun_midway (c : Server.comment) (rest : list Server.comment)
      (w : Server.world) :
  invariant w -> Server.tasks w = [] ->
  Server.commentQueue (Server.this w) = c :: rest ->
  midway c (begun c rest w).
Proof.
  intros [Ht Hfr Hqu] Et Hq. rewrite Et in Ht.
  destruct Ht as [_ [Hcs [Hp [Hen [Htm Hsp]]]]].
  rewrite Hq in Hqu. inversion Hqu as [|c' rest' _ Hrest]; subst c' rest'.
  open_world w. simpl in *. subst.
  unfold begun. constructor; wstep; auto.
  - rewrite !progress_snoc, Hp. reflexivity.
  - apply add_In.
Qed.

Lemma tick_invariant (u : draw) (tts : Server.say) (w : Server.world) :
  invariant w -> invariant (Server.drain (Server.tick u tts w)).
Proof.
  intro Hinv. unfold Server.tick.
  destruct (negb (Server.isProcessing (Server.this w))
            && (0 <? List.length (Server.commentQueue (Server.this w)))) eqn:Hgo.
  2:{ rewrite drain_stable; assumption. }
  apply andb_prop in Hgo. destruct Hgo as [Hidle _].
  apply negb_true_iff in Hidle.
  destruct (Server.commentQueue (Server.this w)) as [|c rest] eqn:Hq.
  { unfold Server.processNextComment. rewrite Hidle, Hq.
    rewrite drain_stable; assumption. }
  assert (Hc : printable c).
  { destruct Hinv as [_ _ Hqu]. rewrite Hq in Hqu. now inversion Hqu. }
  rewrite (processNextComment_eq u tts w c rest Hidle Hq Hc).
  assert (Et : Server.tasks w = []).
  { destruct (invariant_tasks_cases w Hinv) as [[E _]|[t [_ E]]]; [exact E|congruence]. }
  pose proof (begun_midway c rest w Hinv Et Hq) as Hmid.
  destruct Hc as [name [text [Hname _]]].
  destruct (generateBegin_cases c u (Server.textGenerator (Server.this w)) name Hname)
    as [s [Hin [E|[prompt E]]]]; rewrite E.
  - now apply afterGenerate_invariant.
  - destruct Hmid as [Mt Mb Mq Mp Mpr Men Mtm Msp Mfr Mqu].
    generalize dependent (begun c rest w). intros w1 Mt Mb Mq Mp Mpr Men Mtm Msp Mfr Mqu.
    open_world w1. simpl in *. subst.
    wstep. cbn [app filter negb].
    constructor; wstep; auto.
    repeat split; auto; try (apply Men; assumption).
    exists s. split; [reflexivity|]. now apply canned_nonempty with name.
Qed.

Lemma backend_invariant (o : backend) (tts : Server.say) (w : Server.world) :
  invariant w ->
  invariant (Server.drain
               match Server.takeGenerating (Server.tasks w) with
               | Some (c, selected, prompt, rest) =>
                   Server.afterGenerate c (Server.generateResume selected prompt o) tts
                                        (Server.with_tasks rest w)
               | None => w
               end).
Proof.
  intro Hinv. pose proof Hinv as [Ht Hfr Hqu].
  destruct (Server.tasks w) as [|[c sel p|c k] [|t2 more]] eqn:Etasks;
    try contradiction; cbn [Server.takeGenerating];
    try (rewrite drain_stable; assumption).
  destruct Ht as [Hb [Hcs [Hp [[s [-> Hs]] [Hpr [Hen [Htm Hsp]]]]]]].
  destruct (generateResume_cases s p o Hs) as [s' [E _]]. rewrite E.
  apply afterGenerate_invariant.
  open_world w. simpl in *. constructor; simpl; auto.
Qed.

Lemma filter_settledTimer (done : list nat) (f : nat * N -> bool) (l : list (nat * N)) :
  Forall (settledTimer done) l -> Forall (settledTimer done) (filter f l).
Proof.
  intro H. apply Forall_forall. intros x Hx. apply filter_In in Hx.
  destruct Hx as [Hx _]. revert x Hx. now apply Forall_forall.
Qed.

Lemma filter_settledCall (done : list nat) (f : nat -> bool) (l : list nat) :
  Forall (settledCall done) l -> Forall (settledCall done) (filter f l).
Proof.
  intro H. apply Forall_forall. intros x Hx. apply filter_In in Hx.
  destruct Hx as [Hx _]. revert x Hx. now apply Forall_forall.
Qed.

Lemma mem_settled (done l : list nat) (k : nat) :
  Forall (settledCall done) l -> Server.mem k l = true -> Server.mem k done = true.
Proof.
  intros H Hk. unfold Server.mem in Hk. apply existsb_exists in Hk.
  destruct Hk as [x [Hx E]]. apply Nat.eqb_eq in E. subst x.
  rewrite Forall_forall in H. now apply H.
Qed.

Lemma armed_settled (done : list nat) (l : list (nat * N)) (k : nat) :
  Forall (settledTimer done) l -> Server.armed k l = true -> Server.mem k done = true.
Proof.
  intros H Hk. unfold Server.armed in Hk. apply existsb_exists in Hk.
  destruct Hk as [x [Hx E]]. apply Nat.eqb_eq in E. subst k.
  rewrite Forall_forall in H. now apply H.
Qed.

Lemma mem_one (k j : nat) : Server.mem k [j] = true -> k = j.
Proof. unfold Server.mem. simpl. rewrite orb_false_r. apply Nat.eqb_eq. Qed.

Lemma armed_one (k j : nat) (d : N) : Server.armed k [(j, d)] = true -> k = j.
Proof. unfold Server.armed. simpl. rewrite orb_false_r. apply Nat.eqb_eq. Qed.

Lemma clearTimeout_settled (done : list nat) (k : nat) (l : list (nat * N)) :
  Forall (settledTimer done) l -> Forall (settledTimer done) (Server.clearTimeout k l).
Proof. apply filter_settledTimer. Qed.

Lemma remove_settled (done : list nat) (k : nat) (l : list nat) :
  Forall (settledCall done) l -> Forall (settledCall done) (Server.remove k l).
Proof. apply filter_settledCall. Qed.

Lemma clearTimeout_one (k : nat) (d : N) : Server.clearTimeout k [(k, d)] = [].
Proof. unfold Server.clearTimeout. simpl. now rewrite Nat.eqb_refl. Qed.

Lemma remove_one (k : nat) : Server.remove k [k] = [].
Proof. unfold Server.remove. simpl. now rewrite Nat.eqb_refl. Qed.

(** A callback or a timeout whose call is already resolved changes
    nothing but the lists of pending timers and callbacks. *)
Lemma stale_invariant (k : nat) (w : Server.world)
      (timers' : list (nat * N)) (speech' : list nat) :
  invariant w ->
  (forall c j, Server.tasks w <> [Server.AwaitSpeak c j]) ->
  Server.ttsDisabled (Server.this w) = true ->
  Forall (settledTimer (Server.settled w)) timers' ->
  Forall (settledCall (Server.settled w)) speech' ->
  invariant (Server.with_speech speech' (Server.with_timers timers' w)).
Proof.
  intros [Ht Hfr Hqu] Hno Htd Htm Hsp.
  open_world w. simpl in *. subst td.
  destruct tasks as [|[c sel p|c j] [|t2 more]]; try contradiction.
  - destruct Ht as [Hb [Hcs [Hp _]]].
    constructor; wstep; auto. repeat split; auto; discriminate.
  - destruct Ht as [Hb [Hcs [Hp [Hs [Hpr _]]]]].
    constructor; wstep; auto. repeat split; auto; discriminate.
  - exfalso. now apply (Hno c j).
Qed.

Lemma stale_facts (w : Server.world) :
  invariant w ->
  (forall c j, Server.tasks w <> [Server.AwaitSpeak c j]) ->
  Server.currentlySpeaking (Server.this w) = false /\
  Forall (settledTimer (Server.settled w)) (Server.timers w) /\
  Forall (settledCall (Server.settled w)) (Server.speech w) /\
  (Server.ttsDisabled (Server.this w) = false ->
   Server.timers w = [] /\ Server.speech w = []).
Proof.
  intros [Ht _ _] Hno.
  destruct (Server.tasks w) as [|[c sel p|c j] [|t2 more]]; try contradiction.
  - tauto.
  - tauto.
  - exfalso. now apply (Hno c j).
Qed.

Lemma speaking_facts (w : Server.world) (c : Server.comment) (j : nat) :
  invariant w -> Server.tasks w = [Server.AwaitSpeak c j] ->
  Server.isProcessing (Server.this w) = true /\
  Server.currentlySpeaking (Server.this w) = true /\
  Server.ttsDisabled (Server.this w) = false /\
  progress (Server.trace w) = Some (InSpeak j) /\
  Server.mem j (Server.settled w) = false /\
  j < Server.calls w /\
  In (Server.id c) (Server.processedComments (Server.this w)) /\
  Server.timers w = [(j, 5000%N)] /\
  Server.speech w = [j].
Proof. intros [Ht _ _] E. rewrite E in Ht. exact Ht. Qed.

(** The end of the call in flight: its callback or its timeout. *)
Lemma completion_invariant (c : Server.comment) (j : nat) (disable : bool)
      (w : Server.world) (speech' : list nat) :
  invariant w -> Server.tasks w = [Server.AwaitSpeak c j] ->
  speech' = [] \/ speech' = [j] /\ disable = true ->
  invariant
    (Server.drain
       (Server.resolve j
          (Server.on_this (Server.with_currentlySpeaking false)
             (Server.on_this (fun a => Server.with_ttsDisabled
                                         (disable || Server.ttsDisabled a) a)
                (Server.with_speech speech' (Server.with_timers [] w)))))).
Proof.
  intros Hinv E Hsp'.
  destruct (speaking_facts w c j Hinv E)
    as [Hb [Hcs [Htd [Hp [Hnew [Hlt [Hpr [Htm Hsp]]]]]]]].
  destruct Hinv as [_ Hfr Hqu].
  open_world w. simpl in *. subst.
  wstep. rewrite Hnew. wstep. cbn [filter]. rewrite mem_head. cbn [filter negb].
  constructor; wstep; auto.
  - split; [reflexivity|]. split; [reflexivity|]. split.
    { rewrite progress_snoc, Hp. cbn. now rewrite Nat.eqb_refl. }
    split.
    { intro Hd. rewrite orb_false_r in Hd. subst disable.
      destruct Hsp' as [->|[_ H]]; [auto | discriminate]. }
    split; [constructor|].
    destruct Hsp' as [->|[-> _]]; constructor; [|constructor].
    unfold settledCall. apply mem_head.
  - intros k. rewrite mem_cons. intro Hk. apply orb_prop in Hk.
    destruct Hk as [Hk|Hk]; [apply Nat.eqb_eq in Hk; now subst k | now apply Hfr].
Qed.

Lemma sayCallback_conclude (k : nat) (err : bool) (w : Server.world) :
  Server.sayCallback k err (Server.with_speech (Server.remove k (Server.speech w)) w)
  = conclude k err (Server.clearTimeout k (Server.timers w))
             (Server.remove k (Server.speech w)) w.
Proof. open_world w. destruct err; reflexivity. Qed.

Lemma ttsTimeout_conclude (k : nat) (w : Server.world) :
  Server.ttsTimeout k (Server.with_timers (Server.clearTimeout k (Server.timers w)) w)
  = conclude k true (Server.clearTimeout k (Server.timers w)) (Server.speech w) w.
Proof. open_world w. reflexivity. Qed.

Lemma conclude_stale (k : nat) (disable : bool) (w : Server.world)
      (timers' : list (nat * N)) (speech' : list nat) :
  invariant w ->
  (forall c j, Server.tasks w <> [Server.AwaitSpeak c j]) ->
  Server.mem k (Server.settled w) = true ->
  Server.ttsDisabled (Server.this w) = true ->
  Forall (settledTimer (Server.settled w)) timers' ->
  Forall (settledCall (Server.settled w)) speech' ->
  invariant (Server.drain (conclude k disable timers' speech' w)).
Proof.
  intros Hinv Hno Hk Htd Htm Hsp.
  assert (E : conclude k disable timers' speech' w
              = Server.with_speech speech' (Server.with_timers timers' w)).
  { destruct (stale_facts w Hinv Hno) as [Hcs _].
    unfold conclude. open_world w. simpl in *. subst.
    wstep. rewrite Hk. now rewrite orb_true_r. }
  rewrite E.
  pose proof (stale_invariant k w timers' speech' Hinv Hno Htd Htm Hsp) as H.
  now rewrite drain_stable.
Qed.

Lemma conclude_current (c : Server.comment) (j : nat) (disable : bool)
      (w : Server.world) (speech' : list nat) :
  invariant w -> Server.tasks w = [Server.AwaitSpeak c j] ->
  speech' = [] \/ speech' = [j] /\ disable = true ->
  invariant (Server.drain (conclude j disable [] speech' w)).
Proof. apply completion_invariant. Qed.

Lemma awaiting_speech_dec (w : Server.world) :
  invariant w ->
  (exists c j, Server.tasks w = [Server.AwaitSpeak c j]) \/
  (forall c j, Server.tasks w <> [Server.AwaitSpeak c j]).
Proof.
  intros [Ht _ _].
  destruct (Server.tasks w) as [|[c sel p|c j] [|t2 more]]; try contradiction.
  - right. discriminate.
  - right. discriminate.
  - left. eauto.
Qed.

Lemma disabled_when_pending (w : Server.world) :
  invariant w ->
  (forall c j, Server.tasks w <> [Server.AwaitSpeak c j]) ->
  Server.timers w <> [] \/ Server.speech w <> [] ->
  Server.ttsDisabled (Server.this w) = true.
Proof.
  intros Hinv Hno Hne.
  destruct (stale_facts w Hinv Hno) as [_ [_ [_ Hen]]].
  destruct (Server.ttsDisabled (Server.this w)); [reflexivity|].
  destruct (Hen eq_refl) as [E1 E2]. rewrite E1, E2 in Hne. now destruct Hne.
Qed.

Lemma mem_nonempty (k : nat) (l : list nat) : Server.mem k l = true -> l <> [].
Proof. destruct l; [discriminate | discriminate]. Qed.

Lemma armed_nonempty (k : nat) (l : list (nat * N)) : Server.armed k l = true -> l <> [].
Proof. destruct l; [discriminate | discriminate]. Qed.

Section Preservation.

Variable md5_hex : string -> string.
Variable json_decode : string -> option value.

(** Every turn of the loop keeps the invariant. *)
Lemma step_invariant (w : Server.world) (e : Server.event) :
  invariant w -> invariant (Server.step md5_hex json_decode w e).
Proof.
  intro Hinv. unfold Server.step.
  destruct e as [u tts|o tts|k err|k|chunk clock|body| |pid|];
    cbn [Server.handle].
  - destruct (0 <? Server.intervals w).
    + now apply tick_invariant.
    + now rewrite drain_stable.
  - now apply backend_invariant.
  - destruct (Server.mem k (Server.speech w)) eqn:Hk; [|now rewrite drain_stable].
    rewrite sayCallback_conclude.
    destruct (awaiting_speech_dec w Hinv) as [[c [j E]]|Hno].
    + destruct (speaking_facts w c j Hinv E) as [_ [_ [_ [_ [_ [_ [_ [Htm Hsp]]]]]]]].
      rewrite Hsp in Hk. apply mem_one in Hk. subst k.
      rewrite Htm, Hsp, clearTimeout_one, remove_one.
      apply conclude_current with c; auto.
    + destruct (stale_facts w Hinv Hno) as [_ [Htm [Hsp _]]].
      apply conclude_stale; auto.
      * eapply mem_settled; eauto.
      * apply disabled_when_pending; auto. right. eapply mem_nonempty; eauto.
      * now apply clearTimeout_settled.
      * now apply remove_settled.
  - destruct (Server.armed k (Server.timers w)) eqn:Hk; [|now rewrite drain_stable].
    rewrite ttsTimeout_conclude.
    destruct (awaiting_speech_dec w Hinv) as [[c [j E]]|Hno].
    + destruct (speaking_facts w c j Hinv E) as [_ [_ [_ [_ [_ [_ [_ [Htm Hsp]]]]]]]].
      rewrite Htm in Hk. apply armed_one in Hk. subst k.
      rewrite Htm, Hsp, clearTimeout_one.
      apply conclude_current with c; auto.
    + destruct (stale_facts w Hinv Hno) as [_ [Htm [Hsp _]]].
      apply conclude_stale; auto.
      * eapply armed_settled; eauto.
      * apply disabled_when_pending; auto. left. eapply armed_nonempty; eauto.
      * now apply clearTimeout_settled.
  - destruct (core_output md5_hex json_decode chunk clock w) as [E Hq].
    assert (H : invariant
                  (Server.on_this
                     (fun a => snd (Server.parseAndQueueComments md5_hex json_decode
                                      chunk clock a)) w)).
    { apply invariant_frame with w; auto. apply Hq. now destruct Hinv. }
    now rewrite drain_stable.
  - destruct (core_postStart body w) as [E Hq].
    assert (H : invariant (Server.postStart body w)).
    { apply invariant_frame with w; auto. rewrite Hq. now destruct Hinv. }
    now rewrite drain_stable.
  - now rewrite drain_stable.
  - destruct (pid <? Server.spawned w); [|now rewrite drain_stable].
    assert (H : invariant (Server.childClosed pid w)).
    { apply invariant_frame with w; [reflexivity | now destruct Hinv | assumption]. }
    now rewrite drain_stable.
  - destruct (Server.restarts w) as [|n]; [now rewrite drain_stable|].
    assert (H : invariant (Server.restartTimer (Server.with_restarts n w))).
    { unfold Server.restartTimer.
      destruct (ToBoolean _).
      - destruct (core_startPumpFunChat (Server.with_restarts n w)) as [E Hq].
        apply invariant_frame with w; auto.
        rewrite Hq. now destruct Hinv.
      - apply invariant_frame with w; [reflexivity | now destruct Hinv | assumption]. }
    now rewrite drain_stable.
Qed.

Lemma run_invariant (es : list Server.event) (w : Server.world) :
  invariant w -> invariant (Server.run md5_hex json_decode w es).
Proof.
  revert w. induction es as [|e es IH]; intros w H; simpl.
  - exact H.
  - apply IH. now apply step_invariant.
Qed.

Lemma reachable_invariant (w : Server.world) :
  Server.reachable md5_hex json_decode w -> invariant w.
Proof.
  intros [loaded [es ->]]. apply run_invariant, invariant_booted.
Qed.

Lemma reachable_step (w : Server.world) (e : Server.event) :
  Server.reachable md5_hex json_decode w ->
  Server.reachable md5_hex json_decode (Server.step md5_hex json_decode w e).
Proof.
  intros [loaded [es ->]]. exists loaded, (es ++ [e]).
  unfold Server.run. now rewrite fold_left_app.
Qed.

End Preservation.

(** ** The event loop: what a callback can change *)

Lemma evolves_refl (cause : Prop) (w : Server.world) : evolves cause w w.
Proof.
  constructor; auto. exists []. split; [now rewrite app_nil_r | constructor].
Qed.

Lemma evolves_trans (cause : Prop) (w1 w2 w3 : Server.world) :
  evolves cause w1 w2 -> evolves cause w2 w3 -> evolves cause w1 w3.
Proof.
  intros [Q1 P1 D1 C1 [m1 [T1 U1]]] [Q2 P2 D2 C2 [m2 [T2 U2]]].
  constructor.
  - congruence.
  - congruence.
  - auto.
  - intro H. destruct (C2 H) as [H'|H']; auto.
  - exists (m1 ++ m2). split.
    + rewrite T2, T1. now rewrite app_assoc.
    + intro H. apply Forall_app. auto.
Qed.

Lemma evolves_weaken (P Q : Prop) (w w' : Server.world) :
  (P -> Q) -> evolves P w w' -> evolves Q w w'.
Proof.
  intros HPQ [Q1 P1 D1 C1 T1]. constructor; auto.
  intro H. destruct (C1 H); auto.
Qed.

(** Closing a goal [evolves cause W W'] between two explicit worlds. *)
Ltac evolved :=
  constructor; wstep;
  [ reflexivity | reflexivity | auto | auto
  | eexists; split;
    [ first [ symmetry; apply app_nil_r
            | repeat rewrite <- app_assoc; reflexivity ]
    | intros; try discriminate; repeat constructor ] ].

Lemma evolves_resolve (k : nat) (w : Server.world) :
  evolves False w (Server.resolve k w).
Proof.
  open_world w. unfold Server.resolve. cbn [Server.settled].
  destruct (Server.mem k settled); evolved.
Qed.

Lemma evolves_finish (w : Server.world) : evolves False w (Server.finish w).
Proof. open_world w. evolved. Qed.

Lemma evolves_suspend (t : Server.suspended) (w : Server.world) :
  evolves False w (Server.suspend t w).
Proof. open_world w. evolved. Qed.

Lemma evolves_drain (w : Server.world) : evolves False w (Server.drain w).
Proof.
  open_world w. unfold Server.drain.
  destruct (filter _ _); evolved.
Qed.

Lemma evolves_speakResponse (r : value) (tts : Server.say) (w : Server.world) :
  evolves (tts = Server.SayThrows) w (Server.speakResponse r tts w).
Proof.
  open_world w.
  destruct td, tts; destruct (Server.mem calls settled) eqn:E;
    wstep; rewrite ?E; evolved.
Qed.

Lemma evolves_afterGenerate (c : Server.comment) (r : completion value)
      (tts : Server.say) (w : Server.world) :
  evolves (tts = Server.SayThrows) w (Server.afterGenerate c r tts w).
Proof.
  unfold Server.afterGenerate. destruct r as [response|e].
  - apply evolves_trans with (Server.emit (Server.GenerateSettled c (Return response)) w).
    { open_world w. evolved. }
    apply evolves_trans
      with (Server.speakResponse response tts
              (Server.emit (Server.GenerateSettled c (Return response)) w)).
    { apply evolves_speakResponse. }
    apply evolves_weaken with False; [tauto|]. apply evolves_suspend.
  - open_world w. evolved.
Qed.

Lemma evolves_conclude (k : nat) (disable : bool) (timers' : list (nat * N))
      (speech' : list nat) (w : Server.world) :
  evolves (disable = true) w (conclude k disable timers' speech' w).
Proof.
  unfold conclude.
  apply evolves_trans
    with (Server.on_this (Server.with_currentlySpeaking false)
            (Server.on_this (fun a => Server.with_ttsDisabled
                                        (disable || Server.ttsDisabled a) a)
               (Server.with_speech speech' (Server.with_timers timers' w)))).
  - open_world w. destruct disable, td; evolved.
  - apply evolves_weaken with False; [tauto|]. apply evolves_resolve.
Qed.

Lemma evolves_startPumpFunChat (w : Server.world) :
  evolves False w (snd (Server.startPumpFunChat w)).
Proof.
  open_world w. unfold Server.startPumpFunChat.
  destruct mp; wstep; destruct (ToString ta); try destruct (spawnRefuses ta);
    cbn [snd]; evolved.
Qed.

Lemma evolves_postStart (body : value) (w : Server.world) :
  evolves False w (Server.postStart body w).
Proof.
  unfold Server.postStart.
  destruct (Server.startArguments body) as [[u t]|e].
  - destruct (negb (ToBoolean t)).
    + open_world w. evolved.
    + destruct (bind (ToString u) (fun _ => ToString t)).
      * apply evolves_trans with (Server.on_this (Server.with_target u t) w).
        { open_world w. evolved. }
        apply evolves_trans
          with (snd (Server.startPumpFunChat (Server.on_this (Server.with_target u t) w))).
        { apply evolves_startPumpFunChat. }
        destruct (Server.startPumpFunChat (Server.on_this (Server.with_target u t) w))
          as [[[]|e] w0]; cbn [snd]; open_world w0; evolved.
      * open_world w. evolved.
  - open_world w. evolved.
Qed.

Lemma turn_of_evolves (e : Server.event) (w w' : Server.world) :
  evolves (failure e) w w' -> turn e w w'.
Proof.
  intros [Q P D C T]. constructor; auto.
Qed.

(** A tick that finds the processor idle and the queue non-empty: the
    turn is [begun], followed by announcer and bookkeeping work. *)
Lemma tick_begun (u : draw) (tts : Server.say) (w : Server.world)
      (c : Server.comment) (rest : list Server.comment) :
  Server.isProcessing (Server.this w) = false ->
  Server.commentQueue (Server.this w) = c :: rest ->
  printable c ->
  evolves (tts = Server.SayThrows) (begun c rest w)
          (Server.drain (Server.tick u tts w)).
Proof.
  intros Hidle Hq Hc. unfold Server.tick. rewrite Hidle, Hq.
  cbn [negb andb List.length Nat.ltb Nat.leb].
  rewrite (processNextComment_eq u tts w c rest Hidle Hq Hc).
  destruct (Server.generateBegin _ _ _).
  - eapply evolves_trans; [apply evolves_afterGenerate|].
    apply evolves_weaken with False; [tauto|apply evolves_drain].
  - eapply evolves_trans;
      [apply evolves_weaken with False; [tauto|apply evolves_suspend]|].
    apply evolves_weaken with False; [tauto|apply evolves_drain].
Qed.

Section Turns.

Variable md5_hex : string -> string.
Variable json_decode : string -> option value.

Lemma tick_turn (u : draw) (tts : Server.say) (w : Server.world) :
  turn (Server.Tick u tts) w (Server.drain (Server.tick u tts w)).
Proof.
  destruct (negb (Server.isProcessing (Server.this w))
            && (0 <? List.length (Server.commentQueue (Server.this w)))) eqn:Hgo.
  2:{ unfold Server.tick. rewrite Hgo.
      apply turn_of_evolves, evolves_weaken with False; [tauto|apply evolves_drain]. }
  pose proof Hgo as Hgo'.
  apply andb_prop in Hgo. destruct Hgo as [Hidle _]. apply negb_true_iff in Hidle.
  destruct (Server.commentQueue (Server.this w)) as [|c rest] eqn:Hq.
  { unfold Server.tick, Server.processNextComment. rewrite Hidle, Hq. cbn [negb andb].
    destruct (0 <? List.length _);
      apply turn_of_evolves, evolves_weaken with False; try tauto; apply evolves_drain. }
  destruct (printable_or_not c) as [Hc|[e He]].
  - destruct (begun_facts c rest w) as [Bq [Bp [Bd [_ [_ Bt]]]]].
    destruct (tick_begun u tts w c rest Hidle Hq Hc) as [Q P D C [more [T U]]].
    constructor.
    + intro H. apply D. now rewrite Bd.
    + intro H. destruct (C H) as [H'|H']; [left; now rewrite <- Bd | now right].
    + eexists. split.
      * rewrite T, Bt. rewrite <- app_assoc. reflexivity.
      * intro H. apply Forall_app. split.
        -- repeat constructor.
        -- apply U. now rewrite Bd.
    + intros _. right. exists c. now rewrite Q, Bq.
  - unfold Server.tick. rewrite Hidle, Hq. cbn [negb andb List.length Nat.ltb Nat.leb].
    rewrite (processNextComment_unprintable u tts w c rest e Hidle Hq He).
    set (w1 := Server.finish _).
    assert (F : Server.commentQueue (Server.this w1) = rest /\
                Server.ttsDisabled (Server.this w1) = Server.ttsDisabled (Server.this w) /\
                Server.trace w1
                = Server.trace w ++ [Server.Dequeued c; Server.ErrorLogged]).
    { unfold w1. open_world w. wstep. repeat split. now rewrite <- app_assoc. }
    destruct F as [Fq [Fd Ft]].
    destruct (evolves_drain w1) as [Q P D C [more [T U]]].
    constructor.
    + intro H. apply D. now rewrite Fd.
    + intro H. destruct (C H) as [H'|[]]. left. now rewrite <- Fd.
    + eexists. split.
      * rewrite T, Ft. rewrite <- app_assoc. reflexivity.
      * intro H. apply Forall_app. split.
        -- repeat constructor.
        -- apply U. now rewrite Fd.
    + intros _. right. exists c. now rewrite Q, Fq.
Qed.

Lemma step_turn (w : Server.world) (e : Server.event) :
  turn e w (Server.step md5_hex json_decode w e).
Proof.
  unfold Server.step.
  assert (Hdrain : forall w0, evolves (failure e) w w0 ->
                              turn e w (Server.drain w0)).
  { intros w0 H. apply turn_of_evolves. eapply evolves_trans; [exact H|].
    apply evolves_weaken with False; [tauto|apply evolves_drain]. }
  destruct e as [u tts|o tts|k err|k|chunk clock|body| |pid|];
    cbn [Server.handle].
  - destruct (0 <? Server.intervals w).
    + apply tick_turn.
    + apply Hdrain, evolves_refl.
  - apply Hdrain.
    destruct (Server.takeGenerating (Server.tasks w)) as [[[[c sel] p] rest]|].
    + eapply evolves_trans; [|apply evolves_afterGenerate].
      open_world w. evolved.
    + apply evolves_refl.
  - apply Hdrain.
    destruct (Server.mem k (Server.speech w)); [|apply evolves_refl].
    rewrite sayCallback_conclude. apply evolves_conclude.
  - apply Hdrain.
    destruct (Server.armed k (Server.timers w)); [|apply evolves_refl].
    rewrite ttsTimeout_conclude.
    apply evolves_weaken with (true = true); [easy|apply evolves_conclude].
  - pose proof (evolves_drain
                  (Server.on_this
                     (fun a => snd (Server.parseAndQueueComments md5_hex json_decode
                                      chunk clock a)) w)) as [Q P D C [more [T U]]].
    assert (Etd : Server.ttsDisabled
                    (Server.this
                       (Server.on_this
                          (fun a => snd (Server.parseAndQueueComments md5_hex
                                           json_decode chunk clock a)) w))
                  = Server.ttsDisabled (Server.this w)).
    { destruct (forEachLine_printable md5_hex json_decode (Text.split Text.LF chunk)
                  clock 0 (Server.this w)) as [_ [_ [_ [_ [H5 _]]]]].
      cbv zeta in H5. open_world w. cbn [Server.this Server.on_this].
      rewrite parseAndQueueComments_eq. exact H5. }
    assert (Et : Server.trace
                   (Server.on_this
                      (fun a => snd (Server.parseAndQueueComments md5_hex json_decode
                                       chunk clock a)) w) = Server.trace w)
      by (open_world w; reflexivity).
    constructor.
    + intro H. apply D. now rewrite Etd.
    + intro H. left. destruct (C H) as [H'|[]]. now rewrite <- Etd.
    + exists more. split; [now rewrite T, Et|]. intro H. apply U. now rewrite Etd.
    + intro H. exfalso. now apply H.
  - apply Hdrain, evolves_postStart.
  - apply Hdrain, evolves_refl.
  - apply Hdrain. destruct (pid <? Server.spawned w); [|apply evolves_refl].
    open_world w. evolved.
  - apply Hdrain. destruct (Server.restarts w) as [|n] eqn:Hr; [apply evolves_refl|].
    unfold Server.restartTimer.
    destruct (ToBoolean _).
    + eapply evolves_trans; [|apply evolves_startPumpFunChat].
      open_world w. evolved.
    + open_world w. evolved.
Qed.

End Turns.

Lemma invariant_sequential (w : Server.world) : invariant w -> sequential (Server.trace w).
Proof.
  intros [Ht _ _]. unfold sequential.
  destruct (Server.tasks w) as [|[c sel p|c k] [|t2 more]]; try contradiction.
  - destruct Ht as [_ [_ [-> _]]]. discriminate.
  - destruct Ht as [_ [_ [-> _]]]. discriminate.
  - destruct Ht as [_ [_ [_ [-> _]]]]. discriminate.
Qed.

(** The end of the call in flight, spelled out. *)
Lemma conclude_result (c : Server.comment) (j : nat) (disable : bool)
      (w : Server.world) (speech' : list nat) :
  invariant w -> Server.tasks w = [Server.AwaitSpeak c j] ->
  let w' := Server.drain (conclude j disable [] speech' w) in
  Server.tasks w' = [] /\
  Server.isProcessing (Server.this w') = false /\
  Server.currentlySpeaking (Server.this w') = false /\
  Server.ttsDisabled (Server.this w') = disable /\
  Server.mem j (Server.settled w') = true /\
  Server.timers w' = [] /\
  Server.trace w' = Server.trace w ++ [Server.Resolved j].
Proof.
  intros Hinv E.
  destruct (speaking_facts w c j Hinv E)
    as [Hb [Hcs [Htd [Hp [Hnew [Hlt [Hpr [Htm Hsp]]]]]]]].
  open_world w. simpl in *. subst. unfold conclude.
  wstep. rewrite Hnew. wstep. cbn [filter]. rewrite mem_head. cbn [filter negb].
  wstep. repeat split; auto.
  - apply orb_false_r.
  - apply mem_head.
Qed.

Lemma speakResponse_paths (r : value) (tts : Server.say) (w : Server.world) :
  Server.mem (Server.calls w) (Server.settled w) = false ->
  let k := Server.calls w in
  let w' := Server.speakResponse r tts w in
  match Server.ttsDisabled (Server.this w), tts with
  | true, _ =>
      Server.mem k (Server.settled w') = true /\
      Server.currentlySpeaking (Server.this w') = false /\
      Server.timers w' = Server.timers w /\ Server.speech w' = Server.speech w /\
      Server.trace w'
      = Server.trace w ++ [Server.SpeakCalled k r; Server.Resolved k;
                           Server.AvatarAnimation r]
  | false, Server.SayThrows =>
      Server.mem k (Server.settled w') = true /\
      Server.currentlySpeaking (Server.this w') = false /\
      Server.ttsDisabled (Server.this w') = true
  | false, Server.SayStarts =>
      Server.mem k (Server.settled w') = false /\
      Server.currentlySpeaking (Server.this w') = true /\
      Server.ttsDisabled (Server.this w') = false /\
      Server.timers w' = Server.timers w ++ [(k, 5000%N)] /\
      Server.speech w' = Server.speech w ++ [k] /\
      Server.trace w'
      = Server.trace w ++ [Server.SpeakCalled k r; Server.TimerSet k 5000;
                           Server.SayInvoked k r; Server.AvatarAnimation r]
  end.
Proof.
  intros Hnew. open_world w. simpl in Hnew. cbv zeta.
  destruct td, tts; wstep; rewrite ?Hnew; wstep; repeat split;
    try apply mem_head; try assumption; now repeat rewrite <- app_assoc.
Qed.

Lemma afterGenerate_tasks (c : Server.comment) (r : completion value)
      (tts : Server.say) (w : Server.world) :
  Server.tasks w = [] ->
  let w' := Server.drain (Server.afterGenerate c r tts w) in
  Server.tasks w' = [] \/ exists k, Server.tasks w' = [Server.AwaitSpeak c k].
Proof.
  intros Et. open_world w. simpl in Et. subst tasks. cbv zeta.
  destruct r as [response|e], td, tts;
    destruct (Server.mem calls settled) eqn:E;
    wstep; rewrite ?E; wstep; cbn [app filter];
    rewrite ?mem_head, ?E; cbn [filter negb];
    first [ left; reflexivity | right; eexists; reflexivity ].
Qed.

(** ** The processor *)

(** C3.  In every state the program can reach, at most one invocation of
    [processNextComment] is suspended, [isProcessing] is set exactly while
    one is, and the calls of [generateResponse] and [speakResponse] in the
    trace never overlap.  A tick that finds the processor idle and the
    queue non-empty takes the head off the queue, marks its id processed
    before [generateResponse] is called, and ends either idle again or
    busy with that one comment.  A pending backend call and a pending
    announcement end on whatever settles them, the latter leaving the
    processor idle; a rejection of [generateResponse] is caught and leaves
    it idle; and no callback but the intake ever puts a comment into the
    queue. *)
Theorem C3_processor_single_flight
        (md5_hex : string -> string) (json_decode : string -> option value)
        (w : Server.world) :
  Server.reachable md5_hex json_decode w ->
  let step := Server.step md5_hex json_decode in
  (List.length (Server.tasks w) <= 1
   /\ (Server.isProcessing (Server.this w) = true <-> Server.tasks w <> [])
   /\ sequential (Server.trace w))
  /\ (forall u tts c rest,
        Server.isProcessing (Server.this w) = false ->
        Server.commentQueue (Server.this w) = c :: rest ->
        0 < Server.intervals w ->
        let w' := step w (Server.Tick u tts) in
        Server.commentQueue (Server.this w') = rest
        /\ In (Server.id c) (Server.processedComments (Server.this w'))
        /\ (exists more,
               Server.trace w'
               = Server.trace w ++ Server.Dequeued c :: Server.MarkedProcessed (Server.id c)
                                   :: Server.GenerateCalled c :: more)
        /\ (Server.tasks w' = [] /\ Server.isProcessing (Server.this w') = false
            \/ exists t, Server.tasks w' = [t]
                         /\ Server.isProcessing (Server.this w') = true))
  /\ (forall c sel p o tts,
        Server.tasks w = [Server.AwaitGenerate c sel p] ->
        let w' := step w (Server.BackendSettled o tts) in
        Server.commentQueue (Server.this w') = Server.commentQueue (Server.this w)
        /\ (Server.tasks w' = [] /\ Server.isProcessing (Server.this w') = false
            \/ exists k, Server.tasks w' = [Server.AwaitSpeak c k]
                         /\ Server.isProcessing (Server.this w') = true))
  /\ (forall c k e,
        Server.tasks w = [Server.AwaitSpeak c k] ->
        e = Server.TtsTimeout k \/ (exists err, e = Server.SayCallback k err) ->
        let w' := step w e in
        Server.tasks w' = [] /\ Server.isProcessing (Server.this w') = false
        /\ Server.commentQueue (Server.this w') = Server.commentQueue (Server.this w))
  /\ (forall c err tts,
        let w' := Server.afterGenerate c (Throw err) tts w in
        Server.isProcessing (Server.this w') = false
        /\ Server.commentQueue (Server.this w') = Server.commentQueue (Server.this w)
        /\ Server.tasks w' = Server.tasks w
        /\ Server.trace w'
           = Server.trace w ++ [Server.GenerateSettled c (Throw err); Server.ErrorLogged])
  /\ (forall e,
        ~ isOutput e ->
        let w' := step w e in
        Server.commentQueue (Server.this w') = Server.commentQueue (Server.this w)
        \/ exists c, Server.commentQueue (Server.this w)
                     = c :: Server.commentQueue (Server.this w')).
Proof.
  intros Hreach step.
  pose proof (reachable_invariant md5_hex json_decode w Hreach) as Hinv.
  split; [|split; [|split; [|split; [|split]]]].
  - split; [|split].
    + destruct (invariant_tasks_cases w Hinv) as [[-> _]|[t [-> _]]]; simpl; lia.
    + destruct (invariant_tasks_cases w Hinv) as [[E Hb]|[t [E Hb]]]; rewrite E, Hb;
        split; intro H; try discriminate; try reflexivity. now contradiction H.
    + now apply invariant_sequential.
  - intros u tts c rest Hidle Hq Hiv w'.
    assert (Ew : w' = Server.drain (Server.tick u tts w)).
    { unfold w', step, Server.step. cbn [Server.handle].
      apply Nat.ltb_lt in Hiv. now rewrite Hiv. }
    pose proof (step_invariant md5_hex json_decode w (Server.Tick u tts) Hinv) as Hinv'.
    fold (step w (Server.Tick u tts)) in Hinv'. fold w' in Hinv'.
    assert (Hc : printable c).
    { destruct Hinv as [_ _ Hqu]. rewrite Hq in Hqu. now inversion Hqu. }
    destruct (tick_begun u tts w c rest Hidle Hq Hc) as [Q P _ _ [more [T _]]].
    rewrite <- Ew in Q, P, T.
    destruct (begun_facts c rest w) as [Bq [Bp [_ [_ [_ Bt]]]]].
    split; [now rewrite Q|]. split; [rewrite P, Bp; apply add_In|].
    split; [exists more; rewrite T, Bt; now rewrite <- app_assoc|].
    now apply invariant_tasks_cases.
  - intros c sel p o tts Et w'.
    assert (Ew : w' = Server.drain
                        (Server.afterGenerate c (Server.generateResume sel p o) tts
                           (Server.with_tasks [] w))).
    { unfold w', step, Server.step. cbn [Server.handle]. now rewrite Et. }
    pose proof (step_invariant md5_hex json_decode w (Server.BackendSettled o tts) Hinv)
      as Hinv'.
    fold (step w (Server.BackendSettled o tts)) in Hinv'. fold w' in Hinv'.
    split.
    + rewrite Ew.
      rewrite (ev_queue _ _ _ (evolves_drain _)).
      rewrite (ev_queue _ _ _ (evolves_afterGenerate c _ tts _)).
      open_world w. reflexivity.
    + destruct (afterGenerate_tasks c (Server.generateResume sel p o) tts
                  (Server.with_tasks [] w)) as [E|[k E]];
        [open_world w; reflexivity| |]; rewrite <- Ew in E.
      * left. split; [exact E|].
        destruct (invariant_tasks_cases w' Hinv') as [[_ H]|[t [E' _]]];
          [exact H | rewrite E in E'; discriminate].
      * right. exists k. split; [exact E|].
        destruct (invariant_tasks_cases w' Hinv') as [[E' _]|[t [_ H]]];
          [rewrite E in E'; discriminate | exact H].
  - intros c k e Et He w'.
    destruct (speaking_facts w c k Hinv Et) as [_ [_ [_ [_ [_ [_ [_ [Htm Hsp]]]]]]]].
    assert (Ew : exists disable speech',
               w' = Server.drain (conclude k disable [] speech' w)).
    { destruct He as [->|[err ->]]; unfold w', step, Server.step; cbn [Server.handle].
      - assert (Ha : Server.armed k (Server.timers w) = true).
        { rewrite Htm. unfold Server.armed. cbn [existsb fst].
          now rewrite Nat.eqb_refl. }
        rewrite Ha, ttsTimeout_conclude, Htm, clearTimeout_one. eauto.
      - assert (Ha : Server.mem k (Server.speech w) = true).
        { rewrite Hsp. apply mem_head. }
        rewrite Ha, sayCallback_conclude, Htm, Hsp, clearTimeout_one, remove_one.
        eauto. }
    destruct Ew as [disable [speech' Ew]].
    destruct (conclude_result c k disable w speech' Hinv Et) as [H1 [H2 _]].
    rewrite <- Ew in H1, H2. split; [exact H1|]. split; [exact H2|].
    rewrite Ew.
    rewrite (ev_queue _ _ _ (evolves_drain _)).
    now rewrite (ev_queue _ _ _ (evolves_conclude k disable [] speech' w)).
  - intros c err tts w'. unfold w'. open_world w. wstep. repeat split.
    now rewrite <- app_assoc.
  - intros e He w'.
    exact (turn_queue _ _ _ (step_turn md5_hex json_decode w e) He).
Qed.

Lemma reachable_printable md5_hex json_decode (w : Server.world) (c : Server.comment) :
  Server.reachable md5_hex json_decode w ->
  In c (Server.commentQueue (Server.this w)) -> printable c.
Proof.
  intros Hr Hin. destruct (reachable_invariant _ _ _ Hr) as [_ _ Hq].
  rewrite Forall_forall in Hq. now apply Hq.
Qed.

(** C4.  [generateResponse] returns a non-empty text and never rejects,
    for every comment the processor can take off the queue and whatever
    the backend does; without a backend, or when the backend call fails,
    the text is one of the canned strings for the sender.  The same holds
    of [generateResponse] in [app.js]. *)
Theorem C4_generate_returns_nonempty_text
        (md5_hex : string -> string) (json_decode : string -> option value)
        (w : Server.world) (c : Server.comment) (c' : App.comment)
        (u : draw) (g : bool) (o : backend) :
  Server.reachable md5_hex json_decode w ->
  In c (Server.commentQueue (Server.this w)) ->
  (exists name s,
      ToString (Server.user c) = Return name /\
      Server.generateResponse c u g o = Return (VString s) /\ s <> EmptyString /\
      (g = false \/ o = Rejects \/ o = Malformed -> In s (canned name)))
  /\ (exists s,
         App.generateResponse c' u g o = Return (VString s) /\ s <> EmptyString /\
         (g = false \/ o = Rejects \/ o = Malformed -> In s (cannedApp (App.user c')))).
Proof.
  intros Hr Hin. split.
  - destruct (reachable_printable _ _ _ _ Hr Hin) as [name [text [Hname _]]].
    destruct (server_generate_total c u g o name Hname) as [s H].
    exists name, s. tauto.
  - apply app_generate_total.
Qed.

Lemma run_disabled md5_hex json_decode (es : list Server.event) (w : Server.world) :
  Server.ttsDisabled (Server.this w) = true ->
  Server.ttsDisabled (Server.this (Server.run md5_hex json_decode w es)) = true.
Proof.
  revert w. induction es as [|e es IH]; intros w H; simpl; [exact H|].
  apply IH. exact (turn_disabled _ _ _ (step_turn md5_hex json_decode w e) H).
Qed.

Lemma reachable_fresh md5_hex json_decode (w : Server.world) :
  Server.reachable md5_hex json_decode w ->
  Server.mem (Server.calls w) (Server.settled w) = false.
Proof.
  intro Hr. destruct (reachable_invariant _ _ _ Hr) as [_ Hfr _].
  now apply mem_fresh.
Qed.

Lemma disabled_not_speaking (w : Server.world) :
  invariant w -> Server.ttsDisabled (Server.this w) = true ->
  forall c k, ~ In (Server.AwaitSpeak c k) (Server.tasks w).
Proof.
  intros [Ht _ _] Htd c k Hin.
  destruct (Server.tasks w) as [|[c0 sel p|c0 k0] [|t2 more]]; try contradiction.
  - destruct Hin as [H|[]]. discriminate.
  - destruct Ht as [_ [_ [H _]]]. congruence.
Qed.

(** C5.  Speech, once disabled, stays disabled for the rest of the run; it
    becomes disabled only in a turn that tells of a failure of
    [say.speak] or of the timeout.  While it is disabled a turn arms no
    timer and never calls [say.speak], no call of [speakResponse] is
    left pending at its end, and [speakResponse] resolves its promise
    before it returns. *)
Theorem C5_announcer_only_disables
        (md5_hex : string -> string) (json_decode : string -> option value)
        (w : Server.world) (e : Server.event) (es : list Server.event) :
  Server.reachable md5_hex json_decode w ->
  let w' := Server.step md5_hex json_decode w e in
  (Server.ttsDisabled (Server.this w) = true ->
   Server.ttsDisabled (Server.this w') = true /\
   Server.ttsDisabled (Server.this (Server.run md5_hex json_decode w es)) = true)
  /\ (Server.ttsDisabled (Server.this w) = false ->
      Server.ttsDisabled (Server.this w') = true -> failure e)
  /\ (Server.ttsDisabled (Server.this w) = true ->
      (exists more, Server.trace w' = Server.trace w ++ more /\ Forall unvoiced more)
      /\ (forall c k, ~ In (Server.AwaitSpeak c k) (Server.tasks w'))
      /\ (forall r tts,
             let k := Server.calls w in
             let w1 := Server.speakResponse r tts w in
             Server.mem k (Server.settled w1) = true
             /\ Server.timers w1 = Server.timers w
             /\ Server.speech w1 = Server.speech w
             /\ Server.trace w1
                = Server.trace w ++ [Server.SpeakCalled k r; Server.Resolved k;
                                     Server.AvatarAnimation r])).
Proof.
  intros Hr w'.
  pose proof (step_turn md5_hex json_decode w e) as [D C [more [T U]] _].
  fold w' in D, C, T.
  split; [|split].
  - intro H. split; [now apply D | now apply run_disabled].
  - intros H0 H1. destruct (C H1) as [H|H]; [congruence | exact H].
  - intro H. split; [|split].
    + exists more. auto.
    + apply disabled_not_speaking; [|now apply D].
      apply reachable_invariant with md5_hex json_decode.
      now apply reachable_step.
    + intros r tts k w1.
      pose proof (speakResponse_paths r tts w (reachable_fresh _ _ _ Hr)) as P.
      cbv zeta in P. rewrite H in P. tauto.
Qed.

(** C6.  Every call of [speakResponse] comes to its [resolve].  It
    resolves before returning when speech is disabled and when
    [say.speak] throws; otherwise it leaves a timer of 5000 ms armed.
    Whenever a call is pending, that timer is armed, and both the timer
    and the callback of [say.speak], with or without an error, resolve
    the call and leave the processor idle; the timer disables speech. *)
Theorem C6_announce_always_completes
        (md5_hex : string -> string) (json_decode : string -> option value)
        (w : Server.world) :
  Server.reachable md5_hex json_decode w ->
  let step := Server.step md5_hex json_decode in
  (forall r tts,
      let k := Server.calls w in
      let w1 := Server.speakResponse r tts w in
      match Server.ttsDisabled (Server.this w), tts with
      | true, _ => Server.mem k (Server.settled w1) = true
      | false, Server.SayThrows =>
          Server.mem k (Server.settled w1) = true /\
          Server.ttsDisabled (Server.this w1) = true
      | false, Server.SayStarts =>
          In (k, 5000%N) (Server.timers w1) /\ In k (Server.speech w1)
      end)
  /\ (forall c k,
         In (Server.AwaitSpeak c k) (Server.tasks w) ->
         Server.timers w = [(k, 5000%N)]
         /\ Server.speech w = [k]
         /\ (let w' := step w (Server.TtsTimeout k) in
             Server.ttsDisabled (Server.this w') = true /\
             Server.mem k (Server.settled w') = true /\
             Server.tasks w' = [] /\
             Server.isProcessing (Server.this w') = false)
         /\ (forall err,
                let w' := step w (Server.SayCallback k err) in
                Server.ttsDisabled (Server.this w') = err /\
                Server.mem k (Server.settled w') = true /\
                Server.tasks w' = [] /\
                Server.isProcessing (Server.this w') = false)).
Proof.
  intros Hr step.
  pose proof (reachable_invariant _ _ _ Hr) as Hinv.
  split.
  - intros r tts k w1.
    pose proof (speakResponse_paths r tts w (reachable_fresh _ _ _ Hr)) as P.
    cbv zeta in P. fold k in P. fold w1 in P.
    destruct (Server.ttsDisabled (Server.this w)), tts; try tauto.
    destruct P as [_ [_ [_ [-> [-> _]]]]].
    split; apply in_or_app; right; now left.
  - intros c k Hin.
    assert (Et : Server.tasks w = [Server.AwaitSpeak c k]).
    { destruct Hinv as [Ht _ _].
      destruct (Server.tasks w) as [|[c0 sel p|c0 k0] [|t2 more]]; try contradiction.
      - destruct Hin as [H|[]]. discriminate.
      - destruct Hin as [H|[]]. now rewrite H. }
    destruct (speaking_facts w c k Hinv Et) as [_ [_ [_ [_ [_ [_ [_ [Htm Hsp]]]]]]]].
    split; [exact Htm|]. split; [exact Hsp|]. split.
    + intro w'.
      assert (Ew : w' = Server.drain (conclude k true [] [k] w)).
      { unfold w', step, Server.step. cbn [Server.handle].
        assert (Ha : Server.armed k (Server.timers w) = true).
        { rewrite Htm. unfold Server.armed. cbn [existsb fst].
          now rewrite Nat.eqb_refl. }
        now rewrite Ha, ttsTimeout_conclude, Htm, Hsp, clearTimeout_one. }
      destruct (conclude_result c k true w [k] Hinv Et) as [H1 [H2 [_ [H4 [H5 _]]]]].
      rewrite <- Ew in *. tauto.
    + intros err w'.
      assert (Ew : w' = Server.drain (conclude k err [] [] w)).
      { unfold w', step, Server.step. cbn [Server.handle].
        assert (Ha : Server.mem k (Server.speech w) = true).
        { rewrite Hsp. apply mem_head. }
        now rewrite Ha, sayCallback_conclude, Htm, Hsp, clearTimeout_one, remove_one. }
      destruct (conclude_result c k err w [] Hinv Et) as [H1 [H2 [_ [H4 [H5 _]]]]].
      rewrite <- Ew in *. tauto.
Qed.

(** C10.  The status endpoint reports [currentlySpeaking] as true exactly
    while a call of [speakResponse] is pending, its promise not yet
    resolved.  [speakResponse] leaves the flag set when it returns with
    the call pending, and reset when it has resolved; the callback of
    [say.speak] and the timeout reset it; and after any turn that leaves
    no call pending the endpoint reports false. *)
Theorem C10_currentlySpeaking_only_in_flight
        (md5_hex : string -> string) (json_decode : string -> option value)
        (w : Server.world) :
  Server.reachable md5_hex json_decode w ->
  (Server.statusCurrentlySpeaking (Server.getStatus w) = true <->
   exists c k, Server.tasks w = [Server.AwaitSpeak c k] /\
               Server.mem k (Server.settled w) = false)
  /\ (forall r tts,
         let w1 := Server.speakResponse r tts w in
         Server.currentlySpeaking (Server.this w1)
         = negb (Server.mem (Server.calls w) (Server.settled w1)))
  /\ (forall k err w0,
         Server.currentlySpeaking (Server.this (Server.sayCallback k err w0)) = false /\
         Server.currentlySpeaking (Server.this (Server.ttsTimeout k w0)) = false)
  /\ (forall e,
         let w' := Server.step md5_hex json_decode w e in
         (forall c k, ~ In (Server.AwaitSpeak c k) (Server.tasks w')) ->
         Server.statusCurrentlySpeaking (Server.getStatus w') = false).
Proof.
  intros Hr.
  assert (Hstatus : forall w0, invariant w0 ->
            (Server.currentlySpeaking (Server.this w0) = true <->
             exists c k, Server.tasks w0 = [Server.AwaitSpeak c k] /\
                         Server.mem k (Server.settled w0) = false)).
  { intros w0 [Ht _ _].
    destruct (Server.tasks w0) as [|[c0 sel p|c0 k0] [|t2 more]]; try contradiction.
    - destruct Ht as [_ [-> _]]. split; [discriminate|]. intros [c [k [H _]]]. discriminate.
    - destruct Ht as [_ [-> _]]. split; [discriminate|]. intros [c [k [H _]]]. discriminate.
    - destruct Ht as [_ [-> [_ [_ [Hk _]]]]]. split; [|reflexivity].
      intros _. exists c0, k0. auto. }
  split; [|split; [|split]].
  - apply Hstatus. now apply reachable_invariant with md5_hex json_decode.
  - intros r tts w1.
    pose proof (speakResponse_paths r tts w (reachable_fresh _ _ _ Hr)) as P.
    cbv zeta in P. fold w1 in P.
    destruct (Server.ttsDisabled (Server.this w)), tts.
    + destruct P as [-> [-> _]]. reflexivity.
    + destruct P as [-> [-> _]]. reflexivity.
    + destruct P as [-> [-> _]]. reflexivity.
    + destruct P as [-> [-> _]]. reflexivity.
  - intros k err w0. split.
    + open_world w0. unfold Server.sayCallback, Server.resolve.
      destruct err; wstep; destruct (Server.mem k settled); reflexivity.
    + open_world w0. unfold Server.ttsTimeout, Server.resolve.
      wstep; destruct (Server.mem k settled); reflexivity.
  - intros e w' Hno.
    assert (Hinv' : invariant w').
    { apply reachable_invariant with md5_hex json_decode. now apply reachable_step. }
    cbn [Server.getStatus Server.statusCurrentlySpeaking].
    destruct (Server.currentlySpeaking (Server.this w')) eqn:E; [|reflexivity].
    apply (Hstatus w' Hinv') in E. destruct E as [c [k [E _]]].
    exfalso. apply (Hno c k). rewrite E. now left.
Qed.

(** ** The scenario of the specification *)

(** C8.  The chunk [New message from alice: gm wagmi] queues exactly one
    comment, from [alice] with the text [gm wagmi] (unless its id is
    already processed); the text contains a crypto term, so that
    [generateResponse] selects its answer from [cryptoResponses]. *)
Theorem C8_new_message_scenario
        (md5_hex : string -> string) (json_decode : string -> option value)
        (clock : nat -> N) (st : Server.app) (u : draw) (g : bool) :
  let line := "New message from alice: gm wagmi" in
  let cid := VString ("alice_" ^^ Text.take 8 (md5_hex "alice:gm wagmi")) in
  let c := Server.mkComment cid (VString "alice") (VString "gm wagmi") (clock 0) in
  has (Server.processedComments st) cid = false ->
  Server.parseAndQueueComments md5_hex json_decode line clock st
  = (Return tt, Server.with_commentQueue (Server.commentQueue st ++ [c]) st)
  /\ Server.containsCrypto "gm wagmi" = true
  /\ In "wagmi" Server.cryptoTerms
  /\ exists s, In s (Server.cryptoResponses "alice") /\
               (Server.generateBegin c u g = Server.Finished (Return (VString s)) \/
                exists prompt,
                  Server.generateBegin c u g = Server.AwaitingBackend (VString s) prompt).
Proof.
  intros line cid c Hnew. split; [|split; [|split]].
  - rewrite parseAndQueueComments_eq.
    change (Text.split Text.LF line) with [line].
    rewrite forEachLine_cons. cbn [Server.forEachLine].
    unfold Server.parseLine, tryCatch.
    change (String.eqb (Text.trim line) EmptyString) with false. cbv iota.
    unfold Server.structured at 1, bindM, lift.
    change (JSON_parse json_decode line) with (@Throw value SyntaxError). cbv iota.
    unfold Server.plainText.
    change (Server.match2 Regex.newMessageRe line) with (Some ("alice", "gm wagmi")).
    cbv iota.
    change (Text.trim "alice") with "alice".
    change (Text.trim "gm wagmi") with "gm wagmi".
    rewrite queueComment_eq, commentId_text.
    unfold Server.contentHash. change ("alice" ^^ ":" ^^ "gm wagmi") with "alice:gm wagmi".
    change ("alice" ^^ "_" ^^ Text.take 8 (md5_hex "alice:gm wagmi"))
      with ("alice_" ^^ Text.take 8 (md5_hex "alice:gm wagmi")).
    fold cid. rewrite Hnew. reflexivity.
  - reflexivity.
  - simpl. tauto.
  - unfold Server.generateBegin. cbn [Server.user Server.message c ToString bind
                                       Server.callToLowerCase].
    change (Server.someCryptoTerm (Text.toLowerCase "gm wagmi")) with true. cbv iota.
    destruct (element_in_range (Server.cryptoResponses "alice")
                (randomIndex u (List.length (Server.cryptoResponses "alice"))))
      as [s [E Hin]].
    { apply randomIndex_lt. simpl. lia. }
    exists s. split; [exact Hin|]. rewrite E.
    destruct g; cbn [ToString]; [right; eexists; reflexivity | left; reflexivity].
Qed.

Lemma C8_witness :
  has (Server.processedComments Server.constructed)
      (VString ("alice_" ^^ Text.take 8 ((fun s : string => s) "alice:gm wagmi"))) = false
  /\ Server.commentQueue
       (snd (Server.parseAndQueueComments (fun s => s) (fun _ => None)
               "New message from alice: gm wagmi" (fun _ => 7%N) Server.constructed))
     = [Server.mkComment (VString "alice_alice:gm") (VString "alice")
                         (VString "gm wagmi") 7].
Proof.
  split; [reflexivity|].
  rewrite (proj1 (C8_new_message_scenario (fun s => s) (fun _ => None) (fun _ => 7%N)
                    Server.constructed (mkDraw 0 eq_refl) false eq_refl)).
  reflexivity.
Defined.

(** ** The start endpoint *)




(** When no child but the one in [mcpProcess] is left among the
    children, a restart leaves exactly the new child there. *)
Lemma childrenAfter_single (prior : option nat) (pid : nat) (held : list nat) :
  held = [] \/ (exists p, prior = Some p /\ held = [p]) ->
  childrenAfter prior pid held = [pid].
Proof.
  unfold childrenAfter. intros [->|[p [-> ->]]].
  - now destruct prior.
  - now rewrite remove_one.
Qed.


(** ** A run of the program *)

Lemma sampleQueued_reachable : Server.reachable sampleHash sampleDecode sampleQueued.
Proof. exists false, sampleEvents. reflexivity. Qed.

Lemma sampleSpeaking_reachable : Server.reachable sampleHash sampleDecode sampleSpeaking.
Proof.
  exact (reachable_step sampleHash sampleDecode sampleQueued
           (Server.Tick sampleDraw Server.SayStarts) sampleQueued_reachable).
Qed.

Lemma sampleDisabled_reachable : Server.reachable sampleHash sampleDecode sampleDisabled.
Proof.
  exact (reachable_step sampleHash sampleDecode sampleSpeaking
           (Server.TtsTimeout 0) sampleSpeaking_reachable).
Qed.

Lemma C3_witness :
  Server.reachable sampleHash sampleDecode sampleQueued /\
  Server.commentQueue
    (Server.this (Server.step sampleHash sampleDecode sampleQueued
                              (Server.Tick sampleDraw Server.SayStarts))) = [] /\
  sequential (Server.trace sampleQueued).
Proof.
  split; [exact sampleQueued_reachable|].
  destruct (C3_processor_single_flight sampleHash sampleDecode sampleQueued
              sampleQueued_reachable) as [[_ [_ Hseq]] [Htick _]].
  split; [|exact Hseq].
  refine (proj1 (Htick sampleDraw Server.SayStarts sampleComment [] _ _ _)).
  - vm_compute. reflexivity.
  - vm_compute. reflexivity.
  - vm_compute. lia.
Defined.

Lemma C4_witness :
  Server.reachable sampleHash sampleDecode sampleQueued /\
  In sampleComment (Server.commentQueue (Server.this sampleQueued)) /\
  exists name s,
    ToString (Server.user sampleComment) = Return name /\
    Server.generateResponse sampleComment sampleDraw true Rejects = Return (VString s) /\
    s <> EmptyString /\
    (true = false \/ Rejects = Rejects \/ Rejects = Malformed -> In s (canned name)).
Proof.
  assert (Hin : In sampleComment (Server.commentQueue (Server.this sampleQueued)))
    by (vm_compute; left; reflexivity).
  split; [exact sampleQueued_reachable|]. split; [exact Hin|].
  exact (proj1 (C4_generate_returns_nonempty_text sampleHash sampleDecode sampleQueued
                  sampleComment (App.mkComment "i" "bob" "hi" 0) sampleDraw true Rejects
                  sampleQueued_reachable Hin)).
Defined.

Lemma C5_witness :
  Server.reachable sampleHash sampleDecode sampleDisabled /\
  Server.ttsDisabled (Server.this sampleDisabled) = true /\
  Server.ttsDisabled
    (Server.this (Server.step sampleHash sampleDecode sampleDisabled
                              (Server.SayCallback 0 false))) = true.
Proof.
  split; [exact sampleDisabled_reachable|].
  assert (H : Server.ttsDisabled (Server.this sampleDisabled) = true)
    by (vm_compute; reflexivity).
  split; [exact H|].
  exact (proj1 (proj1 (C5_announcer_only_disables sampleHash sampleDecode sampleDisabled
                         (Server.SayCallback 0 false) [] sampleDisabled_reachable) H)).
Defined.

Lemma C6_witness :
  Server.reachable sampleHash sampleDecode sampleSpeaking /\
  In (Server.AwaitSpeak sampleComment 0) (Server.tasks sampleSpeaking) /\
  Server.timers sampleSpeaking = [(0, 5000%N)].
Proof.
  split; [exact sampleSpeaking_reachable|].
  assert (Hin : In (Server.AwaitSpeak sampleComment 0) (Server.tasks sampleSpeaking))
    by (vm_compute; left; reflexivity).
  split; [exact Hin|].
  exact (proj1 (proj2 (C6_announce_always_completes sampleHash sampleDecode
                         sampleSpeaking sampleSpeaking_reachable)
                      sampleComment 0 Hin)).
Defined.

Lemma C10_witness :
  Server.reachable sampleHash sampleDecode sampleSpeaking /\
  (Server.statusCurrentlySpeaking (Server.getStatus sampleSpeaking) = true <->
   exists c k, Server.tasks sampleSpeaking = [Server.AwaitSpeak c k] /\
               Server.mem k (Server.settled sampleSpeaking) = false).
Proof.
  split; [exact sampleSpeaking_reachable|].
  exact (proj1 (C10_currentlySpeaking_only_in_flight sampleHash sampleDecode
                  sampleSpeaking sampleSpeaking_reachable)).
Defined.

(* ================================================================== *)
(** * Further properties *)
(* ================================================================== *)

(** ** Text and regular expressions *)

Lemma length_append (a b : string) :
  String.length (a ^^ b) = String.length a + String.length b.
Proof. induction a as [|c a IH]; simpl; [reflexivity | now rewrite IH]. Qed.

Lemma take_prefix (u rest : string) :
  Text.take (String.length (u ^^ rest) - String.length rest) (u ^^ rest) = u.
Proof.
  rewrite length_append.
  replace (String.length u + String.length rest - String.length rest)
    with (String.length u) by lia.
  induction u as [|c u IH]; simpl.
  - now destruct rest.
  - now rewrite IH.
Qed.

Lemma run_Lit (A : Type) (s rest : string) (caps : list string) (k : Regex.cont A) :
  Regex.run A (Regex.Lit s) (s ^^ rest) caps k = k rest caps.
Proof.
  revert caps k. induction s as [|c s IH]; intros caps k; simpl.
  - reflexivity.
  - rewrite Ascii.eqb_refl. apply IH.
Qed.

Lemma star_all (A : Type) (p : ascii -> bool) (u rest : string)
      (caps : list string) (k : Regex.cont A) (a : A) :
  allChars p u = true -> blocked p rest = true ->
  k rest caps = Some a ->
  Regex.star A p (u ^^ rest) caps k = Some a.
Proof.
  intros Hu Hrest Hk. induction u as [|c u IH]; simpl in *.
  - destruct rest as [|c r]; simpl in *; [exact Hk|].
    apply negb_true_iff in Hrest. now rewrite Hrest.
  - apply andb_prop in Hu. destruct Hu as [Hc Hu]. rewrite Hc.
    now rewrite (IH Hu).
Qed.

Lemma group_plus (A : Type) (p : ascii -> bool) (u rest : string)
      (caps : list string) (k : Regex.cont A) (a : A) :
  u <> EmptyString -> allChars p u = true -> blocked p rest = true ->
  k rest (caps ++ [u]) = Some a ->
  Regex.run A (Regex.Group (Regex.Plus p)) (u ^^ rest) caps k = Some a.
Proof.
  intros Hne Hu Hrest Hk.
  destruct u as [|c u]; [contradiction|].
  simpl in Hu. apply andb_prop in Hu. destruct Hu as [Hc Hu].
  cbn [Regex.run Regex.Plus]. change (String c u ^^ rest) with (String c (u ^^ rest)).
  cbv beta iota. rewrite Hc.
  apply star_all; [exact Hu | exact Hrest |].
  change (String c (u ^^ rest)) with (String c u ^^ rest).
  now rewrite take_prefix.
Qed.

Lemma append_empty (s : string) : s ^^ EmptyString = s.
Proof. induction s as [|c s IH]; simpl; [reflexivity | now rewrite IH]. Qed.

Lemma group_plus_end (A : Type) (p : ascii -> bool) (u : string)
      (caps : list string) (k : Regex.cont A) (a : A) :
  u <> EmptyString -> allChars p u = true ->
  k EmptyString (caps ++ [u]) = Some a ->
  Regex.run A (Regex.Group (Regex.Plus p)) u caps k = Some a.
Proof.
  intros Hne Hu Hk.
  pose proof (group_plus A p u EmptyString caps k a Hne Hu eq_refl Hk) as H.
  now rewrite append_empty in H.
Qed.

Lemma run_Cat (A : Type) (r1 r2 : Regex.re) (s : string) (caps : list string)
      (k : Regex.cont A) :
  Regex.run A (Regex.Cat r1 r2) s caps k
  = Regex.run A r1 s caps (fun s' caps' => Regex.run A r2 s' caps' k).
Proof. reflexivity. Qed.

Lemma run_Chr (A : Type) (c : ascii) (rest : string) (caps : list string)
      (k : Regex.cont A) :
  Regex.run A (Regex.Chr c) (String c rest) caps k = k rest caps.
Proof. simpl. now rewrite Ascii.eqb_refl. Qed.

Lemma tail_of_shape (ws m : string) (caps : list string) :
  allChars Text.is_space ws = true ->
  m <> EmptyString -> allChars Regex.any_char m = true ->
  blocked Text.is_space m = true ->
  Regex.run (list string)
    (Regex.Cat (Regex.Chr ":")
       (Regex.Cat (Regex.Star Text.is_space) (Regex.Group (Regex.Plus Regex.any_char))))
    (":" ^^ ws ^^ m) caps (fun _ caps' => Some caps')
  = Some (caps ++ [m]).
Proof.
  intros Hws Hne Hm Hb.
  rewrite run_Cat. change (":" ^^ ws ^^ m) with (String ":" (ws ^^ m)).
  rewrite run_Chr, run_Cat.
  change (Regex.run (list string) (Regex.Star Text.is_space))
    with (Regex.star (list string) Text.is_space).
  apply star_all; [exact Hws | exact Hb |].
  now apply group_plus_end.
Qed.

Lemma exec_here (r : Regex.re) (s : string) (caps : list string) :
  Regex.matchHere r s = Some caps -> Regex.exec r s = Some caps.
Proof. intro H. destruct s; simpl; now rewrite H. Qed.

Lemma trim_head (c : ascii) (r : string) :
  Text.is_space c = false ->
  String.eqb (Text.trim (String c r)) EmptyString = false.
Proof.
  intro Hc. unfold Text.trim. cbn [Text.trimStart]. rewrite Hc.
  cbn [Text.trimEnd]. rewrite Hc. now destruct (Text.trimEnd r).
Qed.

Lemma word_not_space (c : ascii) : Text.is_word c = true -> Text.is_space c = false.
Proof.
  destruct c as [[] [] [] [] [] [] [] []]; intro H; try reflexivity; discriminate H.
Qed.

Lemma startsWith_append (t b : string) : Text.startsWith t (t ^^ b) = true.
Proof.
  induction t as [|c t IH]; simpl; [reflexivity|].
  now rewrite Ascii.eqb_refl, IH.
Qed.

Lemma includes_mid (a t b : string) : Text.includes (a ^^ t ^^ b) t = true.
Proof.
  induction a as [|c a IH].
  - simpl. destruct (t ^^ b) eqn:E; simpl; rewrite <- ?E;
      now rewrite startsWith_append.
  - cbn [String.append Text.includes]. rewrite IH. apply orb_true_r.
Qed.

Lemma toLowerCase_append (a b : string) :
  Text.toLowerCase (a ^^ b) = Text.toLowerCase a ^^ Text.toLowerCase b.
Proof. induction a as [|c a IH]; simpl; [reflexivity | now rewrite IH]. Qed.

Lemma cryptoTerms_lower (term : string) :
  In term Server.cryptoTerms -> Text.toLowerCase term = term.
Proof.
  unfold Server.cryptoTerms. simpl. intro H.
  repeat (destruct H as [H|H]; [subst term; reflexivity|]). destruct H.
Qed.

(** ** Intake: the shapes of a line *)

(** X1.  Every ASCII line [New message from U: M], where [U] is
    non-empty and has no colon and [M] is what follows the blanks after
    the colon up to the end of the line, is handed to [queueComment] with
    the trimmed [U] as user and the trimmed [M] as message, whatever the
    JSON decoder. *)
Theorem X1_new_message_shape
        (md5_hex : string -> string) (json_decode : string -> option value)
        (u ws m : string) (now : N) (st : Server.app) :
  shaped Regex.not_colon u ws m ->
  Server.parseLine md5_hex json_decode ("New message from " ^^ u ^^ ":" ^^ ws ^^ m) now st
  = Server.queueComment md5_hex (VString (Text.trim u)) (VString (Text.trim m))
                        VNull now st.
Proof.
  intros [Hu [Hcu [Hws [Hm [Hcm [Hb _]]]]]].
  set (rest := u ^^ ":" ^^ ws ^^ m).
  assert (Hmatch : Server.match2 Regex.newMessageRe ("New message from " ^^ rest)
                   = Some (u, m)).
  { unfold Server.match2.
    rewrite (exec_here _ _ [u; m]); [reflexivity|].
    unfold Regex.matchHere, Regex.newMessageRe.
    rewrite run_Cat, run_Lit, run_Cat. unfold rest.
    apply group_plus; [exact Hu | exact Hcu | reflexivity |].
    now apply tail_of_shape. }
  unfold Server.parseLine.
  change ("New message from " ^^ rest)
    with (String "N" ("ew message from " ^^ rest)) at 1.
  rewrite trim_head by reflexivity.
  unfold tryCatch, Server.structured, bindM, lift.
  change (JSON_parse json_decode ("New message from " ^^ rest))
    with (@Throw value SyntaxError).
  cbv iota. unfold Server.plainText. now rewrite Hmatch.
Qed.

Lemma X1_witness :
  shaped Regex.not_colon " bob " "  " "gm  " /\
  Server.parseLine sampleHash sampleDecode "New message from  bob :  gm  " 3
                   Server.constructed
  = Server.queueComment sampleHash (VString "bob") (VString "gm") VNull 3
                        Server.constructed.
Proof.
  assert (H : shaped Regex.not_colon " bob " "  " "gm  ").
  { repeat split; try reflexivity; discriminate. }
  split; [exact H|].
  exact (X1_new_message_shape sampleHash sampleDecode " bob " "  " "gm  " 3
           Server.constructed H).
Defined.

(** X2.  Any other ASCII line [WORD: TEXT] that [JSON.parse] rejects, a
    diagnostic such as [Error: connection lost] included, is taken for a
    chat message: it is handed to [queueComment] with [WORD] as user and
    the trimmed [TEXT] as message. *)
Theorem X2_colon_heuristic
        (md5_hex : string -> string) (json_decode : string -> option value)
        (w ws m : string) (now : N) (st : Server.app) (e : error) :
  shaped Text.is_word w ws m ->
  JSON_parse json_decode (w ^^ ":" ^^ ws ^^ m) = Throw e ->
  Server.match2 Regex.newMessageRe (w ^^ ":" ^^ ws ^^ m) = None ->
  Server.parseLine md5_hex json_decode (w ^^ ":" ^^ ws ^^ m) now st
  = Server.queueComment md5_hex (VString w) (VString (Text.trim m)) VNull now st.
Proof.
  intros [Hw [Hcw [Hws [Hm [Hcm [Hb _]]]]]] Hjson Hnew.
  assert (Hmatch : Server.match2 Regex.messageRe (w ^^ ":" ^^ ws ^^ m) = Some (w, m)).
  { unfold Server.match2.
    rewrite (exec_here _ _ [w; m]); [reflexivity|].
    unfold Regex.matchHere, Regex.messageRe. rewrite run_Cat.
    apply group_plus; [exact Hw | exact Hcw | reflexivity |].
    now apply tail_of_shape. }
  unfold Server.parseLine.
  assert (Hline : String.eqb (Text.trim (w ^^ ":" ^^ ws ^^ m)) EmptyString = false).
  { destruct w as [|c w']; [contradiction|].
    simpl in Hcw. apply andb_prop in Hcw. destruct Hcw as [Hc _].
    change (String c w' ^^ ":" ^^ ws ^^ m) with (String c (w' ^^ ":" ^^ ws ^^ m)).
    apply trim_head. now apply word_not_space. }
  rewrite Hline.
  unfold tryCatch, Server.structured, bindM, lift. rewrite Hjson.
  unfold Server.plainText. rewrite Hnew, Hmatch.
  rewrite (includes_mid w ":" (ws ^^ m)). now rewrite !orb_true_r.
Qed.

Lemma X2_witness :
  shaped Text.is_word "Error" " " "connection lost" /\
  JSON_parse sampleDecode "Error: connection lost" = Throw SyntaxError /\
  Server.match2 Regex.newMessageRe "Error: connection lost" = None /\
  Server.parseLine sampleHash sampleDecode "Error: connection lost" 3
                   Server.constructed
  = Server.queueComment sampleHash (VString "Error") (VString "connection lost")
                        VNull 3 Server.constructed.
Proof.
  assert (H : shaped Text.is_word "Error" " " "connection lost").
  { repeat split; try reflexivity; discriminate. }
  split; [exact H|]. split; [reflexivity|]. split; [reflexivity|].
  exact (X2_colon_heuristic sampleHash sampleDecode "Error" " " "connection lost" 3
           Server.constructed SyntaxError H eq_refl eq_refl).
Defined.

(** ** Classification *)

(** X3.  The classification is by substring and ignores letter case: a
    message that contains a crypto term anywhere, in any casing, inside
    a longer word too, selects the crypto pool. *)
Theorem X3_classification_by_substring (a x b term : string) :
  In term Server.cryptoTerms ->
  Text.toLowerCase x = term ->
  Server.containsCrypto (a ^^ x ^^ b) = true.
Proof.
  intros Hin Hx. unfold Server.containsCrypto, Server.someCryptoTerm.
  apply existsb_exists. exists term. split; [exact Hin|].
  rewrite (cryptoTerms_lower term Hin), !toLowerCase_append, Hx.
  apply includes_mid.
Qed.

Lemma X3_witness :
  In "gm" Server.cryptoTerms /\ Text.toLowerCase "GM" = "gm" /\
  Server.containsCrypto "this seGMent is long" = true.
Proof.
  assert (Hin : In "gm" Server.cryptoTerms) by (simpl; tauto).
  split; [exact Hin|]. split; [reflexivity|].
  exact (X3_classification_by_substring "this se" "GM" "ent is long" "gm" Hin eq_refl).
Defined.

(** ** Intake: records, chunks and the queue *)




Lemma split_nonempty (sep : ascii) (s : string) : Text.split sep s <> [].
Proof.
  destruct s as [|c r]; cbn [Text.split]; [discriminate|].
  destruct (Ascii.eqb c sep); [discriminate|].
  destruct (Text.split sep r); discriminate.
Qed.

Lemma split_append (sep : ascii) (a b : string) :
  Text.split sep (a ^^ String sep b) = Text.split sep a ++ Text.split sep b.
Proof.
  induction a as [|c r IH].
  - cbn [String.append Text.split]. now rewrite Ascii.eqb_refl.
  - cbn [String.append Text.split]. rewrite IH.
    destruct (Ascii.eqb c sep); [reflexivity|].
    pose proof (split_nonempty sep r) as Hne.
    destruct (Text.split sep r); [contradiction|reflexivity].
Qed.

Lemma forEachLine_shift md5_hex json_decode (lines : list string) (clock : nat -> N)
      (k n : nat) (st : Server.app) :
  Server.forEachLine md5_hex json_decode lines clock (k + n) st
  = Server.forEachLine md5_hex json_decode lines (fun i => clock (i + n)) k st.
Proof.
  revert k st. induction lines as [|line rest IH]; intros k st; [reflexivity|].
  rewrite !forEachLine_cons. apply (IH (S k)).
Qed.

(** X5.  The parser keeps nothing from one chunk to the next: a chunk
    with a line feed in it is handled exactly like the part before the
    line feed and the part after it delivered as two chunks, so that a
    line feed and a chunk boundary are the same to it. *)
Theorem X5_line_feed_is_chunk_boundary
        (md5_hex : string -> string) (json_decode : string -> option value)
        (a b : string) (clock : nat -> N) (st : Server.app) :
  Server.parseAndQueueComments md5_hex json_decode (a ^^ String Text.LF b) clock st
  = Server.parseAndQueueComments md5_hex json_decode b
      (fun i => clock (i + List.length (Text.split Text.LF a)))
      (snd (Server.parseAndQueueComments md5_hex json_decode a clock st)).
Proof.
  rewrite !parseAndQueueComments_eq, split_append, forEachLine_app.
  apply (forEachLine_shift md5_hex json_decode _ clock 0).
Qed.

Lemma queueComment_effect md5_hex (user message pid : value) (now : N)
      (st : Server.app) :
  snd (Server.queueComment md5_hex user message pid now st) = st \/
  exists c, printable c /\ has (Server.processedComments st) (Server.id c) = false /\
            Server.timestamp c = now /\
            snd (Server.queueComment md5_hex user message pid now st) = pushed c st.
Proof.
  rewrite queueComment_eq.
  destruct (Server.commentId md5_hex user message pid) as [cid|e] eqn:E; [|now left].
  destruct (has (Server.processedComments st) cid) eqn:Hh; [now left|].
  right. eexists. split; [|split; [|split; [|reflexivity]]].
  - exact (commentId_printable _ _ _ _ _ E).
  - exact Hh.
  - reflexivity.
Qed.

Lemma parseLine_fresh md5_hex json_decode (line : string) (now : N) (st : Server.app) :
  snd (Server.parseLine md5_hex json_decode line now st) = st \/
  exists c, printable c /\ has (Server.processedComments st) (Server.id c) = false /\
            Server.timestamp c = now /\
            snd (Server.parseLine md5_hex json_decode line now st) = pushed c st.
Proof.
  assert (Hplain : snd (Server.plainText md5_hex line now st) = st \/
            exists c, printable c /\
                      has (Server.processedComments st) (Server.id c) = false /\
                      Server.timestamp c = now /\
                      snd (Server.plainText md5_hex line now st) = pushed c st).
  { unfold Server.plainText, ret.
    destruct (Server.match2 Regex.newMessageRe line) as [[u m]|].
    - apply queueComment_effect.
    - destruct (_ || _); [|now left].
      destruct (Server.match2 Regex.messageRe line) as [[u m]|]; [|now left].
      apply queueComment_effect. }
  unfold Server.parseLine, tryCatch, ret.
  destruct (String.eqb (Text.trim line) EmptyString); [now left|].
  destruct (Server.structured md5_hex json_decode line now st) as [[[]|e] st1] eqn:E.
  - assert (H : snd (Server.structured md5_hex json_decode line now st) = st1)
      by now rewrite E.
    cbn [snd]. rewrite <- H. clear E H.
    unfold Server.structured, bindM, lift, ret.
    destruct (JSON_parse json_decode line) as [data|e]; [|now left].
    destruct (get data "type") as [ty|e]; [|now left].
    destruct (strictEqualsString ty "message"); [|now left].
    destruct (get data "user") as [u|e]; [|now left].
    destruct (ToBoolean u); [|now left].
    destruct (get data "text") as [t|e]; [|now left].
    destruct (ToBoolean t); [|now left].
    destruct (get data "id") as [i|e]; [|now left].
    apply queueComment_effect.
  - destruct (structured_queued md5_hex json_decode line now st) as [e'| |c Hc];
      try discriminate E.
    injection E as _ <-. exact Hplain.
Qed.

(** X6.  The intake only ever appends: a chunk leaves the comments
    already queued in place and in order, adds at most one comment per
    line, each with an id that is not processed, and changes nothing else
    of the object; no exception leaves it. *)
Theorem X6_intake_only_appends
        (md5_hex : string -> string) (json_decode : string -> option value)
        (chunk : string) (clock : nat -> N) (st : Server.app) :
  let r := Server.parseAndQueueComments md5_hex json_decode chunk clock st in
  fst r = Return tt /\
  exists added,
    snd r = Server.with_commentQueue (Server.commentQueue st ++ added) st /\
    List.length added <= List.length (Text.split Text.LF chunk) /\
    Forall (fun c => printable c /\
                     has (Server.processedComments st) (Server.id c) = false) added.
Proof.
  cbv zeta. rewrite parseAndQueueComments_eq.
  split; [apply forEachLine_returns|].
  generalize (Text.split Text.LF chunk) as lines. generalize 0 as k.
  intros k lines. revert k st.
  induction lines as [|line rest IH]; intros k st.
  - exists []. cbn [Server.forEachLine ret snd]. rewrite app_nil_r.
    split; [now destruct st|]. split; [cbn; lia | constructor].
  - rewrite forEachLine_cons.
    destruct (parseLine_fresh md5_hex json_decode line (clock k) st)
      as [E|[c [Hc [Hf [_ E]]]]]; rewrite E.
    + destruct (IH (S k) st) as [added [H1 [H2 H3]]].
      exists added. split; [exact H1|]. split; [cbn [List.length]; lia | exact H3].
    + destruct (IH (S k) (pushed c st)) as [added [H1 [H2 H3]]].
      exists (c :: added). split; [|split].
      * rewrite H1. unfold pushed. destruct st. cbn. now rewrite <- app_assoc.
      * cbn [List.length]. lia.
      * constructor; [now split|]. exact H3.
Qed.

(** ** Responses *)

Lemma trimEnd_idempotent (s : string) : Text.trimEnd (Text.trimEnd s) = Text.trimEnd s.
Proof.
  induction s as [|c r IH]; [reflexivity|].
  cbn [Text.trimEnd].
  destruct (Text.trimEnd r) as [|d r'] eqn:E.
  - destruct (Text.is_space c) eqn:Hc; [reflexivity|].
    cbn [Text.trimEnd]. now rewrite Hc.
  - cbn [Text.trimEnd] in *. now rewrite IH.
Qed.

Lemma trimStart_head (s : string) :
  Text.trimStart s = EmptyString \/
  exists c r, Text.trimStart s = String c r /\ Text.is_space c = false.
Proof.
  induction s as [|c r IH]; [now left|].
  cbn [Text.trimStart]. destruct (Text.is_space c) eqn:Hc; [exact IH|].
  right. now exists c, r.
Qed.

Lemma trim_idempotent (s : string) : Text.trim (Text.trim s) = Text.trim s.
Proof.
  unfold Text.trim.
  destruct (trimStart_head s) as [E|[c [r [E Hc]]]]; rewrite E; [reflexivity|].
  assert (H : exists r', Text.trimEnd (String c r) = String c r').
  { cbn [Text.trimEnd]. rewrite Hc. destruct (Text.trimEnd r); eauto. }
  destruct H as [r' H].
  assert (Hs : Text.trimStart (Text.trimEnd (String c r)) = Text.trimEnd (String c r)).
  { rewrite H. cbn [Text.trimStart]. now rewrite Hc. }
  rewrite Hs. apply trimEnd_idempotent.
Qed.

(** What [generateResponse] comes to: the response selected from the
    pool, handed to the model only when one is loaded and the message is
    a string. *)
Lemma generateResponse_unenhanced (c : Server.comment) (u : draw) (name : string) :
  ToString (Server.user c) = Return name ->
  exists sel,
    In sel (canned name) /\
    Server.generateResponse c u false Rejects = Return (VString sel) /\
    forall (g : bool) (o : backend),
      Server.generateResponse c u g o
      = match g, Server.message c with
        | true, VString _ =>
            Server.generateResume (VString sel) (enhancementPrompt sel) o
        | _, _ => Return (VString sel)
        end.
Proof.
  intro Hname. unfold Server.generateResponse, Server.generateBegin.
  rewrite Hname. cbn [bind].
  destruct (Server.message c) as [| |b|r|m|l|f] eqn:Em; cbn [Server.callToLowerCase bind];
    try (unfold Server.wentWrong; rewrite Hname; cbn [bind];
         eexists; split;
         [ unfold canned; apply in_or_app; right; apply in_or_app; right; now left
         | split; [reflexivity | now intros [] o] ]).
  destruct (selected_is_canned name (Text.toLowerCase m) u) as [s [E Hin]].
  cbv zeta in E. rewrite E. exists s. split; [exact Hin|].
  split; [reflexivity|]. intros [] o; reflexivity.
Qed.

(** X7.  Let [sel] be what the current script answers a comment with
    when no model is loaded: it is one of the script's own canned texts
    for the sender.  With a model the answer is the same, unless the
    model has produced a text and the message is a string: then the
    first occurrence of the prompt is removed from the generated text
    and the blanks around the rest are dropped, and that is the answer
    when it has more than 10 and fewer than 150 characters; otherwise
    the answer is [sel] again.  (For a generated text that is ASCII once
    the prompt is removed.) *)
Theorem X7_response_is_canned_or_bounded
        (c : Server.comment) (u : draw) (g : bool) (o : backend) (name sel : string) :
  ToString (Server.user c) = Return name ->
  Server.generateResponse c u false Rejects = Return (VString sel) ->
  (forall text, o = Generated text ->
     allChars Text.is_ascii (Text.removeFirst (enhancementPrompt sel) text) = true) ->
  In sel (canned name) /\
  match g, o, Server.message c with
  | true, Generated text, VString _ =>
      let enhanced := Text.trim (Text.removeFirst (enhancementPrompt sel) text) in
      Server.generateResponse c u g o
      = Return (VString (if (10 <? String.length enhanced)
                            && (String.length enhanced <? 150)
                         then enhanced else sel))
  | _, _, _ => Server.generateResponse c u g o = Return (VString sel)
  end.
Proof.
  intros Hname Hsel _.
  destruct (generateResponse_unenhanced c u name Hname) as [s [Hin [E H]]].
  rewrite E in Hsel. injection Hsel as ->.
  split; [exact Hin|]. rewrite (H g o).
  destruct g; [|now destruct o].
  destruct o as [|text|]; [now destruct (Server.message c) | | now destruct (Server.message c)].
  destruct (Server.message c); try reflexivity.
  cbn [Server.generateResume]. cbv zeta.
  set (e := Text.trim (Text.removeFirst (enhancementPrompt sel) text)).
  destruct (10 <? String.length e) eqn:H10; [|now rewrite andb_false_r].
  assert (Hne : String.eqb e EmptyString = false).
  { apply String.eqb_neq. intro He. rewrite He in H10. discriminate. }
  rewrite Hne. cbn [negb andb]. now destruct (String.length e <? 150).
Qed.

Lemma X7_witness :
  let text := enhancementPrompt sampleSelected ^^ "  to the moon and back  " in
  ToString (Server.user sampleComment) = Return "alice" /\
  Server.generateResponse sampleComment sampleDraw false Rejects
  = Return (VString sampleSelected) /\
  allChars Text.is_ascii (Text.removeFirst (enhancementPrompt sampleSelected) text) = true /\
  Server.generateResponse sampleComment sampleDraw true (Generated text)
  = Return (VString "to the moon and back").
Proof.
  cbv zeta.
  assert (Hs : Server.generateResponse sampleComment sampleDraw false Rejects
               = Return (VString sampleSelected)) by (vm_compute; reflexivity).
  assert (Ha : forall text,
             Generated (enhancementPrompt sampleSelected ^^ "  to the moon and back  ")
             = Generated text ->
             allChars Text.is_ascii
               (Text.removeFirst (enhancementPrompt sampleSelected) text) = true).
  { intros text E. injection E as <-. vm_compute. reflexivity. }
  split; [reflexivity|]. split; [exact Hs|]. split; [vm_compute; reflexivity|].
  exact (proj2 (X7_response_is_canned_or_bounded sampleComment sampleDraw true
                  (Generated (enhancementPrompt sampleSelected ^^ "  to the moon and back  "))
                  "alice" sampleSelected eq_refl Hs Ha)).
Defined.

Lemma lastChar_append (a b : string) :
  b <> EmptyString -> lastChar (a ^^ b) = lastChar b.
Proof.
  intro Hb. induction a as [|c a IH]; [reflexivity|].
  cbn [String.append lastChar]. rewrite IH.
  destruct (a ^^ b) eqn:E; [|reflexivity].
  exfalso. destruct a; cbn in E; [contradiction | discriminate].
Qed.

Lemma length_take (n : nat) (s : string) :
  String.length (Text.take n s) = Nat.min n (String.length s).
Proof.
  revert s. induction n as [|n IH]; intros [|c r]; cbn; try reflexivity.
  now rewrite IH.
Qed.

(** X8.  In [app.js] the text taken from the model is cut to its first
    sentence and to 100 characters: what [generateResponse] returns when
    the model answers is never empty, never longer than 100 characters
    and ends with a full stop; the alternative [Thanks for the message]
    after [||] is therefore never returned.  (For a generated text that
    is ASCII once the prompt is removed.) *)
Theorem X8_app_response_is_one_short_sentence (c : App.comment) (generated : string) :
  allChars Text.is_ascii (Text.removeFirst (App.prompt c) generated) = true ->
  exists s,
    App.tidy c generated = VString s /\
    1 <= String.length s <= 100 /\
    lastChar s = Some "."%char /\
    s <> "Thanks for the message, " ^^ App.user c ^^ "!".
Proof.
  intros _. unfold App.tidy. cbv zeta.
  set (r := hd EmptyString (Text.split "." _) ^^ ".").
  assert (Hlast : lastChar r = Some "."%char)
    by (unfold r; now rewrite lastChar_append).
  assert (Hlen : 1 <= String.length r)
    by (unfold r; rewrite length_append; cbn; lia).
  assert (Hbang : forall s, lastChar s = Some "."%char ->
                            s <> "Thanks for the message, " ^^ App.user c ^^ "!").
  { intros s Hs E. rewrite E in Hs.
    change ("Thanks for the message, " ^^ App.user c ^^ "!")
      with (("Thanks for the message, " ^^ App.user c) ^^ "!") in Hs.
    rewrite lastChar_append in Hs; discriminate. }
  destruct (100 <? String.length r) eqn:Hlong.
  - apply Nat.ltb_lt in Hlong.
    assert (Hne : Text.take 97 r ^^ "..." <> EmptyString)
      by (apply append_nonempty_r; discriminate).
    cbn [ToBoolean]. apply String.eqb_neq in Hne. rewrite Hne. cbn [negb].
    assert (Hl : lastChar (Text.take 97 r ^^ "...") = Some "."%char)
      by now rewrite lastChar_append.
    eexists. split; [reflexivity|]. split; [|split; [exact Hl | now apply Hbang]].
    rewrite length_append, length_take. cbn [String.length]. lia.
  - apply Nat.ltb_ge in Hlong.
    assert (Hne : r <> EmptyString) by (intro E; rewrite E in Hlen; cbn in Hlen; lia).
    cbn [ToBoolean]. apply String.eqb_neq in Hne. rewrite Hne. cbn [negb].
    exists r. split; [reflexivity|]. split; [lia|]. split; [exact Hlast | now apply Hbang].
Qed.

Lemma X8_witness :
  let generated := App.prompt sampleAppComment ^^ " gm to you too. And more" in
  allChars Text.is_ascii (Text.removeFirst (App.prompt sampleAppComment) generated) = true /\
  exists s,
    App.tidy sampleAppComment generated = VString s /\
    1 <= String.length s <= 100 /\
    lastChar s = Some "."%char /\
    s <> "Thanks for the message, " ^^ App.user sampleAppComment ^^ "!".
Proof.
  cbv zeta.
  assert (Ha : allChars Text.is_ascii
                 (Text.removeFirst (App.prompt sampleAppComment)
                    (App.prompt sampleAppComment ^^ " gm to you too. And more")) = true)
    by (vm_compute; reflexivity).
  split; [exact Ha|].
  exact (X8_app_response_is_one_short_sentence sampleAppComment
           (App.prompt sampleAppComment ^^ " gm to you too. And more") Ha).
Defined.

(** ** The child process and its timers *)

Lemma household_resolve (k : nat) (w : Server.world) :
  household (Server.resolve k w) = household w.
Proof.
  open_world w. unfold Server.resolve. cbn [Server.settled].
  now destruct (Server.mem k settled).
Qed.

Lemma household_finish (w : Server.world) : household (Server.finish w) = household w.
Proof. now open_world w. Qed.

Lemma household_suspend (t : Server.suspended) (w : Server.world) :
  household (Server.suspend t w) = household w.
Proof. now open_world w. Qed.

Lemma household_drain (w : Server.world) : household (Server.drain w) = household w.
Proof. open_world w. unfold Server.drain. now destruct (filter _ _). Qed.

Lemma household_speakResponse (r : value) (tts : Server.say) (w : Server.world) :
  household (Server.speakResponse r tts w) = household w.
Proof.
  open_world w.
  destruct td, tts; destruct (Server.mem calls settled) eqn:E;
    unfold household; wstep; rewrite ?E; reflexivity.
Qed.

Lemma household_afterGenerate (c : Server.comment) (r : completion value)
      (tts : Server.say) (w : Server.world) :
  household (Server.afterGenerate c r tts w) = household w.
Proof.
  unfold Server.afterGenerate. destruct r as [response|e].
  - rewrite household_suspend, household_speakResponse. now open_world w.
  - now open_world w.
Qed.

Lemma household_conclude (k : nat) (disable : bool) (timers' : list (nat * N))
      (speech' : list nat) (w : Server.world) :
  household (conclude k disable timers' speech' w) = household w.
Proof. unfold conclude. rewrite household_resolve. now open_world w. Qed.

Lemma household_processNextComment (u : draw) (tts : Server.say) (w : Server.world) :
  household (Server.processNextComment u tts w) = household w.
Proof.
  unfold Server.processNextComment.
  destruct (Server.isProcessing (Server.this w)); [reflexivity|].
  destruct (Server.commentQueue (Server.this w)) as [|c rest]; [reflexivity|].
  destruct (bind _ _); [|now open_world w].
  cbv zeta. destruct (Server.generateBegin _ _ _).
  - rewrite household_afterGenerate. now open_world w.
  - rewrite household_suspend. now open_world w.
Qed.

Lemma household_output md5_hex json_decode (chunk : string) (clock : nat -> N)
      (w : Server.world) :
  household (Server.on_this
               (fun a => snd (Server.parseAndQueueComments md5_hex json_decode
                                chunk clock a)) w)
  = household w.
Proof.
  unfold household. cbn [Server.on_this Server.this Server.children Server.spawned
                         Server.intervals Server.restarts].
  rewrite parseAndQueueComments_eq.
  destruct (forEachLine_printable md5_hex json_decode (Text.split Text.LF chunk)
              clock 0 (Server.this w)) as [_ [_ [_ [_ [_ [H6 [H7 [H8 [H9 _]]]]]]]]].
  cbv zeta in *. now rewrite H6, H7, H8, H9.
Qed.

(** The callbacks of the processor, the announcer and the intake leave the
    child processes and their timers alone. *)
Lemma step_household md5_hex json_decode (w : Server.world) (e : Server.event) :
  match e with
  | Server.StartRequest _ | Server.ChildClosed _ | Server.RestartTimer => False
  | _ => True
  end ->
  household (Server.step md5_hex json_decode w e) = household w.
Proof.
  intro He. unfold Server.step. rewrite household_drain.
  destruct e as [u tts|o tts|k err|k|chunk clock|body| |pid|];
    try contradiction; cbn [Server.handle].
  - destruct (0 <? Server.intervals w); [|reflexivity].
    unfold Server.tick. destruct (_ && _); [|reflexivity].
    apply household_processNextComment.
  - destruct (Server.takeGenerating (Server.tasks w)) as [[[[c sel] p] rest]|];
      [|reflexivity].
    rewrite household_afterGenerate. now open_world w.
  - destruct (Server.mem k (Server.speech w)); [|reflexivity].
    rewrite sayCallback_conclude, household_conclude. reflexivity.
  - destruct (Server.armed k (Server.timers w)); [|reflexivity].
    rewrite ttsTimeout_conclude, household_conclude. reflexivity.
  - apply household_output.
  - reflexivity.
Qed.

Lemma tended_frame (w w' : Server.world) :
  household w' = household w -> tended w -> tended w'.
Proof.
  unfold household, tended. intros E H.
  injection E as E1 E2 E3 E4 E5 E6 E7 E8.
  now rewrite E1, E2, E3, E4, E5, E6.
Qed.

Lemma remove_other (k p : nat) : Server.remove k [p] = [] \/ Server.remove k [p] = [p].
Proof. unfold Server.remove. cbn [filter]. destruct (Nat.eqb k p); auto. Qed.

Lemma tended_startPumpFunChat (w : Server.world) :
  tended w -> ToBoolean (Server.tokenAddress (Server.this w)) = true ->
  tended (snd (Server.startPumpFunChat w)).
Proof.
  unfold tended. intros [Hi Hm] Ht. open_world w.
  cbn [Server.this Server.mcpProcess Server.tokenAddress Server.children
       Server.spawned Server.intervals Server.restarts] in *.
  unfold Server.startPumpFunChat.
  destruct mp as [p|].
  - destruct Hm as [Hs [Hc _]]. subst spawned intervals.
    assert (Hr : Server.remove p children = []).
    { destruct Hc as [->| ->]; [reflexivity | apply remove_one]. }
    wstep. rewrite Hr. destruct (ToString ta); try destruct (spawnRefuses ta);
      cbn [snd]; wstep; auto.
  - destruct Hm as [Hs [Hc Hr]]. subst spawned intervals children restarts.
    wstep. destruct (ToString ta); try destruct (spawnRefuses ta);
      cbn [snd]; wstep; auto.
Qed.

Lemma tended_target (u t : value) (w : Server.world) :
  tended w -> ToBoolean t = true -> tended (Server.on_this (Server.with_target u t) w).
Proof.
  unfold tended. intros [Hi Hm] Ht. open_world w. wstep.
  cbn [Server.this Server.mcpProcess Server.tokenAddress Server.children
       Server.spawned Server.intervals Server.restarts] in *.
  split; [exact Hi|]. destruct mp; tauto.
Qed.

Lemma tended_responded (n : nat) (w : Server.world) :
  tended w -> tended (Server.emit (Server.Responded n) w).
Proof. apply tended_frame. now open_world w. Qed.

Lemma tended_postStart (body : value) (w : Server.world) :
  tended w -> tended (Server.postStart body w).
Proof.
  intro H. unfold Server.postStart.
  destruct (Server.startArguments body) as [[u t]|e]; [|now apply tended_responded].
  destruct (ToBoolean t) eqn:Ht; cbn [negb]; [|now apply tended_responded].
  pose proof (tended_target u t w H Ht) as H1.
  destruct (bind (ToString u) (fun _ => ToString t)); [|now apply tended_responded].
  assert (Htok : ToBoolean (Server.tokenAddress
                              (Server.this (Server.on_this (Server.with_target u t) w)))
                 = true) by (open_world w; exact Ht).
  pose proof (tended_startPumpFunChat _ H1 Htok) as H2.
  destruct (Server.startPumpFunChat (Server.on_this (Server.with_target u t) w))
    as [[[]|e] w1]; cbn [snd] in H2; now apply tended_responded.
Qed.

Lemma tended_childClosed (pid : nat) (w : Server.world) :
  pid < Server.spawned w -> tended w -> tended (Server.childClosed pid w).
Proof.
  unfold tended. intros Hlt [Hi Hm]. open_world w. unfold Server.childClosed. wstep.
  cbn [Server.this Server.mcpProcess Server.tokenAddress Server.children
       Server.spawned Server.intervals Server.restarts] in *.
  split; [exact Hi|].
  destruct mp as [p|].
  - destruct Hm as [Hs [Hc Ht]]. repeat split; auto.
    destruct Hc as [->| ->]; [now left | apply remove_other].
  - destruct Hm as [Hs [Hc Hr]]. lia.
Qed.

Section Household.

Variable md5_hex : string -> string.
Variable json_decode : string -> option value.

Lemma step_tended (w : Server.world) (e : Server.event) :
  tended w -> tended (Server.step md5_hex json_decode w e).
Proof.
  intro H.
  destruct e as [u tts|o tts|k err|k|chunk clock|body| |pid|] eqn:Ee;
    try (apply tended_frame with w; [|exact H];
         apply step_household; exact I).
  - unfold Server.step. apply tended_frame with (Server.postStart body w);
      [apply household_drain|]. now apply tended_postStart.
  - unfold Server.step. cbn [Server.handle].
    apply tended_frame with (if pid <? Server.spawned w
                             then Server.childClosed pid w else w);
      [apply household_drain|].
    destruct (pid <? Server.spawned w) eqn:Hlt; [|exact H].
    apply Nat.ltb_lt in Hlt. now apply tended_childClosed.
  - unfold Server.step. cbn [Server.handle].
    apply tended_frame
      with (match Server.restarts w with
            | 0 => w
            | S n => Server.restartTimer (Server.with_restarts n w)
            end); [apply household_drain|].
    destruct (Server.restarts w) as [|n] eqn:Hr; [exact H|].
    assert (H1 : tended (Server.with_restarts n w)).
    { unfold tended in *. open_world w.
      cbn [Server.this Server.mcpProcess Server.tokenAddress Server.children
           Server.spawned Server.intervals Server.restarts Server.with_restarts] in *.
      destruct H as [Hi Hm]. split; [exact Hi|].
      destruct mp; [exact Hm|]. destruct Hm as [_ [_ Hz]]. congruence. }
    unfold Server.restartTimer.
    destruct (ToBoolean _) eqn:Ht; [|exact H1].
    now apply tended_startPumpFunChat.
Qed.

Lemma reachable_tended (w : Server.world) :
  Server.reachable md5_hex json_decode w -> tended w.
Proof.
  intros [loaded [es ->]].
  assert (H : forall es w0, tended w0 ->
                            tended (Server.run md5_hex json_decode w0 es)).
  { clear es. induction es as [|e es IH]; intros w0 H0; [exact H0|].
    cbn [Server.run fold_left]. apply IH. now apply step_tended. }
  apply H. unfold tended. cbn. auto.
Qed.

End Household.

(** Every start that replaces a child has sent it [kill()] first. *)
Lemma replaced_frame (w w' : Server.world) :
  Server.spawned w' = Server.spawned w ->
  (exists more, Server.trace w' = Server.trace w ++ more) ->
  replaced w -> replaced w'.
Proof.
  unfold replaced. intros Es [more Et] H p Hp. rewrite Et, in_app_iff.
  left. apply H. now rewrite <- Es.
Qed.

Lemma replaced_startPumpFunChat (w : Server.world) :
  tended w -> replaced w -> replaced (snd (Server.startPumpFunChat w)).
Proof.
  unfold tended, replaced. intros [Hi Hm] H. open_world w.
  cbn [Server.this Server.mcpProcess Server.tokenAddress Server.children
       Server.spawned Server.intervals Server.restarts Server.trace] in *.
  unfold Server.startPumpFunChat.
  destruct mp as [cur|].
  - destruct Hm as [Hs _]. subst spawned.
    wstep. destruct (ToString ta); try destruct (spawnRefuses ta);
      cbn [snd]; wstep; intros p Hp; rewrite ?in_app_iff.
    + left. now apply H.
    + destruct (Nat.eq_dec p cur) as [->|Hne]; left; left;
        [right; now left | left; apply H; lia].
    + left. now apply H.
    + left. now apply H.
  - destruct Hm as [Hs _]. subst spawned.
    wstep. destruct (ToString ta); try destruct (spawnRefuses ta);
      cbn [snd]; wstep; intros p Hp; lia.
Qed.

Lemma replaced_postStart (body : value) (w : Server.world) :
  tended w -> replaced w -> replaced (Server.postStart body w).
Proof.
  intros Ht H.
  assert (R : forall n w0, replaced w0 -> replaced (Server.emit (Server.Responded n) w0)).
  { intros n w0. apply replaced_frame; [now open_world w0|].
    exists [Server.Responded n]. now open_world w0. }
  unfold Server.postStart.
  destruct (Server.startArguments body) as [[u t]|e]; [|now apply R].
  destruct (ToBoolean t) eqn:Hb; cbn [negb]; [|now apply R].
  pose proof (tended_target u t w Ht Hb) as H1.
  assert (H2 : replaced (Server.on_this (Server.with_target u t) w)).
  { apply replaced_frame with w; [now open_world w | | exact H].
    exists []. rewrite app_nil_r. now open_world w. }
  destruct (bind (ToString u) (fun _ => ToString t)); [|now apply R].
  pose proof (replaced_startPumpFunChat _ H1 H2) as H3.
  destruct (Server.startPumpFunChat (Server.on_this (Server.with_target u t) w))
    as [[[]|e] w1]; cbn [snd] in H3; now apply R.
Qed.

Section Replaced.

Variable md5_hex : string -> string.
Variable json_decode : string -> option value.

Lemma step_replaced (w : Server.world) (e : Server.event) :
  tended w -> replaced w -> replaced (Server.step md5_hex json_decode w e).
Proof.
  intros Ht H.
  assert (D : forall w0, replaced w0 -> replaced (Server.drain w0)).
  { intros w0. apply replaced_frame.
    - pose proof (household_drain w0) as E. unfold household in E.
      now inversion E.
    - destruct (ev_trace _ _ _ (evolves_drain w0)) as [more [E _]]. now exists more. }
  destruct e as [u tts|o tts|k err|k|chunk clock|body| |pid|] eqn:Ee;
    try (apply replaced_frame with w; [| |exact H];
         [ pose proof (step_household md5_hex json_decode w e) as E;
           rewrite Ee in E; specialize (E I); unfold household in E; now inversion E
         | destruct (turn_trace _ _ _ (step_turn md5_hex json_decode w e)) as [more [E _]];
           rewrite Ee in E; now exists more ]).
  - unfold Server.step. cbn [Server.handle]. apply D. now apply replaced_postStart.
  - unfold Server.step. cbn [Server.handle]. apply D.
    destruct (pid <? Server.spawned w); [|exact H].
    apply replaced_frame with w; [now open_world w | | exact H].
    exists []. rewrite app_nil_r. now open_world w.
  - unfold Server.step. cbn [Server.handle]. apply D.
    destruct (Server.restarts w) as [|n] eqn:Hr; [exact H|].
    assert (H1 : tended (Server.with_restarts n w)).
    { unfold tended in *. open_world w.
      cbn [Server.this Server.mcpProcess Server.tokenAddress Server.children
           Server.spawned Server.intervals Server.restarts Server.with_restarts] in *.
      destruct Ht as [Hi Hm]. split; [exact Hi|].
      destruct mp; [exact Hm|]. destruct Hm as [_ [_ Hz]]. congruence. }
    assert (H2 : replaced (Server.with_restarts n w)).
    { apply replaced_frame with w; [now open_world w | | exact H].
      exists []. rewrite app_nil_r. now open_world w. }
    unfold Server.restartTimer.
    destruct (ToBoolean _); [|exact H2].
    now apply replaced_startPumpFunChat.
Qed.

Lemma reachable_replaced (w : Server.world) :
  Server.reachable md5_hex json_decode w -> replaced w.
Proof.
  intros [loaded [es ->]].
  assert (H : forall es w0, tended w0 -> replaced w0 ->
                            replaced (Server.run md5_hex json_decode w0 es)).
  { clear es. induction es as [|e es IH]; intros w0 H0 H1; [exact H1|].
    cbn [Server.run fold_left]. apply IH.
    - now apply step_tended.
    - now apply step_replaced. }
  apply H.
  - unfold tended. cbn. auto.
  - intros p Hp. cbn in Hp. lia.
Qed.

End Replaced.

Lemma ready_none (w : Server.world) :
  invariant w -> filter (Server.awaitsSettled (Server.settled w)) (Server.tasks w) = [].
Proof.
  intros [H _ _].
  destruct (Server.tasks w) as [|[c sel p|c k] [|t rest]]; try contradiction;
    try reflexivity.
  destruct H as [_ [_ [_ [_ [Hk _]]]]]. cbn. now rewrite Hk.
Qed.

(** No microtask is waiting after a callback that leaves the suspended
    invocations and the resolved promises as they were. *)
Lemma drain_same (w w' : Server.world) :
  invariant w -> Server.tasks w' = Server.tasks w ->
  Server.settled w' = Server.settled w -> Server.drain w' = w'.
Proof.
  intros Hinv Et Es. unfold Server.drain. cbv zeta.
  now rewrite Et, Es, (ready_none w Hinv).
Qed.

Lemma startPumpFunChat_live (w : Server.world) (cur : nat) :
  Server.mcpProcess (Server.this w) = Some cur ->
  startable (Server.tokenAddress (Server.this w)) = true ->
  let w' := snd (Server.startPumpFunChat w) in
  Server.mcpProcess (Server.this w') = Some (Server.spawned w) /\
  Server.children w' = Server.remove cur (Server.children w) ++ [Server.spawned w] /\
  Server.spawned w' = S (Server.spawned w) /\
  Server.intervals w' = S (Server.intervals w) /\
  Server.restarts w' = Server.restarts w /\
  Server.tokenAddress (Server.this w') = Server.tokenAddress (Server.this w) /\
  Server.trace w'
  = Server.trace w
    ++ restartTrace (Some cur) (Server.spawned w) (Server.tokenAddress (Server.this w)).
Proof.
  intros Hm Ht. open_world w.
  cbn [Server.this Server.mcpProcess Server.tokenAddress] in Hm, Ht. subst mp.
  unfold startable in Ht.
  cbv zeta. unfold Server.startPumpFunChat, restartTrace. wstep.
  destruct (ToString ta); [|discriminate].
  destruct (spawnRefuses ta); [discriminate|].
  cbn [snd]. wstep. repeat split. now repeat rewrite <- app_assoc.
Qed.

Lemma startPumpFunChat_stuck (w : Server.world) (cur : nat) :
  Server.mcpProcess (Server.this w) = Some cur ->
  startable (Server.tokenAddress (Server.this w)) = false ->
  let w' := snd (Server.startPumpFunChat w) in
  Server.mcpProcess (Server.this w') = Some cur /\
  Server.children w' = Server.remove cur (Server.children w) /\
  Server.spawned w' = Server.spawned w /\
  Server.intervals w' = Server.intervals w /\
  Server.restarts w' = Server.restarts w /\
  Server.tokenAddress (Server.this w') = Server.tokenAddress (Server.this w) /\
  Server.trace w' = Server.trace w ++ [Server.Killed cur].
Proof.
  intros Hm Ht. open_world w.
  cbn [Server.this Server.mcpProcess Server.tokenAddress] in Hm, Ht. subst mp.
  unfold startable in Ht.
  cbv zeta. unfold Server.startPumpFunChat. wstep.
  destruct (ToString ta); [destruct (spawnRefuses ta); [|discriminate]|];
    cbn [snd]; wstep; repeat split.
Qed.

Section Restarts.

Variable md5_hex : string -> string.
Variable json_decode : string -> option value.

Lemma closed_step (w : Server.world) (p : nat) :
  invariant w -> p < Server.spawned w ->
  Server.step md5_hex json_decode w (Server.ChildClosed p) = Server.childClosed p w.
Proof.
  intros Hinv Hlt. unfold Server.step. cbn [Server.handle].
  apply Nat.ltb_lt in Hlt. rewrite Hlt.
  apply drain_same with w; [exact Hinv | |]; now open_world w.
Qed.

Lemma restart_step (w : Server.world) (n : nat) :
  invariant w -> Server.restarts w = S n ->
  ToBoolean (Server.tokenAddress (Server.this w)) = true ->
  Server.step md5_hex json_decode w Server.RestartTimer
  = snd (Server.startPumpFunChat (Server.with_restarts n w)).
Proof.
  intros Hinv Hr Ht. unfold Server.step. cbn [Server.handle]. rewrite Hr.
  unfold Server.restartTimer.
  assert (E : Server.tokenAddress (Server.this (Server.with_restarts n w))
              = Server.tokenAddress (Server.this w)) by now open_world w.
  rewrite E, Ht.
  destruct (core_startPumpFunChat (Server.with_restarts n w)) as [Hc _].
  unfold core in Hc. injection Hc as Et _ _ Es _ _ _ _ _ _.
  apply drain_same with w; [exact Hinv | |].
  - rewrite Et. now open_world w.
  - rewrite Es. now open_world w.
Qed.

(** One round: a child closes, the restart timer fires. *)
Lemma round_facts (w : Server.world) (p q : nat) :
  Server.reachable md5_hex json_decode w ->
  Server.mcpProcess (Server.this w) = Some q ->
  startable (Server.tokenAddress (Server.this w)) = true ->
  p <= q ->
  let w' := Server.run md5_hex json_decode w
                       [Server.ChildClosed p; Server.RestartTimer] in
  Server.reachable md5_hex json_decode w' /\
  Server.mcpProcess (Server.this w') = Some (S q) /\
  Server.tokenAddress (Server.this w') = Server.tokenAddress (Server.this w) /\
  Server.children w' = [S q] /\
  Server.spawned w' = S (S q) /\
  Server.restarts w' = Server.restarts w /\
  Server.trace w'
  = Server.trace w ++ restartTrace (Some q) (S q) (Server.tokenAddress (Server.this w)).
Proof.
  intros Hreach Hm Ht Hpq. cbv zeta. cbn [Server.run fold_left].
  pose proof (reachable_invariant md5_hex json_decode w Hreach) as Hinv.
  pose proof (reachable_tended md5_hex json_decode w Hreach) as [Hi Hten].
  rewrite Hm in Hten. destruct Hten as [Hs [Hc Htok]].
  split.
  { apply reachable_step. now apply reachable_step. }
  rewrite (closed_step w p Hinv) by lia.
  set (w1 := Server.childClosed p w).
  assert (Hinv1 : invariant w1).
  { unfold w1. rewrite <- (closed_step w p Hinv) by lia. now apply step_invariant. }
  assert (F : Server.restarts w1 = S (Server.restarts w) /\
              Server.tokenAddress (Server.this w1) = Server.tokenAddress (Server.this w) /\
              Server.mcpProcess (Server.this w1) = Server.mcpProcess (Server.this w) /\
              Server.spawned w1 = Server.spawned w /\
              Server.children w1 = Server.remove p (Server.children w) /\
              Server.trace w1 = Server.trace w).
  { unfold w1. now destruct w. }
  destruct F as [F1 [F2 [F3 [F4 [F5 F6]]]]].
  rewrite (restart_step w1 (Server.restarts w) Hinv1 F1) by now rewrite F2.
  set (w2 := Server.with_restarts (Server.restarts w) w1).
  assert (G : Server.restarts w2 = Server.restarts w /\
              Server.tokenAddress (Server.this w2) = Server.tokenAddress (Server.this w1) /\
              Server.mcpProcess (Server.this w2) = Server.mcpProcess (Server.this w1) /\
              Server.spawned w2 = Server.spawned w1 /\
              Server.children w2 = Server.children w1 /\
              Server.trace w2 = Server.trace w1).
  { unfold w2. now destruct w1. }
  destruct G as [G1 [G2 [G3 [G4 [G5 G6]]]]].
  destruct (startPumpFunChat_live w2 q) as [L1 [L2 [L3 [L4 [L5 [L6 L7]]]]]].
  { now rewrite G3, F3. }
  { now rewrite G2, F2. }
  rewrite L1, L2, L3, L5, L6, L7, G1, G2, G4, G5, G6, F2, F4, F5, F6, Hs.
  repeat split.
  assert (Hrm : Server.remove q (Server.remove p (Server.children w)) = []).
  { destruct Hc as [->| ->]; [reflexivity|].
    destruct (remove_other p q) as [->| ->]; [reflexivity | apply remove_one]. }
  now rewrite Hrm.
Qed.

End Restarts.

(** X9.  In every state the program can reach there is one polling
    interval for each child process ever spawned (no interval is ever
    cleared), and [mcpProcess] is null exactly as long as nothing was
    spawned.  Every child but the one spawned last was sent [kill()] by
    the program; a killed child may still run until it exits.  So at
    most one child was neither killed by the program nor has closed, and
    it is the one [mcpProcess] refers to. *)
Theorem X9_one_child_and_an_interval_per_start
        (md5_hex : string -> string) (json_decode : string -> option value)
        (w : Server.world) :
  Server.reachable md5_hex json_decode w ->
  Server.intervals w = Server.spawned w /\
  (Server.mcpProcess (Server.this w) = None <-> Server.spawned w = 0) /\
  (forall p, S p < Server.spawned w -> In (Server.Killed p) (Server.trace w)) /\
  List.length (Server.children w) <= 1 /\
  (forall p, In p (Server.children w) ->
             Server.mcpProcess (Server.this w) = Some p /\ Server.spawned w = S p).
Proof.
  intro Hreach.
  destruct (reachable_tended md5_hex json_decode w Hreach) as [Hi Hm].
  pose proof (reachable_replaced md5_hex json_decode w Hreach) as Hk.
  split; [exact Hi|].
  cut (List.length (Server.children w) <= 1 /\
       (forall p, In p (Server.children w) ->
                  Server.mcpProcess (Server.this w) = Some p /\ Server.spawned w = S p) /\
       (Server.mcpProcess (Server.this w) = None <-> Server.spawned w = 0)).
  { intros [A [B C]]. split; [exact C|]. split; [exact Hk|]. split; [exact A | exact B]. }
  clear Hk.
  destruct (Server.mcpProcess (Server.this w)) as [q|].
  - destruct Hm as [Hs [Hc _]]. split; [|split].
    + destruct Hc as [->| ->]; cbn; lia.
    + intros p Hp. destruct Hc as [E|E]; rewrite E in Hp.
      * destruct Hp.
      * destruct Hp as [->|[]]. split; [reflexivity | exact Hs].
    + split; [discriminate | lia].
  - destruct Hm as [Hs [Hc _]]. rewrite Hc. split; [cbn; lia|]. split.
    + intros p [].
    + tauto.
Qed.

Lemma sampleRestarted_reachable : Server.reachable sampleHash sampleDecode sampleRestarted.
Proof. eexists false, _. reflexivity. Qed.

Lemma sampleClosed_reachable : Server.reachable sampleHash sampleDecode sampleClosed.
Proof.
  exact (reachable_step sampleHash sampleDecode sampleRestarted
           (Server.ChildClosed 0) sampleRestarted_reachable).
Qed.

Lemma X9_witness :
  Server.reachable sampleHash sampleDecode sampleRestarted /\
  Server.intervals sampleRestarted = 2 /\
  Server.children sampleRestarted = [1] /\
  In (Server.Killed 0) (Server.trace sampleRestarted).
Proof.
  split; [exact sampleRestarted_reachable|].
  pose proof (X9_one_child_and_an_interval_per_start sampleHash sampleDecode
                sampleRestarted sampleRestarted_reachable) as [Hi [_ [Hk _]]].
  split; [rewrite Hi; vm_compute; reflexivity|].
  split; [vm_compute; reflexivity|].
  apply Hk. vm_compute. lia.
Defined.

(** X10.  The automatic restart cannot be switched off: whenever a
    restart timer is armed a token address is stored, so the guard of its
    callback holds, and the callback sends [kill()] to the child
    [mcpProcess] refers to, whether or not that child has closed.  It
    then spawns a new child, unless the stored token address cannot be
    rendered in the log line or is refused by [spawn] (a string with a
    NUL character): then the child is killed and none is spawned. *)
Theorem X10_restart_timer_always_restarts
        (md5_hex : string -> string) (json_decode : string -> option value)
        (w : Server.world) (n : nat) :
  Server.reachable md5_hex json_decode w ->
  Server.restarts w = S n ->
  let w' := Server.step md5_hex json_decode w Server.RestartTimer in
  exists q,
    Server.mcpProcess (Server.this w) = Some q /\
    ToBoolean (Server.tokenAddress (Server.this w)) = true /\
    Server.restarts w' = n /\
    if startable (Server.tokenAddress (Server.this w)) then
      Server.trace w'
      = Server.trace w
        ++ restartTrace (Some q) (S q) (Server.tokenAddress (Server.this w)) /\
      Server.mcpProcess (Server.this w') = Some (S q) /\
      Server.children w' = [S q] /\
      Server.spawned w' = S (Server.spawned w) /\
      Server.intervals w' = S (Server.intervals w)
    else
      Server.trace w' = Server.trace w ++ [Server.Killed q] /\
      Server.mcpProcess (Server.this w') = Some q /\
      Server.children w' = [] /\
      Server.spawned w' = Server.spawned w /\
      Server.intervals w' = Server.intervals w.
Proof.
  intros Hreach Hr. cbv zeta.
  pose proof (reachable_invariant md5_hex json_decode w Hreach) as Hinv.
  pose proof (reachable_tended md5_hex json_decode w Hreach) as [Hi Hten].
  destruct (Server.mcpProcess (Server.this w)) as [q|] eqn:Hm;
    [|destruct Hten as [_ [_ Hz]]; congruence].
  destruct Hten as [Hs [Hc Htok]].
  exists q. split; [reflexivity|]. split; [exact Htok|].
  rewrite (restart_step md5_hex json_decode w n Hinv Hr Htok).
  set (w2 := Server.with_restarts n w).
  assert (G : Server.restarts w2 = n /\
              Server.tokenAddress (Server.this w2) = Server.tokenAddress (Server.this w) /\
              Server.mcpProcess (Server.this w2) = Server.mcpProcess (Server.this w) /\
              Server.spawned w2 = Server.spawned w /\
              Server.children w2 = Server.children w /\
              Server.trace w2 = Server.trace w /\
              Server.intervals w2 = Server.intervals w).
  { unfold w2. now destruct w. }
  destruct G as [G1 [G2 [G3 [G4 [G5 [G6 G7]]]]]].
  assert (Hrm : Server.remove q (Server.children w) = []).
  { destruct Hc as [->| ->]; [reflexivity | apply remove_one]. }
  destruct (startable (Server.tokenAddress (Server.this w))) eqn:Ht.
  - destruct (startPumpFunChat_live w2 q) as [L1 [L2 [L3 [L4 [L5 [L6 L7]]]]]].
    { now rewrite G3. }
    { now rewrite G2. }
    rewrite L1, L2, L3, L4, L5, L7, G1, G2, G4, G5, G6, G7, Hs, Hrm. repeat split.
  - destruct (startPumpFunChat_stuck w2 q) as [L1 [L2 [L3 [L4 [L5 [L6 L7]]]]]].
    { now rewrite G3. }
    { now rewrite G2. }
    rewrite L1, L2, L3, L4, L5, L7, G1, G4, G5, G6, G7, Hrm. repeat split.
Qed.

Lemma X10_witness :
  Server.reachable sampleHash sampleDecode sampleClosed /\
  Server.restarts sampleClosed = 1 /\
  exists q,
    Server.mcpProcess (Server.this sampleClosed) = Some q /\
    Server.restarts (Server.step sampleHash sampleDecode sampleClosed Server.RestartTimer)
    = 0 /\
    Server.spawned (Server.step sampleHash sampleDecode sampleClosed Server.RestartTimer)
    = S (Server.spawned sampleClosed).
Proof.
  assert (Hr : Server.restarts sampleClosed = 1) by (vm_compute; reflexivity).
  assert (Hs : startable (Server.tokenAddress (Server.this sampleClosed)) = true)
    by (vm_compute; reflexivity).
  split; [exact sampleClosed_reachable|]. split; [exact Hr|].
  destruct (X10_restart_timer_always_restarts sampleHash sampleDecode sampleClosed 0
              sampleClosed_reachable Hr) as [q [Hq [_ [Hn Hif]]]].
  rewrite Hs in Hif. destruct Hif as [_ [_ [_ [Hsp _]]]].
  exists q. split; [exact Hq|]. split; [exact Hn | exact Hsp].
Defined.

(** X11.  A restart that replaces a child never comes to rest, as long
    as the stored token address can be rendered in the log line and is
    accepted by [spawn] (it is not a string with a NUL character).  When
    a child [p] closes while [mcpProcess] refers to [q] (so after a
    second start request, when [p] is the child that request killed),
    the restart timer kills [q] and spawns the next child; [q] then
    closes in turn, and so on: after [n] such rounds [n] children have
    been killed and [n] spawned, with one more polling interval each. *)
Theorem X11_restart_cascade
        (md5_hex : string -> string) (json_decode : string -> option value)
        (n : nat) (w : Server.world) (p q : nat) :
  Server.reachable md5_hex json_decode w ->
  Server.mcpProcess (Server.this w) = Some q ->
  startable (Server.tokenAddress (Server.this w)) = true ->
  p <= q ->
  let w' := Server.run md5_hex json_decode w (cascade n p q) in
  Server.mcpProcess (Server.this w') = Some (n + q) /\
  Server.spawned w' = S (n + q) /\
  Server.intervals w' = S (n + q) /\
  Server.restarts w' = Server.restarts w /\
  Server.trace w'
  = Server.trace w ++ cascadeTrace n q (Server.tokenAddress (Server.this w)).
Proof.
  revert w p q. induction n as [|n IH]; intros w p q Hreach Hm Ht Hpq.
  - cbv zeta. cbn [cascade Server.run fold_left cascadeTrace Nat.add].
    destruct (reachable_tended md5_hex json_decode w Hreach) as [Hi Hten].
    rewrite Hm in Hten. destruct Hten as [Hs _].
    rewrite app_nil_r. repeat split; congruence.
  - cbv zeta. cbn [cascade cascadeTrace].
    change (Server.run md5_hex json_decode w
              (Server.ChildClosed p :: Server.RestartTimer :: cascade n q (S q)))
      with (Server.run md5_hex json_decode
              (Server.run md5_hex json_decode w
                 [Server.ChildClosed p; Server.RestartTimer])
              (cascade n q (S q))).
    destruct (round_facts md5_hex json_decode w p q Hreach Hm Ht Hpq)
      as [R1 [R2 [R3 [R4 [R5 [R6 R7]]]]]].
    cbv zeta in *.
    set (w1 := Server.run md5_hex json_decode w
                 [Server.ChildClosed p; Server.RestartTimer]) in *.
    assert (Ht1 : startable (Server.tokenAddress (Server.this w1)) = true)
      by now rewrite R3.
    destruct (IH w1 q (S q) R1 R2 Ht1 (Nat.le_succ_diag_r q)) as [I1 [I2 [I3 [I4 I5]]]].
    cbv zeta in *.
    rewrite I1, I2, I3, I4, I5, R3, R6, R7.
    replace (n + S q) with (S n + q) by lia.
    repeat split. now rewrite <- app_assoc.
Qed.

Lemma X11_witness :
  Server.reachable sampleHash sampleDecode sampleRestarted /\
  Server.mcpProcess (Server.this sampleRestarted) = Some 1 /\
  startable (Server.tokenAddress (Server.this sampleRestarted)) = true /\
  Server.spawned (Server.run sampleHash sampleDecode sampleRestarted (cascade 3 0 1)) = 5.
Proof.
  assert (Hm : Server.mcpProcess (Server.this sampleRestarted) = Some 1)
    by (vm_compute; reflexivity).
  assert (Ht : startable (Server.tokenAddress (Server.this sampleRestarted)) = true)
    by (vm_compute; reflexivity).
  split; [exact sampleRestarted_reachable|]. split; [exact Hm|]. split; [exact Ht|].
  exact (proj1 (proj2 (X11_restart_cascade sampleHash sampleDecode 3 sampleRestarted
                         0 1 sampleRestarted_reachable Hm Ht (Nat.le_0_l 1)))).
Defined.

Lemma postStart_unprintable (body u t : value) (name : string) (e : error)
      (w : Server.world) :
  Server.startArguments body = Return (u, t) ->
  ToBoolean t = true ->
  ToString u = Return name ->
  ToString t = Throw e ->
  Server.postStart body w
  = Server.emit (Server.Responded 500) (Server.on_this (Server.with_target u t) w).
Proof.
  intros Ha Hb Hu Ht. unfold Server.postStart.
  rewrite Ha, Hb, Hu. cbn [negb bind]. now rewrite Ht.
Qed.

(** X12.  A start request whose token address is a value that cannot be
    rendered in the log line is answered with status 500, but only after
    the stored token address has been overwritten: nothing is killed or
    spawned then, and the running child goes on.  The next automatic
    restart, however, kills that child and fails at its own log line
    before it spawns another: monitoring has stopped. *)
Theorem X12_failed_start_stops_the_next_restart
        (md5_hex : string -> string) (json_decode : string -> option value)
        (body u t : value) (name : string) (e : error)
        (w : Server.world) (p cur : nat) :
  Server.reachable md5_hex json_decode w ->
  Server.startArguments body = Return (u, t) ->
  ToBoolean t = true ->
  ToString u = Return name ->
  ToString t = Throw e ->
  Server.mcpProcess (Server.this w) = Some cur ->
  p <= cur ->
  let w1 := Server.step md5_hex json_decode w (Server.StartRequest body) in
  let w2 := Server.run md5_hex json_decode w1
                       [Server.ChildClosed p; Server.RestartTimer] in
  (Server.trace w1 = Server.trace w ++ [Server.Responded 500] /\
   Server.tokenAddress (Server.this w1) = t /\
   Server.children w1 = Server.children w /\
   Server.mcpProcess (Server.this w1) = Some cur) /\
  (Server.trace w2 = Server.trace w1 ++ [Server.Killed cur] /\
   Server.children w2 = [] /\
   Server.mcpProcess (Server.this w2) = Some cur).
Proof.
  intros Hreach Ha Hb Hu Ht Hm Hp. cbv zeta.
  pose proof (reachable_invariant md5_hex json_decode w Hreach) as Hinv.
  pose proof (reachable_tended md5_hex json_decode w Hreach) as [_ Hten].
  rewrite Hm in Hten. destruct Hten as [Hs [Hc _]].
  set (w1 := Server.step md5_hex json_decode w (Server.StartRequest body)).
  assert (Hreach1 : Server.reachable md5_hex json_decode w1)
    by now apply reachable_step.
  assert (E1 : w1 = Server.emit (Server.Responded 500)
                      (Server.on_this (Server.with_target u t) w)).
  { unfold w1, Server.step. cbn [Server.handle].
    rewrite (postStart_unprintable body u t name e w Ha Hb Hu Ht).
    apply drain_same with w; [exact Hinv | |]; now destruct w. }
  assert (F : Server.trace w1 = Server.trace w ++ [Server.Responded 500] /\
              Server.tokenAddress (Server.this w1) = t /\
              Server.children w1 = Server.children w /\
              Server.mcpProcess (Server.this w1) = Server.mcpProcess (Server.this w) /\
              Server.spawned w1 = Server.spawned w).
  { rewrite E1. now destruct w as [[]]. }
  destruct F as [F1 [F2 [F3 [F4 F5]]]].
  split; [now rewrite <- Hm|].
  cbn [Server.run fold_left].
  pose proof (reachable_invariant md5_hex json_decode w1 Hreach1) as Hinv1.
  assert (Hlt : p < Server.spawned w1) by (rewrite F5, Hs; lia).
  set (w2 := Server.step md5_hex json_decode w1 (Server.ChildClosed p)).
  assert (Hreach2 : Server.reachable md5_hex json_decode w2)
    by now apply reachable_step.
  assert (G : Server.restarts w2 = S (Server.restarts w1) /\
              Server.tokenAddress (Server.this w2) = Server.tokenAddress (Server.this w1) /\
              Server.mcpProcess (Server.this w2) = Server.mcpProcess (Server.this w1) /\
              Server.trace w2 = Server.trace w1 /\
              Server.children w2 = Server.remove p (Server.children w1)).
  { unfold w2. rewrite (closed_step md5_hex json_decode w1 p Hinv1 Hlt).
    now destruct w1. }
  destruct G as [G1 [G2 [G3 [G4 G5]]]].
  pose proof (reachable_invariant md5_hex json_decode w2 Hreach2) as Hinv2.
  rewrite (restart_step md5_hex json_decode w2 (Server.restarts w1) Hinv2 G1)
    by now rewrite G2, F2.
  set (w3 := Server.with_restarts (Server.restarts w1) w2).
  assert (K : Server.tokenAddress (Server.this w3) = Server.tokenAddress (Server.this w2) /\
              Server.mcpProcess (Server.this w3) = Server.mcpProcess (Server.this w2) /\
              Server.children w3 = Server.children w2 /\
              Server.trace w3 = Server.trace w2).
  { unfold w3. now destruct w2. }
  destruct K as [K1 [K2 [K3 K4]]].
  destruct (startPumpFunChat_stuck w3 cur) as [L1 [L2 [_ [_ [_ [_ L7]]]]]].
  { now rewrite K2, G3, F4. }
  { rewrite K1, G2, F2. unfold startable. now rewrite Ht. }
  rewrite L1, L2, L7, K3, K4, G4, G5, F3.
  assert (Hrm : Server.remove cur (Server.remove p (Server.children w)) = []).
  { destruct Hc as [->| ->]; [reflexivity|].
    destruct (remove_other p cur) as [->| ->]; [reflexivity | apply remove_one]. }
  now rewrite Hrm.
Qed.

Lemma X12_witness :
  let body := VObject [("tokenAddress", sampleOpaque)] in
  Server.reachable sampleHash sampleDecode sampleRestarted /\
  Server.startArguments body = Return (VString "AI Avatar", sampleOpaque) /\
  Server.mcpProcess (Server.this sampleRestarted) = Some 1 /\
  Server.children
    (Server.run sampleHash sampleDecode
       (Server.step sampleHash sampleDecode sampleRestarted (Server.StartRequest body))
       [Server.ChildClosed 0; Server.RestartTimer]) = [].
Proof.
  cbv zeta.
  assert (Hm : Server.mcpProcess (Server.this sampleRestarted) = Some 1)
    by (vm_compute; reflexivity).
  split; [exact sampleRestarted_reachable|]. split; [reflexivity|]. split; [exact Hm|].
  exact (proj1 (proj2 (proj2 (X12_failed_start_stops_the_next_restart
                                sampleHash sampleDecode
                                (VObject [("tokenAddress", sampleOpaque)])
                                (VString "AI Avatar") sampleOpaque "AI Avatar" TypeError
                                sampleRestarted 0 1 sampleRestarted_reachable
                                eq_refl eq_refl eq_refl eq_refl Hm (Nat.le_0_l 1))))).
Defined.

(** ** The processed set and the status endpoint *)

Lemma has_add (s : set) (x v : value) : has s v = true -> has (add s x) v = true.
Proof.
  intro H. unfold add. destruct (has s x); [exact H|].
  unfold has in *. rewrite existsb_app, H. reflexivity.
Qed.

Lemma size_add (s : set) (x : value) : size s <= size (add s x) <= S (size s).
Proof.
  unfold add, size. destruct (has s x); [lia|].
  rewrite length_app. cbn. lia.
Qed.

Section Processed.

Variable md5_hex : string -> string.
Variable json_decode : string -> option value.

(** The callbacks other than the interval and the intake: announcer and
    bookkeeping work. *)
Lemma handle_evolves (w : Server.world) (e : Server.event) :
  match e with
  | Server.Tick _ _ | Server.Output _ _ => False
  | _ => True
  end ->
  evolves (failure e) w (Server.handle md5_hex json_decode w e).
Proof.
  intro He.
  destruct e as [u tts|o tts|k err|k|chunk clock|body| |pid|];
    try contradiction; cbn [Server.handle].
  - destruct (Server.takeGenerating (Server.tasks w)) as [[[[c sel] p] rest]|].
    + eapply evolves_trans; [|apply evolves_afterGenerate].
      open_world w. evolved.
    + apply evolves_refl.
  - destruct (Server.mem k (Server.speech w)); [|apply evolves_refl].
    rewrite sayCallback_conclude. apply evolves_conclude.
  - destruct (Server.armed k (Server.timers w)); [|apply evolves_refl].
    rewrite ttsTimeout_conclude.
    apply evolves_weaken with (true = true); [easy|apply evolves_conclude].
  - apply evolves_weaken with False; [tauto|apply evolves_postStart].
  - apply evolves_refl.
  - destruct (pid <? Server.spawned w); [|apply evolves_refl].
    open_world w. evolved.
  - destruct (Server.restarts w) as [|n] eqn:Hr; [apply evolves_refl|].
    unfold Server.restartTimer.
    destruct (ToBoolean _).
    + apply evolves_weaken with False; [tauto|].
      eapply evolves_trans; [|apply evolves_startPumpFunChat].
      open_world w. evolved.
    + open_world w. evolved.
Qed.

(** One turn of the loop marks at most the head of the queue. *)
Lemma step_processed (w : Server.world) (e : Server.event) :
  let w' := Server.step md5_hex json_decode w e in
  Server.processedComments (Server.this w') = Server.processedComments (Server.this w) \/
  exists c rest,
    Server.commentQueue (Server.this w) = c :: rest /\
    Server.processedComments (Server.this w')
    = add (Server.processedComments (Server.this w)) (Server.id c).
Proof.
  cbv zeta. unfold Server.step.
  rewrite (ev_processed _ _ _ (evolves_drain _)).
  destruct e as [u tts|o tts|k err|k|chunk clock|body| |pid|];
    try (left;
         match goal with
         | |- context [Server.handle _ _ w ?e0] =>
             exact (ev_processed _ _ _ (handle_evolves w e0 I))
         end).
  - cbn [Server.handle].
    destruct (0 <? Server.intervals w); [|now left].
    unfold Server.tick.
    destruct (negb (Server.isProcessing (Server.this w))
              && (0 <? List.length (Server.commentQueue (Server.this w)))) eqn:Hgo;
      [|now left].
    apply andb_prop in Hgo. destruct Hgo as [Hidle _]. apply negb_true_iff in Hidle.
    destruct (Server.commentQueue (Server.this w)) as [|c rest] eqn:Hq.
    { left. unfold Server.processNextComment. now rewrite Hidle, Hq. }
    destruct (printable_or_not c) as [Hc|[e He]].
    + right. exists c, rest. split; [reflexivity|].
      rewrite (processNextComment_eq u tts w c rest Hidle Hq Hc).
      destruct (begun_facts c rest w) as [_ [Bp _]]. rewrite <- Bp.
      destruct (Server.generateBegin _ _ _).
      * apply (ev_processed _ _ _ (evolves_afterGenerate _ _ _ _)).
      * apply (ev_processed _ _ _ (evolves_suspend _ _)).
    + left. rewrite (processNextComment_unprintable u tts w c rest e Hidle Hq He).
      now open_world w.
  - left. cbn [Server.handle].
    destruct (core_output md5_hex json_decode chunk clock w) as [Hc _].
    cbv zeta in Hc. unfold core in Hc. now injection Hc.
Qed.

Lemma run_has (es : list Server.event) (w : Server.world) (i : value) :
  has (Server.processedComments (Server.this w)) i = true ->
  has (Server.processedComments
         (Server.this (Server.run md5_hex json_decode w es))) i = true.
Proof.
  revert w. induction es as [|e es IH]; intros w H; [exact H|].
  cbn [Server.run fold_left]. apply IH.
  destruct (step_processed w e) as [E|[c [rest [_ E]]]]; cbv zeta in E; rewrite E;
    [exact H | now apply has_add].
Qed.

Lemma run_size (es : list Server.event) (w : Server.world) :
  size (Server.processedComments (Server.this w))
  <= size (Server.processedComments
             (Server.this (Server.run md5_hex json_decode w es))).
Proof.
  revert w. induction es as [|e es IH]; intros w; [reflexivity|].
  cbn [Server.run fold_left]. etransitivity; [|apply IH].
  destruct (step_processed w e) as [E|[c [rest [_ E]]]]; cbv zeta in E; rewrite E;
    [reflexivity | apply size_add].
Qed.

End Processed.

(** X13.  The processed set only grows: whatever happens later, an id
    that is in it stays in it, the [processedCount] of the status
    endpoint never goes down and goes up by at most one in a turn of the
    event loop; and a comment whose id is in the set is never queued
    again, whenever it is read again. *)
Theorem X13_processed_is_never_queued_again
        (md5_hex : string -> string) (json_decode : string -> option value)
        (w : Server.world) (es : list Server.event) (e : Server.event)
        (user message providedId cid : value) (now : N) :
  Server.commentId md5_hex user message providedId = Return cid ->
  has (Server.processedComments (Server.this w)) cid = true ->
  let w' := Server.run md5_hex json_decode w es in
  Server.queueComment md5_hex user message providedId now (Server.this w')
  = (Return tt, Server.this w') /\
  Server.processedCount (Server.getStatus w)
  <= Server.processedCount (Server.getStatus w') /\
  Server.processedCount (Server.getStatus (Server.step md5_hex json_decode w e))
  <= S (Server.processedCount (Server.getStatus w)).
Proof.
  intros Hid Hhas. cbv zeta. split; [|split].
  - rewrite queueComment_eq, Hid.
    now rewrite (run_has md5_hex json_decode es w cid Hhas).
  - apply run_size.
  - cbn [Server.getStatus Server.processedCount].
    destruct (step_processed md5_hex json_decode w e) as [E|[c [rest [_ E]]]];
      cbv zeta in E; rewrite E; [lia | apply size_add].
Qed.

Lemma X13_witness :
  Server.commentId sampleHash (VString "alice") (VString "gm wagmi") VNull
  = Return (VString "alice_alice:gm") /\
  has (Server.processedComments (Server.this sampleSpeaking)) (VString "alice_alice:gm")
  = true /\
  let w' := Server.run sampleHash sampleDecode sampleSpeaking [Server.TtsTimeout 0] in
  Server.queueComment sampleHash (VString "alice") (VString "gm wagmi") VNull 9
                      (Server.this w')
  = (Return tt, Server.this w').
Proof.
  assert (Hid : Server.commentId sampleHash (VString "alice") (VString "gm wagmi") VNull
                = Return (VString "alice_alice:gm")) by (vm_compute; reflexivity).
  assert (Hh : has (Server.processedComments (Server.this sampleSpeaking))
                   (VString "alice_alice:gm") = true) by (vm_compute; reflexivity).
  split; [exact Hid|]. split; [exact Hh|].
  pose proof (X13_processed_is_never_queued_again sampleHash sampleDecode
                sampleSpeaking [Server.TtsTimeout 0] Server.StatusRequest
                (VString "alice") (VString "gm wagmi") VNull
                (VString "alice_alice:gm") 9 Hid Hh) as H.
  exact (proj1 H).
Defined.

(** X14.  The status endpoint only reads, and what it reports is
    consistent: in every state the program can reach it never reports
    [currentlySpeaking] without [isProcessing]. *)
Theorem X14_status_reads_a_consistent_state
        (md5_hex : string -> string) (json_decode : string -> option value)
        (w : Server.world) :
  Server.reachable md5_hex json_decode w ->
  Server.step md5_hex json_decode w Server.StatusRequest = w /\
  (Server.statusCurrentlySpeaking (Server.getStatus w) = true ->
   Server.statusIsProcessing (Server.getStatus w) = true).
Proof.
  intro Hreach.
  pose proof (reachable_invariant md5_hex json_decode w Hreach) as Hinv.
  split.
  - unfold Server.step. cbn [Server.handle]. now apply drain_stable.
  - cbn [Server.getStatus Server.statusCurrentlySpeaking Server.statusIsProcessing].
    destruct Hinv as [Ht _ _].
    destruct (Server.tasks w) as [|[c sel p|c k] [|t2 more]]; try contradiction.
    + destruct Ht as [_ [Hcs _]]. congruence.
    + destruct Ht as [Hb _]. intros _. exact Hb.
    + destruct Ht as [Hb _]. intros _. exact Hb.
Qed.

Lemma X14_witness :
  Server.reachable sampleHash sampleDecode sampleSpeaking /\
  Server.step sampleHash sampleDecode sampleSpeaking Server.StatusRequest
  = sampleSpeaking.
Proof.
  split; [exact sampleSpeaking_reachable|].
  exact (proj1 (X14_status_reads_a_consistent_state sampleHash sampleDecode
                  sampleSpeaking sampleSpeaking_reachable)).
Defined.

(** ** The avatar animation and the model *)

Lemma responsesSpoken_app (a b : list Server.action) :
  responsesSpoken (a ++ b) = responsesSpoken a ++ responsesSpoken b.
Proof.
  induction a as [|x a IH]; [reflexivity|].
  destruct x; cbn [app responsesSpoken]; now rewrite IH.
Qed.

Lemma textsAnimated_app (a b : list Server.action) :
  textsAnimated (a ++ b) = textsAnimated a ++ textsAnimated b.
Proof.
  induction a as [|x a IH]; [reflexivity|].
  destruct x; cbn [app textsAnimated]; now rewrite IH.
Qed.

(** Closing a goal about the [book] of an explicit world. *)
Ltac booked :=
  unfold book, said; wstep;
  rewrite ?responsesSpoken_app, ?textsAnimated_app;
  cbn [responsesSpoken textsAnimated app];
  rewrite ?app_nil_r;
  reflexivity.

Lemma book_fields (w : Server.world) (t : list Server.suspended) (n : nat)
      (rs ta : list value) :
  book w = (t, n, rs, ta) ->
  Server.tasks w = t /\ Server.calls w = n /\
  responsesSpoken (Server.trace w) = rs /\ textsAnimated (Server.trace w) = ta.
Proof. unfold book. intro E. now inversion E. Qed.

Lemma book_resolve (k : nat) (w : Server.world) : book (Server.resolve k w) = book w.
Proof.
  open_world w. unfold Server.resolve. cbn [Server.settled].
  destruct (Server.mem k settled); booked.
Qed.

Lemma book_finish (w : Server.world) : book (Server.finish w) = book w.
Proof. open_world w. booked. Qed.

Lemma book_conclude (k : nat) (disable : bool) (timers' : list (nat * N))
      (speech' : list nat) (w : Server.world) :
  book (conclude k disable timers' speech' w) = book w.
Proof. unfold conclude. rewrite book_resolve. open_world w. booked. Qed.

Lemma book_speakResponse (r : value) (tts : Server.say) (w : Server.world) :
  book (Server.speakResponse r tts w) = said (Server.tasks w) r w.
Proof.
  open_world w.
  destruct td, tts; destruct (Server.mem calls settled) eqn:E;
    unfold book, said; wstep; rewrite ?E; booked.
Qed.

Lemma book_afterGenerate (c : Server.comment) (r : completion value)
      (tts : Server.say) (w : Server.world) :
  book (Server.afterGenerate c r tts w)
  = match r with
    | Return response =>
        said (Server.tasks w ++ [Server.AwaitSpeak c (Server.calls w)]) response w
    | Throw _ => book w
    end.
Proof.
  unfold Server.afterGenerate. destruct r as [response|e].
  - cbv zeta.
    set (w1 := Server.emit _ w).
    assert (F : Server.tasks w1 = Server.tasks w /\ Server.calls w1 = Server.calls w /\
                responsesSpoken (Server.trace w1) = responsesSpoken (Server.trace w) /\
                textsAnimated (Server.trace w1) = textsAnimated (Server.trace w)).
    { unfold w1. open_world w. wstep.
      rewrite responsesSpoken_app, textsAnimated_app.
      cbn [responsesSpoken textsAnimated]. now rewrite !app_nil_r. }
    destruct F as [F1 [F2 [F3 F4]]].
    destruct (book_fields _ _ _ _ _ (book_speakResponse response tts w1))
      as [H1 [H2 [H3 H4]]].
    rewrite F2.
    set (w2 := Server.speakResponse response tts w1) in *.
    assert (S1 : book (Server.suspend (Server.AwaitSpeak c (Server.calls w)) w2)
                 = (Server.tasks w2 ++ [Server.AwaitSpeak c (Server.calls w)],
                    Server.calls w2, responsesSpoken (Server.trace w2),
                    textsAnimated (Server.trace w2)))
      by now destruct w2.
    rewrite S1, H1, H2, H3, H4, F1, F2, F3, F4. reflexivity.
  - open_world w. booked.
Qed.

Lemma book_startPumpFunChat (w : Server.world) :
  book (snd (Server.startPumpFunChat w)) = book w.
Proof.
  open_world w. unfold Server.startPumpFunChat.
  destruct mp; wstep; destruct (ToString ta); try destruct (spawnRefuses ta);
    cbn [snd]; booked.
Qed.

Lemma book_postStart (body : value) (w : Server.world) :
  book (Server.postStart body w) = book w.
Proof.
  unfold Server.postStart.
  destruct (Server.startArguments body) as [[u t]|e]; [|open_world w; booked].
  destruct (negb (ToBoolean t)); [open_world w; booked|].
  destruct (bind (ToString u) (fun _ => ToString t)); [|open_world w; booked].
  pose proof (book_startPumpFunChat (Server.on_this (Server.with_target u t) w)) as H.
  destruct (Server.startPumpFunChat (Server.on_this (Server.with_target u t) w))
    as [[[]|e] w1]; cbn [snd] in H.
  - transitivity (book w1); [destruct w1; booked|].
    rewrite H. open_world w. booked.
  - transitivity (book w1); [destruct w1; booked|].
    rewrite H. open_world w. booked.
Qed.

Lemma generateBegin_awaits (c : Server.comment) (u : draw) (g : bool)
      (sel : value) (p : string) :
  Server.generateBegin c u g = Server.AwaitingBackend sel p -> g = true.
Proof.
  destruct g; [reflexivity|]. unfold Server.generateBegin.
  destruct (ToString (Server.user c)); cbn [bind]; [|discriminate].
  destruct (Server.callToLowerCase (Server.message c)); cbn [bind]; discriminate.
Qed.

Lemma book_processNextComment (u : draw) (tts : Server.say) (w : Server.world) :
  let w' := Server.processNextComment u tts w in
  book w' = book w \/
  (Server.textGenerator (Server.this w) = true /\
   exists c sel p,
     book w' = (Server.tasks w ++ [Server.AwaitGenerate c sel p], Server.calls w,
                responsesSpoken (Server.trace w), textsAnimated (Server.trace w))) \/
  exists c r,
    book w' = said (Server.tasks w ++ [Server.AwaitSpeak c (Server.calls w)]) r w.
Proof.
  cbv zeta. unfold Server.processNextComment.
  destruct (Server.isProcessing (Server.this w)); [now left|].
  destruct (Server.commentQueue (Server.this w)) as [|c rest]; [now left|].
  destruct (bind _ _); [|left; open_world w; booked].
  cbv zeta.
  set (w1 := Server.emit (Server.GenerateCalled c) _).
  assert (E : book w1 = book w) by (unfold w1; open_world w; booked).
  assert (Ec : Server.calls w1 = Server.calls w /\ Server.tasks w1 = Server.tasks w /\
               Server.trace w1 = Server.trace w
                                 ++ [Server.Dequeued c; Server.MarkedProcessed (Server.id c);
                                     Server.GenerateCalled c] /\
               Server.textGenerator (Server.this w1) = Server.textGenerator (Server.this w)).
  { unfold w1. open_world w. wstep. repeat split. now repeat rewrite <- app_assoc. }
  destruct Ec as [Ec [Et [Etr Eg]]].
  destruct (Server.generateBegin c u (Server.textGenerator (Server.this w1)))
    as [r|sel p] eqn:Hg.
  - rewrite book_afterGenerate. destruct r as [response|e]; [|now left].
    right. right. exists c, response. unfold said. rewrite Ec, Et, Etr.
    rewrite responsesSpoken_app, textsAnimated_app.
    cbn [responsesSpoken textsAnimated]. now rewrite !app_nil_r.
  - right. left. split.
    + rewrite <- Eg. exact (generateBegin_awaits _ _ _ _ _ Hg).
    + exists c, sel, p.
      transitivity (Server.tasks w1 ++ [Server.AwaitGenerate c sel p], Server.calls w1,
                    responsesSpoken (Server.trace w1), textsAnimated (Server.trace w1)).
      * now destruct w1.
      * rewrite Ec, Et, Etr, responsesSpoken_app, textsAnimated_app.
        cbn [responsesSpoken textsAnimated]. now rewrite !app_nil_r.
Qed.

Lemma book_drain (w : Server.world) :
  exists t, book (Server.drain w)
            = (t, Server.calls w, responsesSpoken (Server.trace w),
               textsAnimated (Server.trace w)) /\
            forall P : Server.suspended -> Prop, Forall P (Server.tasks w) -> Forall P t.
Proof.
  unfold Server.drain. cbv zeta.
  destruct (filter (Server.awaitsSettled (Server.settled w)) (Server.tasks w)).
  - exists (Server.tasks w). split; [reflexivity | auto].
  - exists (filter (fun t => negb (Server.awaitsSettled (Server.settled w) t))
                   (Server.tasks w)).
    split; [open_world w; booked|].
    intros P H. apply Forall_forall. intros x Hx.
    apply filter_In in Hx. destruct Hx as [Hx _].
    rewrite Forall_forall in H. now apply H.
Qed.

Lemma takeGenerating_none (l : list Server.suspended) :
  Forall awaitsSpeech l -> Server.takeGenerating l = None.
Proof.
  induction 1 as [|t l Ht _ IH]; [reflexivity|].
  destruct t; [destruct Ht|]. cbn [Server.takeGenerating]. now rewrite IH.
Qed.

Lemma paced_same (w w' : Server.world) :
  Server.calls w' = Server.calls w ->
  responsesSpoken (Server.trace w') = responsesSpoken (Server.trace w) ->
  textsAnimated (Server.trace w') = textsAnimated (Server.trace w) ->
  paced w -> paced w'.
Proof. unfold paced. intros -> -> ->. auto. Qed.

Lemma paced_book (w w' : Server.world) :
  book w' = book w -> paced w -> paced w'.
Proof.
  unfold book. intro E. injection E as _ E2 E3 E4. now apply paced_same.
Qed.

Lemma paced_said (t : list Server.suspended) (r : value) (w w' : Server.world) :
  book w' = said t r w -> paced w -> paced w'.
Proof.
  unfold book, said, paced. intro E. injection E as _ E2 E3 E4.
  rewrite E2, E3, E4. intros [H1 H2]. split; [now rewrite H1|].
  rewrite length_app, H2. cbn. lia.
Qed.

Section Animation.

Variable md5_hex : string -> string.
Variable json_decode : string -> option value.

Lemma book_output (chunk : string) (clock : nat -> N) (w : Server.world) :
  book (Server.on_this
          (fun a => snd (Server.parseAndQueueComments md5_hex json_decode chunk clock a)) w)
  = book w.
Proof. now destruct w. Qed.

Lemma handle_paced (w : Server.world) (e : Server.event) :
  paced w -> paced (Server.handle md5_hex json_decode w e).
Proof.
  intro H.
  destruct e as [u tts|o tts|k err|k|chunk clock|body| |pid|]; cbn [Server.handle].
  - destruct (0 <? Server.intervals w); [|exact H].
    unfold Server.tick. destruct (_ && _); [|exact H].
    destruct (book_processNextComment u tts w) as [E|[[_ [c [sel [p E]]]]|[c [r E]]]];
      cbv zeta in E.
    + now apply paced_book with w.
    + unfold book in E. injection E as _ E2 E3 E4. now apply paced_same with w.
    + now apply paced_said with (2 := H) in E.
  - destruct (Server.takeGenerating (Server.tasks w)) as [[[[c sel] p] rest]|];
      [|exact H].
    assert (H1 : paced (Server.with_tasks rest w))
      by (apply paced_same with w; try exact H; now destruct w).
    pose proof (book_afterGenerate c (Server.generateResume sel p o) tts
                  (Server.with_tasks rest w)) as E.
    destruct (Server.generateResume sel p o) as [response|err].
    + now apply paced_said with (2 := H1) in E.
    + now apply paced_book with (2 := H1) in E.
  - destruct (Server.mem k (Server.speech w)); [|exact H].
    rewrite sayCallback_conclude. apply paced_book with w; [|exact H].
    rewrite book_conclude. now destruct w.
  - destruct (Server.armed k (Server.timers w)); [|exact H].
    rewrite ttsTimeout_conclude. apply paced_book with w; [|exact H].
    rewrite book_conclude. now destruct w.
  - apply paced_book with w; [apply book_output | exact H].
  - apply paced_book with w; [apply book_postStart | exact H].
  - exact H.
  - destruct (pid <? Server.spawned w); [|exact H].
    apply paced_book with w; [now destruct w | exact H].
  - destruct (Server.restarts w) as [|n]; [exact H|].
    unfold Server.restartTimer.
    assert (H1 : paced (Server.with_restarts n w))
      by (apply paced_book with w; [now destruct w | exact H]).
    destruct (ToBoolean _); [|exact H1].
    apply paced_book with (Server.with_restarts n w);
      [apply book_startPumpFunChat | exact H1].
Qed.

Lemma step_paced (w : Server.world) (e : Server.event) :
  paced w -> paced (Server.step md5_hex json_decode w e).
Proof.
  intro H. unfold Server.step.
  destruct (book_drain (Server.handle md5_hex json_decode w e)) as [t [E _]].
  unfold book in E. injection E as _ E2 E3 E4.
  apply paced_same with (Server.handle md5_hex json_decode w e); try assumption.
  now apply handle_paced.
Qed.

Lemma reachable_paced (w : Server.world) :
  Server.reachable md5_hex json_decode w -> paced w.
Proof.
  intros [loaded [es ->]].
  assert (H : forall es w0, paced w0 -> paced (Server.run md5_hex json_decode w0 es)).
  { clear es. induction es as [|e es IH]; intros w0 H0; [exact H0|].
    cbn [Server.run fold_left]. apply IH. now apply step_paced. }
  apply H. split; reflexivity.
Qed.

End Animation.

(** X15.  Every response handed to [speakResponse] is also handed to
    [triggerAvatarAnimation], exactly once and in the same order, whether
    it was voiced, timed out, failed or was not attempted because speech
    is disabled: in every state the program can reach, the texts animated
    so far are the responses spoken so far, one per call. *)
Theorem X15_every_response_is_animated_once
        (md5_hex : string -> string) (json_decode : string -> option value)
        (w : Server.world) :
  Server.reachable md5_hex json_decode w ->
  textsAnimated (Server.trace w) = responsesSpoken (Server.trace w) /\
  List.length (textsAnimated (Server.trace w)) = Server.calls w.
Proof.
  intro Hreach.
  destruct (reachable_paced md5_hex json_decode w Hreach) as [H1 H2].
  split; [exact H1 | now rewrite H1].
Qed.

Lemma X15_witness :
  Server.reachable sampleHash sampleDecode sampleDisabled /\
  textsAnimated (Server.trace sampleDisabled)
  = [VString "alice, to the moon? More like to the metaverse! 🌙🚀"].
Proof.
  split; [exact sampleDisabled_reachable|].
  rewrite (proj1 (X15_every_response_is_animated_once sampleHash sampleDecode
                    sampleDisabled sampleDisabled_reachable)).
  vm_compute. reflexivity.
Defined.

Lemma household_fields (w w' : Server.world) :
  household w' = household w ->
  Server.textGenerator (Server.this w') = Server.textGenerator (Server.this w).
Proof. unfold household. intro E. now inversion E. Qed.

Lemma textGenerator_startPumpFunChat (w : Server.world) :
  Server.textGenerator (Server.this (snd (Server.startPumpFunChat w)))
  = Server.textGenerator (Server.this w).
Proof.
  open_world w. unfold Server.startPumpFunChat.
  destruct mp; wstep; destruct (ToString ta); try destruct (spawnRefuses ta);
    reflexivity.
Qed.

Lemma textGenerator_postStart (body : value) (w : Server.world) :
  Server.textGenerator (Server.this (Server.postStart body w))
  = Server.textGenerator (Server.this w).
Proof.
  unfold Server.postStart.
  destruct (Server.startArguments body) as [[u t]|e]; [|now destruct w].
  destruct (negb (ToBoolean t)); [now destruct w|].
  destruct (bind (ToString u) (fun _ => ToString t)); [|now open_world w].
  pose proof (textGenerator_startPumpFunChat
                (Server.on_this (Server.with_target u t) w)) as H.
  destruct (Server.startPumpFunChat (Server.on_this (Server.with_target u t) w))
    as [[[]|e] w1]; cbn [snd] in H.
  - transitivity (Server.textGenerator (Server.this w1)); [now destruct w1|].
    rewrite H. now open_world w.
  - transitivity (Server.textGenerator (Server.this w1)); [now destruct w1|].
    rewrite H. now open_world w.
Qed.

Section Model.

Variable md5_hex : string -> string.
Variable json_decode : string -> option value.

Lemma step_textGenerator (w : Server.world) (e : Server.event) :
  Server.textGenerator (Server.this (Server.step md5_hex json_decode w e))
  = Server.textGenerator (Server.this w).
Proof.
  destruct e as [u tts|o tts|k err|k|chunk clock|body| |pid|] eqn:Ee;
    try (apply household_fields; apply step_household; exact I);
    unfold Server.step;
    rewrite (household_fields _ _ (household_drain _)); cbn [Server.handle].
  - apply textGenerator_postStart.
  - destruct (pid <? Server.spawned w); [now open_world w | reflexivity].
  - destruct (Server.restarts w) as [|n]; [reflexivity|].
    unfold Server.restartTimer. destruct (ToBoolean _); [|now open_world w].
    rewrite textGenerator_startPumpFunChat. now open_world w.
Qed.

Lemma handle_voiceless (w : Server.world) (e : Server.event) :
  Server.textGenerator (Server.this w) = false ->
  Forall awaitsSpeech (Server.tasks w) ->
  Forall awaitsSpeech (Server.tasks (Server.handle md5_hex json_decode w e)).
Proof.
  intros Hg H.
  destruct e as [u tts|o tts|k err|k|chunk clock|body| |pid|]; cbn [Server.handle].
  - destruct (0 <? Server.intervals w); [|exact H].
    unfold Server.tick. destruct (_ && _); [|exact H].
    destruct (book_processNextComment u tts w) as [E|[[Ht E]|[c [r E]]]];
      cbv zeta in E.
    + destruct (book_fields _ _ _ _ _ E) as [-> _]. exact H.
    + congruence.
    + destruct (book_fields _ _ _ _ _ E) as [-> _].
      apply Forall_app. split; [exact H|]. now constructor.
  - now rewrite (takeGenerating_none _ H).
  - destruct (Server.mem k (Server.speech w)); [|exact H].
    rewrite sayCallback_conclude.
    pose proof (book_conclude k err (Server.clearTimeout k (Server.timers w))
                  (Server.remove k (Server.speech w)) w) as E.
    destruct (book_fields _ _ _ _ _ E) as [-> _]. exact H.
  - destruct (Server.armed k (Server.timers w)); [|exact H].
    rewrite ttsTimeout_conclude.
    pose proof (book_conclude k true (Server.clearTimeout k (Server.timers w))
                  (Server.speech w) w) as E.
    destruct (book_fields _ _ _ _ _ E) as [-> _]. exact H.
  - now destruct w.
  - destruct (book_fields _ _ _ _ _ (book_postStart body w)) as [-> _]. exact H.
  - exact H.
  - destruct (pid <? Server.spawned w); [now destruct w | exact H].
  - destruct (Server.restarts w) as [|n]; [exact H|].
    unfold Server.restartTimer. destruct (ToBoolean _); [|now destruct w].
    destruct (book_fields _ _ _ _ _ (book_startPumpFunChat (Server.with_restarts n w)))
      as [-> _].
    now destruct w.
Qed.

Lemma run_voiceless (es : list Server.event) (w : Server.world) :
  Server.textGenerator (Server.this w) = false ->
  Forall awaitsSpeech (Server.tasks w) ->
  Forall awaitsSpeech (Server.tasks (Server.run md5_hex json_decode w es)).
Proof.
  revert w. induction es as [|e es IH]; intros w Hg H; [exact H|].
  cbn [Server.run fold_left]. apply IH.
  - now rewrite step_textGenerator.
  - unfold Server.step.
    destruct (book_drain (Server.handle md5_hex json_decode w e)) as [t [E Ht]].
    destruct (book_fields _ _ _ _ _ E) as [-> _].
    apply Ht. now apply handle_voiceless.
Qed.

Lemma run_textGenerator (es : list Server.event) (w : Server.world) :
  Server.textGenerator (Server.this (Server.run md5_hex json_decode w es))
  = Server.textGenerator (Server.this w).
Proof.
  revert w. induction es as [|e es IH]; intros w; [reflexivity|].
  cbn [Server.run fold_left]. etransitivity; [apply IH | apply step_textGenerator].
Qed.

End Model.

(** X16.  [initializeAI] decides once and for all whether there is a
    model: [textGenerator] keeps the value it got at start-up in every
    state the program can reach.  When the model could not be loaded the
    processor never waits for it: no invocation is ever suspended in
    [generateResponse], and the settlement of a model call, which cannot
    occur, would change nothing. *)
Theorem X16_model_is_fixed_at_startup
        (md5_hex : string -> string) (json_decode : string -> option value)
        (loaded : bool) (es : list Server.event) :
  let w := Server.run md5_hex json_decode (Server.booted loaded) es in
  Server.textGenerator (Server.this w) = loaded /\
  (loaded = false ->
   Forall awaitsSpeech (Server.tasks w) /\
   forall o tts, Server.step md5_hex json_decode w (Server.BackendSettled o tts) = w).
Proof.
  cbv zeta. split.
  - now rewrite run_textGenerator.
  - intros ->.
    assert (H : Forall awaitsSpeech
                  (Server.tasks (Server.run md5_hex json_decode (Server.booted false) es)))
      by (apply run_voiceless; [reflexivity | constructor]).
    split; [exact H|]. intros o tts.
    unfold Server.step. cbn [Server.handle].
    rewrite (takeGenerating_none _ H).
    apply drain_stable. apply reachable_invariant with md5_hex json_decode.
    now exists false, es.
Qed.

Lemma X16_witness :
  Server.textGenerator (Server.this sampleDisabled) = false /\
  Server.step sampleHash sampleDecode
              (Server.run sampleHash sampleDecode (Server.booted false) sampleEvents)
              (Server.BackendSettled Rejects Server.SayStarts)
  = Server.run sampleHash sampleDecode (Server.booted false) sampleEvents.
Proof.
  split; [vm_compute; reflexivity|].
  pose proof (X16_model_is_fixed_at_startup sampleHash sampleDecode false sampleEvents)
    as H.
  exact (proj2 (proj2 H eq_refl) Rejects Server.SayStarts).
Defined.

(** ** The event loop of [app.js] *)

Ltac astep :=
  lazy beta iota zeta delta
    [AppLoop.afterGenerate AppLoop.speakResponse AppLoop.suspend AppLoop.resolve
     AppLoop.emit AppLoop.on_this AppLoop.on_node AppLoop.with_calls
     AppLoop.with_speech AppLoop.with_settled AppLoop.with_tasks AppLoop.with_restarts
     AppLoop.with_currentlySpeaking AppLoop.with_isProcessing
     AppLoop.with_processedComments AppLoop.finish AppLoop.drain AppLoop.sayCallback
     AppLoop.awaitsSettled AppLoop.childClosed
     AppLoop.this AppLoop.node AppLoop.tasks AppLoop.speech AppLoop.settled
     AppLoop.calls AppLoop.restarts
     App.on_this App.emit App.with_commentQueue App.with_target App.with_mcpProcess
     App.this App.children App.spawned App.intervals App.trace
     App.commentQueue App.processedComments App.isProcessing App.username
     App.tokenAddress App.mcpProcess App.textGenerator App.currentlySpeaking].

Ltac open_loop w :=
  destruct w as [[[q pr ip un ta mp tg cs] children spawned intervals trace]
                   tasks speech settled calls restarts].

Lemma app_parseLine_effect (line : string) (now : N) (st : App.app) :
  snd (App.parseLine line now st) = st \/
  exists c, snd (App.parseLine line now st)
            = App.with_commentQueue (App.commentQueue st ++ [c]) st.
Proof.
  unfold App.parseLine, ret.
  destruct (_ || _); [|now left].
  destruct (Server.match2 Regex.messageRe line) as [[u m]|]; [|now left].
  destruct (negb _); [right; eexists; reflexivity | now left].
Qed.

(** The intake of [app.js] changes the queue only, and only by appending. *)
Lemma app_intake_appends (chunk : string) (clock : nat -> N) (st : App.app) :
  exists added,
    snd (App.parseAndQueueComments chunk clock st)
    = App.with_commentQueue (App.commentQueue st ++ added) st.
Proof.
  rewrite app_parseAndQueueComments_eq.
  generalize (Text.split Text.LF chunk) as lines. generalize 0 as k.
  intros k lines. revert k st.
  induction lines as [|line rest IH]; intros k st.
  - exists []. cbn [App.forEachLine ret snd]. rewrite app_nil_r. now destruct st.
  - rewrite app_forEachLine_cons.
    destruct (app_parseLine_effect line (clock k) st) as [E|[c E]]; rewrite E.
    + apply IH.
    + destruct (IH (S k) (App.with_commentQueue (App.commentQueue st ++ [c]) st))
        as [added H].
      exists (c :: added). rewrite H. destruct st. cbn. now rewrite <- app_assoc.
Qed.

Lemma app_startPumpFunChat_frame (n : App.world) :
  let a := App.this n in
  let a' := App.this (snd (App.startPumpFunChat n)) in
  App.commentQueue a' = App.commentQueue a /\
  App.isProcessing a' = App.isProcessing a /\
  App.currentlySpeaking a' = App.currentlySpeaking a.
Proof.
  destruct n as [[q pr ip un ta mp tg cs] children spawned intervals trace].
  unfold App.startPumpFunChat. cbv zeta.
  destruct mp; cbn [App.this App.mcpProcess App.emit App.tokenAddress];
    destruct (ToString ta); try destruct (spawnRefuses ta); cbn; auto.
Qed.

Lemma app_postStart_frame (body : value) (n : App.world) :
  let a := App.this n in
  let a' := App.this (App.postStart body n) in
  App.commentQueue a' = App.commentQueue a /\
  App.isProcessing a' = App.isProcessing a /\
  App.currentlySpeaking a' = App.currentlySpeaking a.
Proof.
  cbv zeta. unfold App.postStart.
  destruct (App.startArguments body) as [[u t]|e]; [|now destruct n].
  destruct (_ || _); [now destruct n|].
  destruct (bind (ToString u) (fun _ => ToString t)); [|now destruct n as [[]]].
  pose proof (app_startPumpFunChat_frame (App.on_this (App.with_target u t) n)) as H.
  cbv zeta in H.
  destruct (App.startPumpFunChat (App.on_this (App.with_target u t) n)) as [[[]|e] n1];
    cbn [snd] in H; destruct H as [H1 [H2 H3]];
    cbn [App.this App.emit]; rewrite H1, H2, H3; now destruct n as [[]].
Qed.

Lemma orderly_frame (w w' : AppLoop.world) :
  pulse w' = pulse w -> orderly w -> orderly w'.
Proof.
  unfold pulse. intros E [H1 H2]. inversion E as [[Et Es Ed Ec Ei Ek]].
  constructor.
  - rewrite Et, Es, Ed, Ec, Ei, Ek. exact H1.
  - rewrite Ed, Ec. exact H2.
Qed.

Lemma app_ready_none (w : AppLoop.world) :
  orderly w ->
  filter (AppLoop.awaitsSettled (AppLoop.settled w)) (AppLoop.tasks w) = [].
Proof.
  intros [H _].
  destruct (AppLoop.tasks w) as [|[c|c k] [|t rest]]; try contradiction;
    try reflexivity.
  destruct H as [_ [_ [_ [Hk _]]]]. cbn. now rewrite Hk.
Qed.

Lemma app_drain_stable (w : AppLoop.world) : orderly w -> AppLoop.drain w = w.
Proof.
  intro H. unfold AppLoop.drain. cbv zeta. now rewrite (app_ready_none w H).
Qed.

(** No microtask is waiting after a callback that leaves the loop part of
    the world as it was. *)
Lemma app_drain_same (w w' : AppLoop.world) :
  orderly w -> pulse w' = pulse w -> AppLoop.drain w' = w' /\ orderly w'.
Proof.
  intros H E. pose proof (orderly_frame w w' E H) as H'.
  split; [now apply app_drain_stable | exact H'].
Qed.

Lemma app_orderly_booted (loaded : bool) : orderly (AppLoop.booted loaded).
Proof. constructor; cbn; [auto | discriminate]. Qed.

(** The end of [processNextComment], from a state in its middle. *)
Lemma app_afterGenerate_orderly (c : App.comment) (r : completion value)
      (tts : Server.say) (w : AppLoop.world) :
  AppLoop.tasks w = [] -> AppLoop.speech w = [] ->
  App.isProcessing (AppLoop.this w) = true ->
  (forall k, Server.mem k (AppLoop.settled w) = true -> k < AppLoop.calls w) ->
  let w' := AppLoop.afterGenerate c r tts w in
  AppLoop.drain w' = w' /\ orderly w'.
Proof.
  intros Et Es Hb Hfr. open_loop w. cbn in Et, Es, Hb, Hfr. subst tasks speech ip.
  assert (Hnew : Server.mem calls settled = false).
  { destruct (Server.mem calls settled) eqn:E; [apply Hfr in E; lia | reflexivity]. }
  cbv zeta.
  assert (G : forall w', orderly w' -> AppLoop.drain w' = w' /\ orderly w')
    by (intros w' H; split; [now apply app_drain_stable | exact H]).
  apply G.
  destruct r as [response|e]; [destruct (ToString response) eqn:Er; [destruct tts|]|];
    astep; rewrite ?Er; astep; constructor; astep; cbn [app]; auto;
    try (intros k Hk; apply Hfr in Hk; lia).
  repeat split; auto.
Qed.

Lemma app_step_orderly (w : AppLoop.world) (e : AppLoop.event) :
  orderly w -> orderly (AppLoop.step w e).
Proof.
  intro H. unfold AppLoop.step.
  assert (Same : forall w', pulse w' = pulse w -> orderly (AppLoop.drain w')).
  { intros w' E. destruct (app_drain_same w w' H E) as [-> H']. exact H'. }
  destruct e as [u tts|o tts|k err|chunk clock|chunk|body| |pid|]; cbn [AppLoop.handle].
  - destruct (0 <? App.intervals (AppLoop.node w)); [|now apply Same].
    unfold AppLoop.tick.
    destruct (negb (App.isProcessing (AppLoop.this w))
              && (0 <? List.length (App.commentQueue (AppLoop.this w)))) eqn:Hgo;
      [|now apply Same].
    apply andb_prop in Hgo. destruct Hgo as [Hidle _]. apply negb_true_iff in Hidle.
    unfold AppLoop.processNextComment. rewrite Hidle.
    destruct (App.commentQueue (AppLoop.this w)) as [|c rest] eqn:Hq; [now apply Same|].
    cbv zeta.
    set (w1 := AppLoop.emit (Server.GenerateCalled (AppLoop.entry c)) _).
    destruct H as [Ht Hfr].
    assert (Et : AppLoop.tasks w = [] /\ AppLoop.speech w = []).
    { destruct (AppLoop.tasks w) as [|[c0|c0 k0] [|t2 more]]; try contradiction.
      - tauto.
      - destruct Ht as [Hb _]. congruence.
      - destruct Ht as [Hb _]. congruence. }
    destruct Et as [Et Es].
    assert (F : AppLoop.tasks w1 = [] /\ AppLoop.speech w1 = [] /\
                App.isProcessing (AppLoop.this w1) = true /\
                AppLoop.settled w1 = AppLoop.settled w /\
                AppLoop.calls w1 = AppLoop.calls w).
    { unfold w1. open_loop w. cbn in Et, Es. subst. astep. auto. }
    destruct F as [F1 [F2 [F3 [F4 F5]]]].
    destruct (App.textGenerator (AppLoop.this w1)).
    + assert (Ho : orderly (AppLoop.suspend (AppLoop.AwaitGenerate c) w1)).
      { assert (G : AppLoop.tasks (AppLoop.suspend (AppLoop.AwaitGenerate c) w1)
                    = AppLoop.tasks w1 ++ [AppLoop.AwaitGenerate c] /\
                    AppLoop.speech (AppLoop.suspend (AppLoop.AwaitGenerate c) w1)
                    = AppLoop.speech w1 /\
                    AppLoop.settled (AppLoop.suspend (AppLoop.AwaitGenerate c) w1)
                    = AppLoop.settled w1 /\
                    AppLoop.calls (AppLoop.suspend (AppLoop.AwaitGenerate c) w1)
                    = AppLoop.calls w1 /\
                    AppLoop.this (AppLoop.suspend (AppLoop.AwaitGenerate c) w1)
                    = AppLoop.this w1) by now destruct w1.
        destruct G as [G1 [G2 [G3 [G4 G5]]]].
        constructor.
        - rewrite G1, G2, G5, F1, F2, F3. cbn [app]. auto.
        - rewrite G3, G4, F4, F5. exact Hfr. }
      now rewrite app_drain_stable.
    + destruct (app_afterGenerate_orderly c (AppLoop.fallback c u) tts w1 F1 F2 F3)
        as [-> Ho]; [|exact Ho].
      rewrite F4, F5. exact Hfr.
  - destruct (AppLoop.takeGenerating (AppLoop.tasks w)) as [[c rest]|] eqn:Hg;
      [|now apply Same].
    destruct H as [Ht Hfr].
    destruct (AppLoop.tasks w) as [|[c0|c0 k0] [|t2 more]] eqn:Et; try contradiction;
      try discriminate Hg.
    cbn in Hg. injection Hg as <- <-. destruct Ht as [Hb Hs].
    destruct (app_afterGenerate_orderly c0 (AppLoop.settle c0 o) tts
                (AppLoop.with_tasks [] w)) as [-> Ho]; try exact Ho;
      now destruct w.
  - destruct (Server.mem k (AppLoop.speech w)) eqn:Hk; [|now apply Same].
    destruct H as [Ht Hfr].
    destruct (AppLoop.tasks w) as [|[c0|c0 k0] [|t2 more]] eqn:Et; try contradiction;
      try (destruct Ht as [_ Hs]; rewrite Hs in Hk; discriminate Hk).
    destruct Ht as [Hb [Hcs [Hs [Hnew Hlt]]]].
    rewrite Hs in Hk. apply mem_one in Hk. subst k0.
    open_loop w.
    cbn [AppLoop.tasks AppLoop.speech AppLoop.settled AppLoop.calls AppLoop.this
         AppLoop.node App.this App.isProcessing App.currentlySpeaking]
      in Et, Hb, Hcs, Hs, Hnew, Hlt, Hfr.
    subst.
    unfold AppLoop.sayCallback. astep. rewrite Hnew. astep.
    cbn [filter]. rewrite mem_head. cbn [filter negb]. astep.
    constructor; astep.
    + split; [reflexivity | apply remove_one].
    + intros j Hj. rewrite mem_cons in Hj. apply orb_prop in Hj.
      destruct Hj as [Hj|Hj]; [apply Nat.eqb_eq in Hj; lia | now apply Hfr].
  - apply Same. destruct (app_intake_appends chunk clock (AppLoop.this w)) as [added E].
    open_loop w. unfold pulse. astep. cbn [AppLoop.this AppLoop.node App.this] in E.
    now rewrite E.
  - now apply Same.
  - apply Same. destruct (app_postStart_frame body (AppLoop.node w)) as [_ [H2 H3]].
    cbv zeta in H2, H3. destruct w.
    unfold pulse, AppLoop.on_node, AppLoop.this, AppLoop.with_restarts in *.
    cbn [AppLoop.node AppLoop.tasks AppLoop.speech AppLoop.settled AppLoop.calls] in *.
    now rewrite H2, H3.
  - now apply Same.
  - destruct (pid <? App.spawned (AppLoop.node w)); [|now apply Same].
    apply Same. now open_loop w.
  - destruct (AppLoop.restarts w) as [|n]; [now apply Same|].
    unfold AppLoop.restartTimer.
    destruct (ToBoolean _); [|apply Same; now open_loop w].
    apply Same.
    destruct (app_startPumpFunChat_frame (AppLoop.node w)) as [_ [H2 H3]].
    cbv zeta in H2, H3. destruct w.
    unfold pulse, AppLoop.on_node, AppLoop.this, AppLoop.with_restarts in *.
    cbn [AppLoop.node AppLoop.tasks AppLoop.speech AppLoop.settled AppLoop.calls] in *.
    now rewrite H2, H3.
Qed.

Lemma app_reachable_orderly (w : AppLoop.world) : AppLoop.reachable w -> orderly w.
Proof.
  intros [loaded [es ->]].
  assert (H : forall es w0, orderly w0 -> orderly (AppLoop.run w0 es)).
  { clear es. induction es as [|e es IH]; intros w0 H0; [exact H0|].
    cbn [AppLoop.run fold_left]. apply IH. now apply app_step_orderly. }
  apply H, app_orderly_booted.
Qed.

Lemma app_reachable_step (w : AppLoop.world) (e : AppLoop.event) :
  AppLoop.reachable w -> AppLoop.reachable (AppLoop.step w e).
Proof.
  intros [loaded [es ->]]. exists loaded, (es ++ [e]).
  unfold AppLoop.run. now rewrite fold_left_app.
Qed.
Lemma app_tick_taken (u : draw) (tts : Server.say) (w : AppLoop.world)
      (c : App.comment) (rest : list App.comment) :
  App.isProcessing (AppLoop.this w) = false ->
  App.commentQueue (AppLoop.this w) = c :: rest ->
  AppLoop.tick u tts w
  = if App.textGenerator (AppLoop.this w)
    then AppLoop.suspend (AppLoop.AwaitGenerate c) (begunApp c rest w)
    else AppLoop.afterGenerate c (AppLoop.fallback c u) tts (begunApp c rest w).
Proof.
  intros Hidle Hq. unfold AppLoop.tick, AppLoop.processNextComment.
  rewrite Hidle, Hq. cbn [negb andb List.length Nat.ltb Nat.leb].
  now open_loop w.
Qed.

Lemma begunApp_facts (c : App.comment) (rest : list App.comment) (w : AppLoop.world) :
  let w1 := begunApp c rest w in
  AppLoop.tasks w1 = AppLoop.tasks w /\ AppLoop.speech w1 = AppLoop.speech w /\
  AppLoop.settled w1 = AppLoop.settled w /\ AppLoop.calls w1 = AppLoop.calls w /\
  App.isProcessing (AppLoop.this w1) = true /\
  App.currentlySpeaking (AppLoop.this w1) = App.currentlySpeaking (AppLoop.this w) /\
  App.commentQueue (AppLoop.this w1) = rest /\
  App.trace (AppLoop.node w1)
  = App.trace (AppLoop.node w)
    ++ [Server.Dequeued (AppLoop.entry c); Server.MarkedProcessed (VString (App.id c));
        Server.GenerateCalled (AppLoop.entry c)].
Proof.
  open_loop w. unfold begunApp. cbv zeta. astep. repeat split.
  now repeat rewrite <- app_assoc.
Qed.

Lemma app_fallback_text (c : App.comment) (u : draw) :
  exists s, AppLoop.fallback c u = Return (VString s).
Proof.
  unfold AppLoop.fallback. cbv zeta.
  destruct (element_in_range (App.fallbackResponses (App.user c))
              (randomIndex u (List.length (App.fallbackResponses (App.user c)))))
    as [s [E _]].
  { apply randomIndex_lt. cbn. lia. }
  exists s. now rewrite E.
Qed.

Lemma app_settle_text (c : App.comment) (o : backend) :
  exists s, AppLoop.settle c o = Return (VString s).
Proof.
  destruct o as [|text|]; cbn [AppLoop.settle]; eauto.
  unfold App.tidy. cbv zeta. destruct (ToBoolean _); eauto.
Qed.

(** [app.js] generates what [App.generateResponse] says. *)
Lemma app_generateResponse_split (c : App.comment) (u : draw) (g : bool) (o : backend) :
  App.generateResponse c u g o
  = if g then AppLoop.settle c o else AppLoop.fallback c u.
Proof. destruct g; [now destruct o | reflexivity]. Qed.

(** [say.speak] throws: the promise is rejected, the [catch] and the
    [finally] of [processNextComment] run, and nobody resets the flag. *)
Lemma app_afterGenerate_throws (c : App.comment) (s : string) (w : AppLoop.world) :
  let w' := AppLoop.afterGenerate c (Return (VString s)) Server.SayThrows w in
  AppLoop.tasks w' = AppLoop.tasks w /\ AppLoop.speech w' = AppLoop.speech w /\
  AppLoop.settled w' = AppLoop.settled w /\ AppLoop.calls w' = S (AppLoop.calls w) /\
  App.isProcessing (AppLoop.this w') = false /\
  App.currentlySpeaking (AppLoop.this w') = true /\
  App.trace (AppLoop.node w')
  = App.trace (AppLoop.node w)
    ++ [Server.GenerateSettled (AppLoop.entry c) (Return (VString s));
        Server.SpeakCalled (AppLoop.calls w) (VString s);
        Server.SayInvoked (AppLoop.calls w) (VString s); Server.ErrorLogged].
Proof.
  open_loop w. cbv zeta. astep. cbn [ToString]. astep. repeat split.
  now repeat rewrite <- app_assoc.
Qed.

Lemma app_speaking_afterGenerate (c : App.comment) (response : value)
      (tts : Server.say) (w : AppLoop.world) :
  App.currentlySpeaking
    (AppLoop.this (AppLoop.afterGenerate c (Return response) tts w)) = true.
Proof.
  open_loop w. astep. destruct (ToString response); [destruct tts|]; reflexivity.
Qed.

Lemma app_blocked_step (w : AppLoop.world) (e : AppLoop.event)
      (c : App.comment) (k : nat) :
  orderly w -> AppLoop.tasks w = [AppLoop.AwaitSpeak c k] -> notCallback k e ->
  pulse (AppLoop.step w e) = pulse w /\
  exists added,
    App.commentQueue (AppLoop.this (AppLoop.step w e))
    = App.commentQueue (AppLoop.this w) ++ added.
Proof.
  intros H Et He. unfold AppLoop.step.
  assert (Same : forall w', pulse w' = pulse w ->
                   App.commentQueue (AppLoop.this w')
                   = App.commentQueue (AppLoop.this w) ->
                   pulse (AppLoop.drain w') = pulse w /\
                   exists added, App.commentQueue (AppLoop.this (AppLoop.drain w'))
                                 = App.commentQueue (AppLoop.this w) ++ added).
  { intros w' E Q. destruct (app_drain_same w w' H E) as [-> _].
    split; [exact E|]. exists []. now rewrite app_nil_r. }
  pose proof H as [Ht _]. rewrite Et in Ht. destruct Ht as [Hb [Hcs [Hs [Hnew Hlt]]]].
  destruct e as [u tts|o tts|j err|chunk clock|chunk|body| |pid|]; cbn [AppLoop.handle].
  - destruct (0 <? App.intervals (AppLoop.node w)); [|now apply Same].
    unfold AppLoop.tick. rewrite Hb. cbn [negb andb]. now apply Same.
  - rewrite Et. cbn [AppLoop.takeGenerating]. now apply Same.
  - cbn in He. rewrite Hs. unfold Server.mem. cbn [existsb].
    apply Nat.eqb_neq in He. rewrite He. cbn [orb]. now apply Same.
  - destruct (app_intake_appends chunk clock (AppLoop.this w)) as [added E].
    set (w' := AppLoop.on_this _ w).
    assert (Ep : pulse w' = pulse w /\
                 App.commentQueue (AppLoop.this w')
                 = App.commentQueue (AppLoop.this w) ++ added).
    { unfold w'. clear w'. open_loop w. unfold pulse. astep.
      cbn [AppLoop.this AppLoop.node App.this] in E. now rewrite E. }
    destruct Ep as [Ep Eq]. destruct (app_drain_same w w' H Ep) as [-> _].
    split; [exact Ep | now exists added].
  - now apply Same.
  - destruct (app_postStart_frame body (AppLoop.node w)) as [H1 [H2 H3]].
    cbv zeta in H1, H2, H3.
    apply Same; destruct w;
      unfold pulse, AppLoop.on_node, AppLoop.this in *;
      cbn [AppLoop.node AppLoop.tasks AppLoop.speech AppLoop.settled AppLoop.calls] in *;
      [now rewrite H2, H3 | exact H1].
  - now apply Same.
  - destruct (pid <? App.spawned (AppLoop.node w)); [|now apply Same].
    apply Same; now open_loop w.
  - destruct (AppLoop.restarts w) as [|n]; [now apply Same|].
    unfold AppLoop.restartTimer.
    destruct (ToBoolean _); [|apply Same; now open_loop w].
    destruct (app_startPumpFunChat_frame (AppLoop.node w)) as [H1 [H2 H3]].
    cbv zeta in H1, H2, H3.
    apply Same; destruct w;
      unfold pulse, AppLoop.on_node, AppLoop.this, AppLoop.with_restarts in *;
      cbn [AppLoop.node AppLoop.tasks AppLoop.speech AppLoop.settled AppLoop.calls] in *;
      [now rewrite H2, H3 | exact H1].
Qed.

Lemma pulse_fields (w w' : AppLoop.world) :
  pulse w' = pulse w ->
  AppLoop.tasks w' = AppLoop.tasks w /\
  App.isProcessing (AppLoop.this w') = App.isProcessing (AppLoop.this w) /\
  App.currentlySpeaking (AppLoop.this w') = App.currentlySpeaking (AppLoop.this w).
Proof. unfold pulse. intro E. now inversion E. Qed.

(** The callback of [say.speak] for the call in progress. *)
Lemma app_callback_releases (w : AppLoop.world) (c : App.comment) (k : nat)
      (err : bool) :
  orderly w -> AppLoop.tasks w = [AppLoop.AwaitSpeak c k] ->
  let w' := AppLoop.step w (AppLoop.SayCallback k err) in
  AppLoop.tasks w' = [] /\
  App.isProcessing (AppLoop.this w') = false /\
  App.currentlySpeaking (AppLoop.this w') = false.
Proof.
  intros [Ht Hfr] Et. rewrite Et in Ht. destruct Ht as [Hb [Hcs [Hs [Hnew Hlt]]]].
  cbv zeta. unfold AppLoop.step. cbn [AppLoop.handle].
  rewrite Hs, mem_head.
  open_loop w.
  cbn [AppLoop.tasks AppLoop.speech AppLoop.settled AppLoop.calls AppLoop.this
       AppLoop.node App.this App.isProcessing App.currentlySpeaking]
    in Et, Hb, Hcs, Hs, Hnew, Hlt, Hfr.
  subst.
  unfold AppLoop.sayCallback. astep. rewrite Hnew. astep.
  cbn [filter]. rewrite mem_head. cbn [filter negb]. astep. auto.
Qed.

(** X17.  [app.js] has no timeout around [say.speak]: while the callback
    of the call in progress has not come, nothing else that can happen
    (intervals, chat lines, start requests, closing children, restarts,
    callbacks of other calls) releases the processor; it stays busy, no
    queued comment is taken, and the queue can only grow.  The callback,
    with or without an error, releases it. *)
Theorem X17_app_processor_waits_for_the_callback
        (w : AppLoop.world) (c : App.comment) (k : nat) (es : list AppLoop.event) :
  AppLoop.reachable w ->
  AppLoop.tasks w = [AppLoop.AwaitSpeak c k] ->
  Forall (notCallback k) es ->
  let w' := AppLoop.run w es in
  AppLoop.tasks w' = [AppLoop.AwaitSpeak c k] /\
  App.isProcessing (AppLoop.this w') = true /\
  App.currentlySpeaking (AppLoop.this w') = true /\
  (exists added,
      App.commentQueue (AppLoop.this w') = App.commentQueue (AppLoop.this w) ++ added) /\
  forall err,
    let w'' := AppLoop.step w' (AppLoop.SayCallback k err) in
    AppLoop.tasks w'' = [] /\
    App.isProcessing (AppLoop.this w'') = false /\
    App.currentlySpeaking (AppLoop.this w'') = false.
Proof.
  intros Hreach Et Hes. cbv zeta.
  pose proof (app_reachable_orderly w Hreach) as Hord. clear Hreach.
  revert w Et Hord. induction Hes as [|e es He _ IH]; intros w Et Hord.
  - cbn [AppLoop.run fold_left].
    pose proof Hord as [Ht _]. rewrite Et in Ht. destruct Ht as [Hb [Hcs _]].
    split; [exact Et|]. split; [exact Hb|]. split; [exact Hcs|].
    split; [exists []; now rewrite app_nil_r|].
    intro err. now apply (app_callback_releases w c k err).
  - cbn [AppLoop.run fold_left].
    destruct (app_blocked_step w e c k Hord Et He) as [Ep [added Eq]].
    destruct (pulse_fields _ _ Ep) as [Et' _].
    destruct (IH (AppLoop.step w e)) as [I1 [I2 [I3 [[more I4] I5]]]].
    { now rewrite Et'. }
    { now apply app_step_orderly. }
    split; [exact I1|]. split; [exact I2|]. split; [exact I3|].
    split; [|exact I5].
    exists (added ++ more). unfold AppLoop.run in I4. rewrite I4, Eq.
    now rewrite app_assoc.
Qed.

Lemma sampleAppQueued_reachable : AppLoop.reachable sampleAppQueued.
Proof. eexists false, _. reflexivity. Qed.

Lemma sampleAppSpeaking_reachable : AppLoop.reachable sampleAppSpeaking.
Proof. exact (app_reachable_step _ _ sampleAppQueued_reachable). Qed.

Lemma X17_witness :
  AppLoop.reachable sampleAppSpeaking /\
  AppLoop.tasks sampleAppSpeaking
  = [AppLoop.AwaitSpeak (App.mkComment "chat_gm_7" "chat" "gm" 7) 0] /\
  let w' := AppLoop.run sampleAppSpeaking
              [AppLoop.Tick sampleDraw Server.SayStarts;
               AppLoop.Output "chat: wagmi" (fun _ => 9%N);
               AppLoop.SayCallback 1 false] in
  App.isProcessing (AppLoop.this w') = true.
Proof.
  assert (Et : AppLoop.tasks sampleAppSpeaking
               = [AppLoop.AwaitSpeak (App.mkComment "chat_gm_7" "chat" "gm" 7) 0])
    by (vm_compute; reflexivity).
  split; [exact sampleAppSpeaking_reachable|]. split; [exact Et|].
  refine (proj1 (proj2 (X17_app_processor_waits_for_the_callback
                          sampleAppSpeaking _ 0 _ sampleAppSpeaking_reachable Et _))).
  repeat constructor. discriminate.
Defined.

Lemma app_speaking_persists (w : AppLoop.world) (e : AppLoop.event) :
  orderly w -> AppLoop.tasks w = [] ->
  App.currentlySpeaking (AppLoop.this w) = true ->
  App.currentlySpeaking (AppLoop.this (AppLoop.step w e)) = true.
Proof.
  intros H Et Hcs. unfold AppLoop.step.
  assert (Same : forall w', pulse w' = pulse w ->
                   App.currentlySpeaking (AppLoop.this (AppLoop.drain w')) = true).
  { intros w' E. destruct (app_drain_same w w' H E) as [-> _].
    destruct (pulse_fields _ _ E) as [_ [_ ->]]. exact Hcs. }
  pose proof H as [Ht Hfr]. rewrite Et in Ht. destruct Ht as [Hb Hs].
  destruct e as [u tts|o tts|j err|chunk clock|chunk|body| |pid|]; cbn [AppLoop.handle].
  - destruct (0 <? App.intervals (AppLoop.node w)); [|now apply Same].
    destruct (App.commentQueue (AppLoop.this w)) as [|c rest] eqn:Hq.
    { unfold AppLoop.tick. rewrite Hq, andb_false_r. now apply Same. }
    rewrite (app_tick_taken u tts w c rest Hb Hq).
    destruct (begunApp_facts c rest w) as [B1 [B2 [B3 [B4 [B5 [B6 _]]]]]].
    cbv zeta in *.
    destruct (App.textGenerator (AppLoop.this w)).
    + set (w1 := AppLoop.suspend _ _).
      assert (F : orderly w1 /\ App.currentlySpeaking (AppLoop.this w1) = true).
      { assert (G : AppLoop.tasks w1 = AppLoop.tasks (begunApp c rest w)
                                       ++ [AppLoop.AwaitGenerate c] /\
                    AppLoop.speech w1 = AppLoop.speech (begunApp c rest w) /\
                    AppLoop.settled w1 = AppLoop.settled (begunApp c rest w) /\
                    AppLoop.calls w1 = AppLoop.calls (begunApp c rest w) /\
                    AppLoop.this w1 = AppLoop.this (begunApp c rest w))
          by (unfold w1; now destruct (begunApp c rest w)).
        destruct G as [G1 [G2 [G3 [G4 G5]]]]. split.
        - constructor.
          + rewrite G1, G2, G5, B1, B2, B5, Et, Hs. cbn [app]. auto.
          + rewrite G3, G4, B3, B4. exact Hfr.
        - now rewrite G5, B6. }
      destruct F as [F1 F2]. now rewrite app_drain_stable.
    + destruct (app_fallback_text c u) as [s ->].
      destruct (app_afterGenerate_orderly c (Return (VString s)) tts (begunApp c rest w))
        as [-> _].
      * now rewrite B1.
      * now rewrite B2.
      * exact B5.
      * rewrite B3, B4. exact Hfr.
      * apply app_speaking_afterGenerate.
  - rewrite Et. cbn [AppLoop.takeGenerating]. now apply Same.
  - rewrite Hs. cbn. now apply Same.
  - apply Same. destruct (app_intake_appends chunk clock (AppLoop.this w)) as [added E].
    open_loop w. unfold pulse. astep. cbn [AppLoop.this AppLoop.node App.this] in E.
    now rewrite E.
  - now apply Same.
  - apply Same. destruct (app_postStart_frame body (AppLoop.node w)) as [_ [H2 H3]].
    cbv zeta in H2, H3. destruct w.
    unfold pulse, AppLoop.on_node, AppLoop.this, AppLoop.with_restarts in *.
    cbn [AppLoop.node AppLoop.tasks AppLoop.speech AppLoop.settled AppLoop.calls] in *.
    now rewrite H2, H3.
  - now apply Same.
  - destruct (pid <? App.spawned (AppLoop.node w)); [|now apply Same].
    apply Same. now open_loop w.
  - destruct (AppLoop.restarts w) as [|n]; [now apply Same|].
    unfold AppLoop.restartTimer.
    destruct (ToBoolean _); [|apply Same; now open_loop w].
    apply Same.
    destruct (app_startPumpFunChat_frame (AppLoop.node w)) as [_ [H2 H3]].
    cbv zeta in H2, H3. destruct w.
    unfold pulse, AppLoop.on_node, AppLoop.this, AppLoop.with_restarts in *.
    cbn [AppLoop.node AppLoop.tasks AppLoop.speech AppLoop.settled AppLoop.calls] in *.
    now rewrite H2, H3.
Qed.

(** X18.  In [app.js] an announcement that fails at once (a [say.speak]
    that throws) leaves the flag up: the promise of [speakResponse] is
    rejected, [processNextComment] logs the error and is idle again, the
    avatar animation is not triggered, and [currentlySpeaking] stays
    true.  No callback is left to reset it, so the status endpoint
    reports speaking while idle after every further event, until a later
    announcement ends with its callback. *)
Theorem X18_app_failed_speech_leaves_the_flag_up
        (w : AppLoop.world) (e : AppLoop.event) :
  AppLoop.reachable w ->
  (exists u, e = AppLoop.Tick u Server.SayThrows /\
             AppLoop.tasks w = [] /\ App.commentQueue (AppLoop.this w) <> [] /\
             0 < App.intervals (AppLoop.node w) /\
             App.textGenerator (AppLoop.this w) = false) \/
  (exists o c, e = AppLoop.BackendSettled o Server.SayThrows /\
               AppLoop.tasks w = [AppLoop.AwaitGenerate c]) ->
  let w' := AppLoop.step w e in
  AppLoop.tasks w' = [] /\
  App.isProcessing (AppLoop.this w') = false /\
  App.currentlySpeaking (AppLoop.this w') = true /\
  AppLoop.calls w' = S (AppLoop.calls w) /\
  textsAnimated (App.trace (AppLoop.node w'))
  = textsAnimated (App.trace (AppLoop.node w)) /\
  forall e', App.currentlySpeaking (AppLoop.this (AppLoop.step w' e')) = true.
Proof.
  intros Hreach Hcase. cbv zeta.
  pose proof (app_reachable_orderly w Hreach) as Hord.
  pose proof (app_step_orderly w e Hord) as Hord'.
  assert (Main : exists c s w1,
             AppLoop.step w e
             = AppLoop.drain (AppLoop.afterGenerate c (Return (VString s))
                                Server.SayThrows w1) /\
             AppLoop.tasks w1 = [] /\ AppLoop.speech w1 = [] /\
             AppLoop.calls w1 = AppLoop.calls w /\
             AppLoop.settled w1 = AppLoop.settled w /\
             App.isProcessing (AppLoop.this w1) = true /\
             textsAnimated (App.trace (AppLoop.node w1))
             = textsAnimated (App.trace (AppLoop.node w))).
  { pose proof Hord as [Ht _].
    destruct Hcase as [[u [-> [Et [Hq [Hiv Hg]]]]]|[o [c [-> Et]]]].
    - rewrite Et in Ht. destruct Ht as [Hb Hs].
      destruct (App.commentQueue (AppLoop.this w)) as [|c rest] eqn:Eq;
        [contradiction|].
      destruct (app_fallback_text c u) as [s Es].
      exists c, s, (begunApp c rest w).
      destruct (begunApp_facts c rest w) as [B1 [B2 [B3 [B4 [B5 [B6 [B7 B8]]]]]]].
      cbv zeta in *.
      split; [|repeat split; try congruence].
      + unfold AppLoop.step. cbn [AppLoop.handle].
        apply Nat.ltb_lt in Hiv. rewrite Hiv.
        now rewrite (app_tick_taken u Server.SayThrows w c rest Hb Eq), Hg, Es.
      + rewrite B8, textsAnimated_app. cbn. now rewrite app_nil_r.
    - rewrite Et in Ht. destruct Ht as [Hb Hs].
      destruct (app_settle_text c o) as [s Es].
      exists c, s, (AppLoop.with_tasks [] w).
      split; [|repeat split; try (now destruct w)].
      unfold AppLoop.step. cbn [AppLoop.handle]. rewrite Et.
      cbn [AppLoop.takeGenerating]. now rewrite Es. }
  destruct Main as [c [s [w1 [E [M1 [M2 [M3 [M4 [M5 M6]]]]]]]]].
  destruct (app_afterGenerate_orderly c (Return (VString s)) Server.SayThrows w1
              M1 M2 M5) as [Ed _].
  { intros k Hk. rewrite M4 in Hk. rewrite M3.
    destruct Hord as [_ Hfr]. now apply Hfr. }
  cbv zeta in Ed. rewrite Ed in E.
  destruct (app_afterGenerate_throws c s w1) as [A1 [A2 [A3 [A4 [A5 [A6 A7]]]]]].
  cbv zeta in *. rewrite <- E in A1, A2, A3, A4, A5, A6, A7.
  assert (Et' : AppLoop.tasks (AppLoop.step w e) = []) by congruence.
  split; [exact Et'|]. split; [exact A5|]. split; [exact A6|].
  split; [congruence|]. split.
  - rewrite A7, textsAnimated_app. cbn. now rewrite app_nil_r.
  - intro e'. now apply app_speaking_persists.
Qed.

Lemma X18_witness :
  AppLoop.reachable sampleAppQueued /\
  App.currentlySpeaking
    (AppLoop.this (AppLoop.step sampleAppQueued
                                (AppLoop.Tick sampleDraw Server.SayThrows))) = true /\
  App.isProcessing
    (AppLoop.this (AppLoop.step sampleAppQueued
                                (AppLoop.Tick sampleDraw Server.SayThrows))) = false.
Proof.
  split; [exact sampleAppQueued_reachable|].
  assert (H : (exists u, AppLoop.Tick sampleDraw Server.SayThrows
                         = AppLoop.Tick u Server.SayThrows /\
                         AppLoop.tasks sampleAppQueued = [] /\
                         App.commentQueue (AppLoop.this sampleAppQueued) <> [] /\
                         0 < App.intervals (AppLoop.node sampleAppQueued) /\
                         App.textGenerator (AppLoop.this sampleAppQueued) = false) \/
              (exists o c, AppLoop.Tick sampleDraw Server.SayThrows
                           = AppLoop.BackendSettled o Server.SayThrows /\
                           AppLoop.tasks sampleAppQueued = [AppLoop.AwaitGenerate c])).
  { left. exists sampleDraw. split; [reflexivity|].
    split; [vm_compute; reflexivity|]. split; [vm_compute; discriminate|].
    split; [vm_compute; lia | vm_compute; reflexivity]. }
  destruct (X18_app_failed_speech_leaves_the_flag_up sampleAppQueued
              (AppLoop.Tick sampleDraw Server.SayThrows) sampleAppQueued_reachable H)
    as [_ [H2 [H3 _]]].
  split; [exact H3 | exact H2].
Defined.

(** ** Late callbacks *)

Lemma conclude_inert (k : nat) (disable : bool) (w : Server.world)
      (timers' : list (nat * N)) (speech' : list nat) :
  invariant w ->
  (forall c j, Server.tasks w <> [Server.AwaitSpeak c j]) ->
  Server.mem k (Server.settled w) = true ->
  Server.ttsDisabled (Server.this w) = true ->
  conclude k disable timers' speech' w
  = Server.with_speech speech' (Server.with_timers timers' w).
Proof.
  intros Hinv Hno Hk Htd.
  destruct (stale_facts w Hinv Hno) as [Hcs _].
  unfold conclude. open_world w. simpl in *. subst.
  wstep. rewrite Hk. now rewrite orb_true_r.
Qed.

(** X19.  A timeout or a [say.speak] callback that comes when no
    announcement is pending does nothing.  Such late events exist: the
    timeout armed before a [say.speak] that throws is never cleared, and
    a callback can come after the timeout has resolved the call.  In
    every state the program can reach they leave the object, the
    suspended invocation, the resolved promises and the trace as they
    are. *)
Theorem X19_late_callbacks_do_nothing
        (md5_hex : string -> string) (json_decode : string -> option value)
        (w : Server.world) (k : nat) (e : Server.event) :
  Server.reachable md5_hex json_decode w ->
  (forall c j, Server.tasks w <> [Server.AwaitSpeak c j]) ->
  e = Server.TtsTimeout k \/ (exists err, e = Server.SayCallback k err) ->
  let w' := Server.step md5_hex json_decode w e in
  Server.this w' = Server.this w /\
  Server.tasks w' = Server.tasks w /\
  Server.settled w' = Server.settled w /\
  Server.trace w' = Server.trace w.
Proof.
  intros Hreach Hno He. cbv zeta.
  pose proof (reachable_invariant md5_hex json_decode w Hreach) as Hinv.
  destruct (stale_facts w Hinv Hno) as [Hcs [Htm [Hsp Hen]]].
  assert (Quiet : forall timers' speech',
             let w1 := Server.with_speech speech' (Server.with_timers timers' w) in
             Server.this (Server.drain w1) = Server.this w /\
             Server.tasks (Server.drain w1) = Server.tasks w /\
             Server.settled (Server.drain w1) = Server.settled w /\
             Server.trace (Server.drain w1) = Server.trace w).
  { intros timers' speech'. cbv zeta.
    rewrite (drain_same w) by (try exact Hinv; now destruct w).
    now destruct w. }
  assert (Still : Server.this (Server.drain w) = Server.this w /\
                  Server.tasks (Server.drain w) = Server.tasks w /\
                  Server.settled (Server.drain w) = Server.settled w /\
                  Server.trace (Server.drain w) = Server.trace w)
    by (rewrite drain_stable by exact Hinv; auto).
  unfold Server.step.
  destruct He as [->|[err ->]]; cbn [Server.handle].
  - destruct (Server.armed k (Server.timers w)) eqn:Ha; [|exact Still].
    rewrite ttsTimeout_conclude, conclude_inert; try assumption.
    + apply Quiet.
    + exact (armed_settled _ _ _ Htm Ha).
    + destruct (Server.ttsDisabled (Server.this w)); [reflexivity|].
      destruct (Hen eq_refl) as [E _]. rewrite E in Ha. discriminate Ha.
  - destruct (Server.mem k (Server.speech w)) eqn:Ha; [|exact Still].
    rewrite sayCallback_conclude, conclude_inert; try assumption.
    + apply Quiet.
    + exact (mem_settled _ _ _ Hsp Ha).
    + destruct (Server.ttsDisabled (Server.this w)); [reflexivity|].
      destruct (Hen eq_refl) as [_ E]. rewrite E in Ha. discriminate Ha.
Qed.

Lemma sampleThrown_reachable : Server.reachable sampleHash sampleDecode sampleThrown.
Proof.
  exact (reachable_step sampleHash sampleDecode sampleQueued
           (Server.Tick sampleDraw Server.SayThrows) sampleQueued_reachable).
Qed.

Lemma X19_witness :
  Server.reachable sampleHash sampleDecode sampleThrown /\
  Server.timers sampleThrown = [(0, 5000%N)] /\
  Server.tasks sampleThrown = [] /\
  Server.this (Server.step sampleHash sampleDecode sampleThrown (Server.TtsTimeout 0))
  = Server.this sampleThrown.
Proof.
  assert (Et : Server.tasks sampleThrown = []) by (vm_compute; reflexivity).
  split; [exact sampleThrown_reachable|].
  split; [vm_compute; reflexivity|]. split; [exact Et|].
  refine (proj1 (X19_late_callbacks_do_nothing sampleHash sampleDecode sampleThrown 0
                   (Server.TtsTimeout 0) sampleThrown_reachable _ (or_introl eq_refl))).
  intros c j. rewrite Et. discriminate.
Defined.

(** ** The order of the queue *)

Lemma commentsTaken_app (a b : list Server.action) :
  commentsTaken (a ++ b) = commentsTaken a ++ commentsTaken b.
Proof.
  induction a as [|x a IH]; [reflexivity|].
  destruct x; cbn [app commentsTaken]; now rewrite IH.
Qed.

(** Closing a goal about the [line] of an explicit world. *)
Ltac lined :=
  unfold line; wstep;
  rewrite ?commentsTaken_app;
  cbn [commentsTaken app];
  rewrite ?app_nil_r;
  reflexivity.

Lemma line_resolve (k : nat) (w : Server.world) : line (Server.resolve k w) = line w.
Proof.
  open_world w. unfold Server.resolve. cbn [Server.settled].
  destruct (Server.mem k settled); lined.
Qed.

Lemma line_conclude (k : nat) (disable : bool) (timers' : list (nat * N))
      (speech' : list nat) (w : Server.world) :
  line (conclude k disable timers' speech' w) = line w.
Proof. unfold conclude. rewrite line_resolve. open_world w. lined. Qed.

Lemma line_speakResponse (r : value) (tts : Server.say) (w : Server.world) :
  line (Server.speakResponse r tts w) = line w.
Proof.
  open_world w.
  destruct td, tts; destruct (Server.mem calls settled) eqn:E;
    unfold line; wstep; rewrite ?E; lined.
Qed.

Lemma line_afterGenerate (c : Server.comment) (r : completion value)
      (tts : Server.say) (w : Server.world) :
  line (Server.afterGenerate c r tts w) = line w.
Proof.
  unfold Server.afterGenerate. destruct r as [response|e].
  - cbv zeta.
    transitivity (line (Server.speakResponse response tts
                          (Server.emit (Server.GenerateSettled c (Return response)) w))).
    { now destruct (Server.speakResponse _ _ _). }
    rewrite line_speakResponse. open_world w. lined.
  - open_world w. lined.
Qed.

Lemma line_startPumpFunChat (w : Server.world) :
  line (snd (Server.startPumpFunChat w)) = line w.
Proof.
  open_world w. unfold Server.startPumpFunChat.
  destruct mp; wstep; destruct (ToString ta); try destruct (spawnRefuses ta);
    cbn [snd]; lined.
Qed.

Lemma line_postStart (body : value) (w : Server.world) :
  line (Server.postStart body w) = line w.
Proof.
  unfold Server.postStart.
  destruct (Server.startArguments body) as [[u t]|e]; [|open_world w; lined].
  destruct (negb (ToBoolean t)); [open_world w; lined|].
  destruct (bind (ToString u) (fun _ => ToString t)); [|open_world w; lined].
  pose proof (line_startPumpFunChat (Server.on_this (Server.with_target u t) w)) as H.
  destruct (Server.startPumpFunChat (Server.on_this (Server.with_target u t) w))
    as [[[]|e] w1]; cbn [snd] in H.
  - transitivity (line w1); [destruct w1 as [[]]; lined|].
    rewrite H. open_world w. lined.
  - transitivity (line w1); [destruct w1 as [[]]; lined|].
    rewrite H. open_world w. lined.
Qed.

Lemma line_drain (w : Server.world) : line (Server.drain w) = line w.
Proof.
  unfold Server.drain. cbv zeta.
  destruct (filter (Server.awaitsSettled (Server.settled w)) (Server.tasks w));
    [reflexivity|]. open_world w. lined.
Qed.

Lemma line_processNextComment (u : draw) (tts : Server.say) (w : Server.world) :
  let w' := Server.processNextComment u tts w in
  line w' = line w \/
  exists c rest,
    Server.commentQueue (Server.this w) = c :: rest /\
    line w' = (commentsTaken (Server.trace w) ++ [c], rest).
Proof.
  cbv zeta. unfold Server.processNextComment.
  destruct (Server.isProcessing (Server.this w)); [now left|].
  destruct (Server.commentQueue (Server.this w)) as [|c rest] eqn:Hq; [now left|].
  right. exists c, rest. split; [reflexivity|].
  destruct (bind _ _); [|open_world w; lined].
  cbv zeta.
  set (w1 := Server.emit (Server.GenerateCalled c) _).
  assert (E : line w1 = (commentsTaken (Server.trace w) ++ [c], rest))
    by (unfold w1; open_world w; lined).
  destruct (Server.generateBegin _ _ _).
  - now rewrite line_afterGenerate.
  - rewrite <- E. now destruct w1.
Qed.

Lemma line_fields (w w' : Server.world) :
  line w' = line w -> arrivals w' = arrivals w.
Proof. unfold line, arrivals. intro E. inversion E as [[E1 E2]]. now rewrite E1, E2. Qed.

Section Order.

Variable md5_hex : string -> string.
Variable json_decode : string -> option value.

Lemma step_arrivals (w : Server.world) (e : Server.event) :
  exists added,
    arrivals (Server.step md5_hex json_decode w e) = arrivals w ++ added /\
    (~ isOutput e -> added = []).
Proof.
  unfold Server.step. rewrite (line_fields _ _ (line_drain _)).
  assert (Same : forall w', line w' = line w ->
                   exists added, arrivals w' = arrivals w ++ added /\
                                 (~ isOutput e -> added = [])).
  { intros w' E. exists []. rewrite app_nil_r. split; [now apply line_fields | auto]. }
  destruct e as [u tts|o tts|k err|k|chunk clock|body| |pid|]; cbn [Server.handle].
  - destruct (0 <? Server.intervals w); [|now apply Same].
    unfold Server.tick. destruct (_ && _); [|now apply Same].
    destruct (line_processNextComment u tts w) as [E|[c [rest [Hq E]]]]; cbv zeta in E.
    + now apply Same.
    + exists []. rewrite app_nil_r. split; [|auto].
      unfold line in E. inversion E as [[E1 E2]].
      unfold arrivals. rewrite E1, E2, Hq. now rewrite <- app_assoc.
  - destruct (Server.takeGenerating (Server.tasks w)) as [[[[c sel] p] rest]|];
      [|now apply Same].
    apply Same. rewrite line_afterGenerate. now destruct w.
  - destruct (Server.mem k (Server.speech w)); [|now apply Same].
    apply Same. rewrite sayCallback_conclude. apply line_conclude.
  - destruct (Server.armed k (Server.timers w)); [|now apply Same].
    apply Same. rewrite ttsTimeout_conclude. apply line_conclude.
  - destruct (forEachLine_printable md5_hex json_decode (Text.split Text.LF chunk)
                clock 0 (Server.this w)) as [_ [_ [_ [_ [_ [_ [_ [_ [_ [added H]]]]]]]]]].
    cbv zeta in H. exists added. split; [|intro Hn; exfalso; now apply Hn].
    unfold arrivals. destruct w as [a tasks timers speech settled calls children
                                      spawned intervals restarts trace].
    cbn [Server.on_this Server.this Server.trace] in *.
    rewrite parseAndQueueComments_eq, H. now rewrite app_assoc.
  - apply Same, line_postStart.
  - now apply Same.
  - destruct (pid <? Server.spawned w); [|now apply Same]. apply Same. now destruct w.
  - destruct (Server.restarts w) as [|n]; [now apply Same|].
    unfold Server.restartTimer. destruct (ToBoolean _); [|apply Same; now destruct w].
    apply Same. rewrite line_startPumpFunChat. now destruct w.
Qed.

End Order.

(** X20.  The queue is first in, first out, and nothing is lost from
    it: along every run the comments taken so far followed by the
    comments waiting are the comments queued so far in the order of
    their arrival; later events only add to the end of that sequence,
    and only chat output adds. *)
Theorem X20_queue_is_first_in_first_out
        (md5_hex : string -> string) (json_decode : string -> option value)
        (w : Server.world) (es : list Server.event) :
  exists added,
    arrivals (Server.run md5_hex json_decode w es) = arrivals w ++ added /\
    (Forall (fun e => ~ isOutput e) es -> added = []).
Proof.
  revert w. induction es as [|e es IH]; intro w.
  - exists []. now rewrite app_nil_r.
  - cbn [Server.run fold_left].
    destruct (step_arrivals md5_hex json_decode w e) as [a1 [E1 N1]].
    destruct (IH (Server.step md5_hex json_decode w e)) as [a2 [E2 N2]].
    exists (a1 ++ a2). split.
    + unfold Server.run in E2. rewrite E2, E1. now rewrite app_assoc.
    + intro H. inversion H as [|e' es' He Hes]; subst.
      now rewrite (N1 He), (N2 Hes).
Qed.

Lemma X20_witness :
  Forall (fun e => ~ isOutput e)
         [Server.Tick sampleDraw Server.SayStarts; Server.TtsTimeout 0] /\
  arrivals (Server.run sampleHash sampleDecode sampleQueued
              [Server.Tick sampleDraw Server.SayStarts; Server.TtsTimeout 0])
  = [sampleComment].
Proof.
  assert (H : Forall (fun e => ~ isOutput e)
                     [Server.Tick sampleDraw Server.SayStarts; Server.TtsTimeout 0])
    by (repeat constructor; intros []).
  split; [exact H|].
  destruct (X20_queue_is_first_in_first_out sampleHash sampleDecode sampleQueued
              [Server.Tick sampleDraw Server.SayStarts; Server.TtsTimeout 0])
    as [added [E N]].
  rewrite E, (N H), app_nil_r. vm_compute. reflexivity.
Defined.

(** X21.  The processor does not look at the processed set: a comment
    that was queued twice before its first copy was taken is answered
    twice.  A tick that finds the processor idle takes the head of the
    queue and calls [generateResponse] for it also when its id is already
    processed; the set is then left as it is. *)
Theorem X21_queued_duplicates_are_answered_again
        (md5_hex : string -> string) (json_decode : string -> option value)
        (w : Server.world) (u : draw) (tts : Server.say)
        (c : Server.comment) (rest : list Server.comment) :
  Server.reachable md5_hex json_decode w ->
  Server.isProcessing (Server.this w) = false ->
  Server.commentQueue (Server.this w) = c :: rest ->
  0 < Server.intervals w ->
  has (Server.processedComments (Server.this w)) (Server.id c) = true ->
  let w' := Server.step md5_hex json_decode w (Server.Tick u tts) in
  Server.processedComments (Server.this w') = Server.processedComments (Server.this w) /\
  Server.commentQueue (Server.this w') = rest /\
  exists more,
    Server.trace w'
    = Server.trace w ++ Server.Dequeued c :: Server.MarkedProcessed (Server.id c)
                        :: Server.GenerateCalled c :: more.
Proof.
  intros Hreach Hidle Hq Hiv Hhas. cbv zeta.
  pose proof (reachable_invariant md5_hex json_decode w Hreach) as Hinv.
  assert (Hc : printable c).
  { destruct Hinv as [_ _ Hqu]. rewrite Hq in Hqu. now inversion Hqu. }
  unfold Server.step. cbn [Server.handle].
  apply Nat.ltb_lt in Hiv. rewrite Hiv.
  destruct (tick_begun u tts w c rest Hidle Hq Hc) as [Q P _ _ [more [T _]]].
  destruct (begun_facts c rest w) as [Bq [Bp [_ [_ [_ Bt]]]]].
  rewrite Q, P, T, Bq, Bp, Bt. split; [|split].
  - unfold add. now rewrite Hhas.
  - reflexivity.
  - exists more. now rewrite <- app_assoc.
Qed.

Lemma sampleTwice_reachable : Server.reachable sampleHash sampleDecode sampleTwice.
Proof. eexists false, _. reflexivity. Qed.

Lemma X21_witness :
  Server.reachable sampleHash sampleDecode sampleTwice /\
  Server.commentQueue (Server.this sampleTwice) = [sampleComment] /\
  has (Server.processedComments (Server.this sampleTwice)) (Server.id sampleComment)
  = true /\
  Server.commentQueue
    (Server.this (Server.step sampleHash sampleDecode sampleTwice
                              (Server.Tick sampleDraw Server.SayStarts))) = [].
Proof.
  assert (Hq : Server.commentQueue (Server.this sampleTwice) = [sampleComment])
    by (vm_compute; reflexivity).
  assert (Hh : has (Server.processedComments (Server.this sampleTwice))
                   (Server.id sampleComment) = true) by (vm_compute; reflexivity).
  split; [exact sampleTwice_reachable|]. split; [exact Hq|]. split; [exact Hh|].
  refine (proj1 (proj2 (X21_queued_duplicates_are_answered_again sampleHash sampleDecode
                          sampleTwice sampleDraw Server.SayStarts sampleComment []
                          sampleTwice_reachable _ Hq _ Hh))).
  - vm_compute. reflexivity.
  - vm_compute. lia.
Defined.
